(** * Panjas: the lazy pair pipelines of [src/series.js]

    A shallow embedding of the Series / DataFrame pipeline engine: cursors
    ([moveNext] / [getCurrent]), the iterables that hand out fresh cursors,
    the Series and DataFrame operations built on them, and the properties
    the specification states about them. *)

From Stdlib Require Import List String Ascii ZArith Lia Bool Arith PeanoNat.
From Stdlib Require Import DecimalString.
From Stdlib Require Import Sorting.Permutation Sorting.Sorted.
Import ListNotations.

Set Universe Polymorphism.
Unset Universe Minimization ToSet.
Set Implicit Arguments.

Local Open Scope string_scope.
Local Open Scope list_scope.

(* ================================================================== *)
(** ** Computations: exceptions and unbounded loops *)

(** JavaScript exceptions met in the source: [throw new Error(msg)], a failed
    chai assertion, and the host's TypeError. *)
Inductive exn : Type :=
| Error (msg : string)
| AssertionError (msg : string)
| TypeError (msg : string).

(** The outcome of running a computation with a bounded number of loop
    iterations: a value, a thrown exception, or the bound was reached. *)
Inductive res (A : Type) : Type :=
| Val (a : A)
| Exn (e : exn)
| OutOfFuel.
Arguments Val {A} a.
Arguments Exn {A} e.
Arguments OutOfFuel {A}.

(** A computation takes the loop bound (fuel) and gives an outcome. *)
Definition M (A : Type) : Type := nat -> res A.

(** Return a value. *)
Definition ret {A : Type} (a : A) : M A := fun _ => Val a.

(** [throw e]. *)
Definition throw {A : Type} (e : exn) : M A := fun _ => Exn e.

(** Sequencing: an exception or the end of the fuel ends the computation. *)
Definition bind {A B : Type} (m : M A) (f : A -> M B) : M B :=
  fun fuel =>
    match m fuel with
    | Val a => f a fuel
    | Exn e => Exn e
    | OutOfFuel => OutOfFuel
    end.

Notation "x <- m ;; k" := (bind m (fun x => k))
  (at level 61, m at next level, right associativity).
Notation "' p <- m ;; k" := (bind m (fun x => match x with p => k end))
  (at level 61, p pattern, m at next level, right associativity).

(** [loop body s]: the shape of [for (;;)] and [while] in the source. The body
    either continues with a new loop state ([inl]) or leaves the loop with a
    result ([inr]); every iteration spends one unit of fuel. *)
Fixpoint loop {S R : Type} (body : S -> M (S + R)) (s : S) (fuel : nat) : res R :=
  match fuel with
  | O => OutOfFuel
  | Datatypes.S fuel' =>
      match body s fuel' with
      | Val (inl s') => loop body s' fuel'
      | Val (inr r) => Val r
      | Exn e => Exn e
      | OutOfFuel => OutOfFuel
      end
  end.

(** [m ~~> r]: with enough fuel, [m] gives the outcome [r]. *)
Definition evals {A : Type} (m : M A) (r : res A) : Prop :=
  exists N, forall fuel, N <= fuel -> m fuel = r.

Notation "m ~~> r" := (evals m r) (at level 70, no associativity).

(* ================================================================== *)
(** ** JavaScript values *)

(** The values that flow through a pipeline. Numbers are modelled on the
    integers; [VOther ty repr] stands for any other host value (a fractional
    or non-finite number, a date, a function), known by its [typeof] and its
    string rendering only. Objects are plain records in field order. *)
#[local] Unset Elimination Schemes.
Inductive value : Type :=
| VUndefined
| VNull
| VBool (b : bool)
| VNum (z : Z)
| VStr (s : string)
| VArr (items : list value)
| VObj (fields : list (string * value))
| VOther (ty repr : string).
#[local] Set Elimination Schemes.

(** [v === undefined]. *)
Definition is_undefined (v : value) : bool :=
  match v with VUndefined => true | _ => false end.

(** chai's [assert.isString]. *)
Definition is_string (v : value) : bool :=
  match v with VStr _ => true | _ => false end.

(** Sugar's [Object.isObject]: plain objects only. *)
Definition is_object (v : value) : bool :=
  match v with VObj _ => true | _ => false end.

(** [typeof v]. *)
Definition js_typeof (v : value) : string :=
  match v with
  | VUndefined => "undefined"
  | VNull => "object"
  | VBool _ => "boolean"
  | VNum _ => "number"
  | VStr _ => "string"
  | VArr _ => "object"
  | VObj _ => "object"
  | VOther ty _ => ty
  end.

(** String conversion, as string concatenation performs it. An array is
    joined with commas, and an element that is [undefined] or [null] gives
    nothing between them. *)
Fixpoint js_toString (v : value) : string :=
  match v with
  | VUndefined => "undefined"
  | VNull => "null"
  | VBool true => "true"
  | VBool false => "false"
  | VNum z => NilZero.string_of_int (Z.to_int z)
  | VStr s => s
  | VArr items =>
      String.concat ","
        (map (fun item =>
                match item with
                | VUndefined | VNull => EmptyString
                | _ => js_toString item
                end) items)
  | VObj _ => "[object Object]"
  | VOther _ repr => repr
  end.

(** An index/value pair [[index, value]]; the value type varies (plain values,
    records, or whole Series for windows). *)
Definition pair (V : Type) : Type := (value * V)%type.

(** What [!== undefined] answers on the values of a pipeline. *)
Class Absentable (V : Type) : Type := is_absent : V -> bool.

#[global] Instance value_Absentable : Absentable value := is_undefined.

(* ================================================================== *)
(** ** The cursor protocol *)

(** An iterator: its private state, and the two operations of the protocol as
    functions of that state. [moveNext] answers whether there is a next pair
    and gives the state after the call. *)
Record Iterator (A : Type) : Type := {
  state : Type;
  moveNext : state -> M (bool * state);
  getCurrent : state -> M A
}.
Arguments state {A} _.
Arguments moveNext {A} _ _.
Arguments getCurrent {A} _ _.

(** A live iterator object: an iterator together with its present state. *)
Record Cursor (A : Type) : Type := {
  machine : Iterator A;
  pos : state machine
}.
Arguments machine {A} _.
Arguments pos {A} _.

(** An iterable: [getIterator()] builds a fresh cursor (and may have to run
    code to do so). *)
Record Iterable (A : Type) : Type := {
  getIterator : M (Cursor A)
}.
Arguments getIterator {A} _.

(** Modelled from the spec: the source of [iterators/validate.js] is missing.
    "Any operator constructor that accepts a cursor-producing value asserts
    the two operations are present before first use"; every [Cursor] has
    both. *)
Definition validateIterator {A : Type} (iterator : Cursor A) : M unit := ret tt.

(** Reading the current pair of a cursor that is not live gives [undefined] in
    the source; the typed model has no undefined pair and raises there, as
    indexing the result ([pair[0]], [pair[1]]) does. *)
Definition no_current {A : Type} : M A :=
  throw (TypeError "Cannot read property of undefined").

(** How a consumption of a cursor ends. *)
Inductive ending : Type :=
| Finished
| Raised (e : exn).

(** [runs it s l en]: driving [it] from state [s], reading each current
    element, gives the elements [l] and then ends as [en]. *)
Inductive runs {A : Type} (it : Iterator A) : state it -> list A -> ending -> Prop :=
| runs_finished s s' :
    moveNext it s ~~> Val (false, s') ->
    runs it s [] Finished
| runs_raised_moving s e :
    moveNext it s ~~> Exn e ->
    runs it s [] (Raised e)
| runs_raised_reading s s' e :
    moveNext it s ~~> Val (true, s') ->
    getCurrent it s' ~~> Exn e ->
    runs it s [] (Raised e)
| runs_more s s' a l en :
    moveNext it s ~~> Val (true, s') ->
    getCurrent it s' ~~> Val a ->
    runs it s' l en ->
    runs it s (a :: l) en.

(** The same for a live iterator object. *)
Definition traces {A : Type} (iterator : Cursor A) (l : list A) (en : ending) : Prop :=
  runs (machine iterator) (pos iterator) l en.

(** [yields src l]: a fresh cursor of [src] can be built, and driving it gives
    exactly [l] and finishes. *)
Definition yields {A : Type} (src : Iterable A) (l : list A) : Prop :=
  exists iterator, getIterator src ~~> Val iterator /\ traces iterator l Finished.

(* ================================================================== *)
(** ** Iterators of the repository that [src/] does not contain *)

(** Modelled from the spec: the source of [iterators/empty.js] is missing.
    "Empty: cursor whose first advance() returns false." *)
Definition EmptyIterator_machine (A : Type) : Iterator A := {|
  state := unit;
  moveNext := fun s => ret (false, s);
  getCurrent := fun _ => no_current
|}.

(** Modelled from the spec: [new EmptyIterator()], the cursor before its
    first [moveNext]. *)
Definition EmptyIterator (A : Type) : Cursor A :=
  {| machine := EmptyIterator_machine A; pos := tt |}.

(** Modelled from the spec: the source of [iterators/array.js] is missing.
    "Array-of-T: cursor stepping through an indexable buffer." The state is
    the position in the buffer, before the first element at the start. *)
Definition ArrayIterator_machine {A : Type} (arr : list A) : Iterator A := {|
  state := Z;
  moveNext := fun rowIndex =>
    if (rowIndex + 1 <? Z.of_nat (List.length arr))%Z
    then ret (true, (rowIndex + 1)%Z)
    else ret (false, rowIndex);
  getCurrent := fun rowIndex =>
    if (rowIndex <? 0)%Z then no_current
    else match nth_error arr (Z.to_nat rowIndex) with
         | Some a => ret a
         | None => no_current
         end
|}.

(** Modelled from the spec: [new ArrayIterator(arr)], the cursor before the
    first element. *)
Definition ArrayIterator {A : Type} (arr : list A) : Cursor A :=
  {| machine := ArrayIterator_machine arr; pos := (-1)%Z |}.

(** Modelled from the spec: the source of [iterators/count.js] is missing.
    "Count: infinite sequence 0, 1, 2, ...; used as the default auto-index." *)
Definition CountIterator_machine : Iterator value := {|
  state := Z;
  moveNext := fun index => ret (true, (index + 1)%Z);
  getCurrent := fun index => ret (VNum index)
|}.

(** Modelled from the spec: [new CountIterator()], the cursor before 0. *)
Definition CountIterator : Cursor value :=
  {| machine := CountIterator_machine; pos := (-1)%Z |}.

(** Modelled from the spec: the source of [iterators/pair.js] is missing.
    "Pair(indexIter, valuesIter): zips two parallel cursors into pairs;
    terminates when either side exhausts." *)
Definition PairIterator_machine {A B : Type} (it1 : Iterator A) (it2 : Iterator B)
  : Iterator (A * B) := {|
  state := state it1 * state it2;
  moveNext := fun '(s1, s2) =>
    '(b1, s1') <- moveNext it1 s1 ;;
    if b1 then
      '(b2, s2') <- moveNext it2 s2 ;;
      ret (b2, (s1', s2'))
    else ret (false, (s1', s2));
  getCurrent := fun '(s1, s2) =>
    a <- getCurrent it1 s1 ;;
    b <- getCurrent it2 s2 ;;
    ret (a, b)
|}.

(** Modelled from the spec: [new PairIterator(it1, it2)]. *)
Definition PairIterator {A B : Type} (it1 : Cursor A) (it2 : Cursor B) : Cursor (A * B) :=
  {| machine := PairIterator_machine (machine it1) (machine it2);
     pos := (pos it1, pos it2) |}.

(** Modelled from the spec: the source of [iterators/skip.js] is missing.
    "Skip(n): discards the first n pairs, then passes through."
    [SkipIterator_discard] moves past the pairs to discard and to the next
    one; it stops early when the input ends. *)
Fixpoint SkipIterator_discard {A : Type} (it : Iterator A) (skipAmount : nat) (s : state it)
  : M (bool * state it) :=
  match skipAmount with
  | O => moveNext it s
  | Datatypes.S n =>
      '(more, s') <- moveNext it s ;;
      if more then SkipIterator_discard it n s' else ret (false, s')
  end.

(** Modelled from the spec: the Skip iterator; after its first [moveNext]
    nothing is left to discard. *)
Definition SkipIterator_machine {A : Type} (it : Iterator A) : Iterator A := {|
  state := state it * nat;
  moveNext := fun '(s, skipAmount) =>
    '(more, s') <- SkipIterator_discard it skipAmount s ;;
    ret (more, (s', O));
  getCurrent := fun '(s, _) => getCurrent it s
|}.

(** Modelled from the spec: [new SkipIterator(iterator, skipAmount)]. *)
Definition SkipIterator {A : Type} (iterator : Cursor A) (skipAmount : nat) : Cursor A :=
  {| machine := SkipIterator_machine (machine iterator);
     pos := (pos iterator, skipAmount) |}.

(** Modelled from the spec: the source of [iterators/take.js] is missing.
    "Take(n)": passes the first n pairs through, then reports exhaustion
    without asking the input again. *)
Definition TakeIterator_machine {A : Type} (it : Iterator A) : Iterator A := {|
  state := state it * nat;
  moveNext := fun '(s, takeAmount) =>
    match takeAmount with
    | O => ret (false, (s, O))
    | Datatypes.S n =>
        '(more, s') <- moveNext it s ;;
        ret (more, (s', n))
    end;
  getCurrent := fun '(s, _) => getCurrent it s
|}.

(** Modelled from the spec: [new TakeIterator(iterator, takeAmount)]. *)
Definition TakeIterator {A : Type} (iterator : Cursor A) (takeAmount : nat) : Cursor A :=
  {| machine := TakeIterator_machine (machine iterator);
     pos := (pos iterator, takeAmount) |}.

(** Modelled from the spec: the source of [iterators/select.js] is missing.
    The source applies it to a cursor and a function of the current element
    and its position; the function runs when the current element is read. *)
Definition SelectIterator_machine {A B : Type} (it : Iterator A) (selector : A -> value -> M B)
  : Iterator B := {|
  state := state it * Z;
  moveNext := fun '(s, i) =>
    '(more, s') <- moveNext it s ;;
    ret (more, (s', (i + 1)%Z));
  getCurrent := fun '(s, i) =>
    cur <- getCurrent it s ;;
    selector cur (VNum i)
|}.

(** Modelled from the spec: [new SelectIterator(iterator, selector)]; the
    position starts before 0. *)
Definition SelectIterator {A B : Type} (iterator : Cursor A) (selector : A -> value -> M B)
  : Cursor B :=
  {| machine := SelectIterator_machine (machine iterator) selector;
     pos := (pos iterator, (-1)%Z) |}.

(** Modelled from the spec: the source of [iterators/where.js] is missing.
    "Where(pred): pass-through filter." *)
Definition WhereIterator_machine {A : Type} (it : Iterator A) (predicate : A -> M bool)
  : Iterator A := {|
  state := state it;
  moveNext := fun s =>
    loop (fun s =>
            '(more, s') <- moveNext it s ;;
            if more then
              cur <- getCurrent it s' ;;
              keep <- predicate cur ;;
              if keep then ret (inr (true, s')) else ret (inl s')
            else ret (inr (false, s')))
         s;
  getCurrent := fun s => getCurrent it s
|}.

(** Modelled from the spec: [new WhereIterator(iterator, predicate)]. *)
Definition WhereIterator {A : Type} (iterator : Cursor A) (predicate : A -> M bool) : Cursor A :=
  {| machine := WhereIterator_machine (machine iterator) predicate;
     pos := pos iterator |}.

(** Modelled from the spec: the source of [iterators/take-while.js] is
    missing. "TakeWhile terminates at the first false without consuming
    beyond it (except the pair that failed, which is consumed to test)." *)
Definition TakeWhileIterator_machine {A : Type} (it : Iterator A) (predicate : A -> M bool)
  : Iterator A := {|
  state := state it * bool;
  moveNext := fun '(s, done) =>
    if done then ret (false, (s, done))
    else
      '(more, s') <- moveNext it s ;;
      if more then
        cur <- getCurrent it s' ;;
        p <- predicate cur ;;
        if p then ret (true, (s', false)) else ret (false, (s', true))
      else ret (false, (s', true));
  getCurrent := fun '(s, _) => getCurrent it s
|}.

(** Modelled from the spec: [new TakeWhileIterator(iterator, predicate)]. *)
Definition TakeWhileIterator {A : Type} (iterator : Cursor A) (predicate : A -> M bool)
  : Cursor A :=
  {| machine := TakeWhileIterator_machine (machine iterator) predicate;
     pos := (pos iterator, false) |}.

(* ================================================================== *)
(** ** [iterators/skip-while.js] *)

(** Iterator that skips elements while the predicate returns true. The state
    is the wrapped iterator's state and the [skipped] flag. *)
Definition SkipWhileIterator_machine {A : Type} (it : Iterator A) (predicate : A -> M bool)
  : Iterator A := {|
  state := state it * bool;
  moveNext := fun '(s, skipped) =>
    loop (fun s =>
            '(more, s') <- moveNext it s ;;
            if negb more then ret (inr (false, (s', skipped)))
            else if skipped then
              (* Already skipped. *)
              ret (inr (true, (s', skipped)))
            else
              (* Skipping until predict returns false. *)
              cur <- getCurrent it s' ;;
              p <- predicate cur ;;
              if negb p then ret (inr (true, (s', true)))
              else ret (inl s'))
         s;
  getCurrent := fun '(s, _) => getCurrent it s
|}.

(** [SkipWhileIterator(iterator, predicate)]: [skipped] starts false. *)
Definition SkipWhileIterator {A : Type} (iterator : Cursor A) (predicate : A -> M bool)
  : Cursor A :=
  {| machine := SkipWhileIterator_machine (machine iterator) predicate;
     pos := (pos iterator, false) |}.

(* ================================================================== *)
(** ** Iterables of the repository that [src/] does not contain *)

(** The sources under [iterables/] are missing. An iterable is a
    "re-startable producer: asking it for a cursor yields a fresh cursor
    positioned before the first pair"; each one below builds the iterator of
    the same name over fresh cursors of its inputs. *)

(** Modelled from the spec: the source of [iterables/empty.js] is missing;
    its cursor is the Empty one. *)
Definition EmptyIterable (A : Type) : Iterable A :=
  {| getIterator := ret (EmptyIterator A) |}.

(** Modelled from the spec: the source of [iterables/array.js] is missing;
    each cursor starts before the first element of the array. *)
Definition ArrayIterable {A : Type} (arr : list A) : Iterable A :=
  {| getIterator := ret (ArrayIterator arr) |}.

(** Modelled from the spec: the source of [iterables/count.js] is missing;
    each cursor counts from 0. *)
Definition CountIterable : Iterable value :=
  {| getIterator := ret CountIterator |}.

(** Modelled from the spec: the source of [iterables/pairs.js] is missing;
    the Pair cursor over a fresh cursor of each side. *)
Definition PairsIterable {A B : Type} (indexIterable : Iterable A) (valuesIterable : Iterable B)
  : Iterable (A * B) :=
  {| getIterator :=
       it1 <- getIterator indexIterable ;;
       it2 <- getIterator valuesIterable ;;
       ret (PairIterator it1 it2) |}.

(** Modelled from the spec: the source of [iterables/skip.js] is missing;
    the Skip cursor over a fresh cursor of the input. *)
Definition SkipIterable {A : Type} (iterable : Iterable A) (skipAmount : nat) : Iterable A :=
  {| getIterator :=
       iterator <- getIterator iterable ;;
       ret (SkipIterator iterator skipAmount) |}.

(** Modelled from the spec: the source of [iterables/take.js] is missing;
    the Take cursor over a fresh cursor of the input. *)
Definition TakeIterable {A : Type} (iterable : Iterable A) (takeAmount : nat) : Iterable A :=
  {| getIterator :=
       iterator <- getIterator iterable ;;
       ret (TakeIterator iterator takeAmount) |}.

(** Modelled from the spec: the source of [iterables/skip-while.js] is
    missing; the SkipWhile cursor over a fresh cursor of the input. *)
Definition SkipWhileIterable {A : Type} (iterable : Iterable A) (predicate : A -> M bool)
  : Iterable A :=
  {| getIterator :=
       iterator <- getIterator iterable ;;
       ret (SkipWhileIterator iterator predicate) |}.

(** Modelled from the spec: the source of [iterables/take-while.js] is
    missing; the TakeWhile cursor over a fresh cursor of the input. *)
Definition TakeWhileIterable {A : Type} (iterable : Iterable A) (predicate : A -> M bool)
  : Iterable A :=
  {| getIterator :=
       iterator <- getIterator iterable ;;
       ret (TakeWhileIterator iterator predicate) |}.

(** Modelled from the spec: the source of [iterables/where.js] is missing;
    the Where cursor over a fresh cursor of the input. *)
Definition WhereIterable {A : Type} (iterable : Iterable A) (predicate : A -> M bool)
  : Iterable A :=
  {| getIterator :=
       iterator <- getIterator iterable ;;
       ret (WhereIterator iterator predicate) |}.

(** Modelled from the spec: the source of [iterables/extract.js] is missing.
    "Extract(iter, slot): maps each input pair to pair[slot]"; slot 0 is the
    index and slot 1 the value. *)
Definition ExtractIterator_machine {A B : Type} (it : Iterator A) (slot : A -> B) : Iterator B := {|
  state := state it;
  moveNext := fun s => moveNext it s;
  getCurrent := fun s => cur <- getCurrent it s ;; ret (slot cur)
|}.

(** Modelled from the spec: the Extract cursor over a fresh cursor of the
    input. *)
Definition ExtractIterable {A B : Type} (iterable : Iterable A) (slot : A -> B) : Iterable B :=
  {| getIterator :=
       iterator <- getIterator iterable ;;
       ret {| machine := ExtractIterator_machine (machine iterator) slot;
              pos := pos iterator |} |}.

(** Modelled from the spec: the source of [iterables/select-values.js] is
    missing. "SelectValue(fn): replaces value with fn(value, index); index
    unchanged." The function runs when the current pair is read. *)
Definition SelectValuesIterator_machine {V W : Type} (it : Iterator (pair V))
    (selector : V -> value -> M W) : Iterator (pair W) := {|
  state := state it;
  moveNext := fun s => moveNext it s;
  getCurrent := fun s =>
    cur <- getCurrent it s ;;
    newValue <- selector (snd cur) (fst cur) ;;
    ret (fst cur, newValue)
|}.

(** Modelled from the spec: the SelectValue cursor over a fresh cursor of the
    input. *)
Definition SelectValuesIterable {V W : Type} (iterable : Iterable (pair V))
    (selector : V -> value -> M W) : Iterable (pair W) :=
  {| getIterator :=
       iterator <- getIterator iterable ;;
       ret {| machine := SelectValuesIterator_machine (machine iterator) selector;
              pos := pos iterator |} |}.

(* ================================================================== *)
(** ** [src/series.js]: Series *)

(** A Series holds one iterable of index/value pairs. *)
Record Series (V : Type) : Type := {
  __iterable : Iterable (pair V)
}.
Arguments __iterable {V} _.

(** Series and windows of Series are objects, never [undefined]. *)
#[global] Instance Series_Absentable (V : Type) : Absentable (Series V) :=
  fun _ => false.

(** The [values] field of the constructor's config: a function that returns
    an iterator, an array, or an iterable. *)
Inductive ValuesSource (A : Type) : Type :=
| ValuesFunction (values : M (Cursor A))
| ValuesArray (values : list A)
| ValuesIterable (values : Iterable A).

(** The [index] field: a function that returns an iterator, an array, or a
    Series (anything with a [getIterator] over pairs). *)
Inductive IndexSource : Type :=
| IndexFunction (index : M (Cursor value))
| IndexArray (index : list value)
| IndexPairs (index : Iterable (pair value)).

(** The fields of [config] that the Series constructor reads. *)
Record SeriesConfig (V : Type) : Type := {
  config___iterable : option (Iterable (pair V));
  config_iterable : option (Iterable (pair V));
  config_values : option (ValuesSource V);
  config_index : option IndexSource
}.

(** Create an iterable for use as an index. *)
Definition createIndexIterable (index : option IndexSource) : Iterable value :=
  match index with
  | None => CountIterable
  | Some (IndexFunction index) => {| getIterator := index |}
  | Some (IndexArray index) => ArrayIterable index
  | Some (IndexPairs index) => ExtractIterable index snd
  end.

(** Create an iterable from values. *)
Definition createValuesIterable {A : Type} (values : option (ValuesSource A)) : Iterable A :=
  match values with
  | None => EmptyIterable A
  | Some (ValuesFunction values) => {| getIterator := values |}
  | Some (ValuesArray values) => ArrayIterable values
  | Some (ValuesIterable values) => values
  end.

(** The constructor. The type assertions on [config] hold by typing; what is
    left is [assert(!config.iterable, "")], after which the block guarded by
    [if (config.iterable)] cannot run. *)
Definition Series_new {V : Type} (config : option (SeriesConfig V)) : M (Series V) :=
  match config with
  | None => ret {| __iterable := EmptyIterable (pair V) |}
  | Some config =>
      match config___iterable config with
      | Some iterable =>
          (* Setting the inner iterable directly. *)
          ret {| __iterable := iterable |}
      | None =>
          match config_iterable config with
          | Some _ => throw (AssertionError "")
          | None =>
              ret {| __iterable :=
                       PairsIterable (createIndexIterable (config_index config))
                                     (createValuesIterable (config_values config)) |}
          end
      end
  end.

(** [new self.Constructor({ __iterable: iterable })]. *)
Definition Series_of_iterable {V : Type} (iterable : Iterable (pair V)) : M (Series V) :=
  Series_new (Some {| config___iterable := Some iterable;
                      config_iterable := None;
                      config_values := None;
                      config_index := None |}).

(** [new Series({ values: values })] for an array. *)
Definition Series_of_values {V : Type} (values : list V) : M (Series V) :=
  Series_new (Some {| config___iterable := None;
                      config_iterable := None;
                      config_values := Some (ValuesArray values);
                      config_index := None |}).

(** [new Series({ values: values, index: index })] for arrays. *)
Definition Series_of_index_values {V : Type} (index : list value) (values : list V) : M (Series V) :=
  Series_new (Some {| config___iterable := None;
                      config_iterable := None;
                      config_values := Some (ValuesArray values);
                      config_index := Some (IndexArray index) |}).

(** Get an iterator for index & values of the series. *)
Definition Series_getIterator {V : Type} (self : Series V) : M (Cursor (pair V)) :=
  getIterator (__iterable self).

(** A Series passed where an iterable is expected ([new SkipIterable(self, n)]):
    the object answers [getIterator] itself. *)
Definition Series_iterable {V : Type} (self : Series V) : Iterable (pair V) :=
  {| getIterator := Series_getIterator self |}.

(** Skip a number of rows in the series. *)
Definition Series_skip {V : Type} (self : Series V) (numRows : nat) : M (Series V) :=
  Series_of_iterable (SkipIterable (Series_iterable self) numRows).

(** Skips values in the series while a condition is met. *)
Definition Series_skipWhile {V : Type} (self : Series V) (predicate : V -> M bool) : M (Series V) :=
  Series_of_iterable
    (SkipWhileIterable (Series_iterable self) (fun pair => predicate (snd pair))).

(** Skips values in the series until a condition is met. *)
Definition Series_skipUntil {V : Type} (self : Series V) (predicate : V -> M bool) : M (Series V) :=
  Series_skipWhile self (fun value => b <- predicate value ;; ret (negb b)).

(** Take a number of rows in the series. *)
Definition Series_take {V : Type} (self : Series V) (numRows : nat) : M (Series V) :=
  Series_of_iterable (TakeIterable (Series_iterable self) numRows).

(** Take values from the series while a condition is met. *)
Definition Series_takeWhile {V : Type} (self : Series V) (predicate : V -> M bool)
  : M (Series V) :=
  Series_of_iterable
    (TakeWhileIterable (Series_iterable self) (fun pair => predicate (snd pair))).

(** Take values from the series until a condition is met. *)
Definition Series_takeUntil {V : Type} (self : Series V) (predicate : V -> M bool)
  : M (Series V) :=
  Series_takeWhile self (fun value => b <- predicate value ;; ret (negb b)).

(** Filter a series by a predicate selector. *)
Definition Series_where {V : Type} (self : Series V) (predicate : V -> M bool) : M (Series V) :=
  Series_of_iterable
    (WhereIterable (Series_iterable self) (fun pair => predicate (snd pair))).

(** Generate a new series based on the results of the selector function. *)
Definition Series_select {V W : Type} (self : Series V) (selector : V -> value -> M W)
  : M (Series W) :=
  Series_of_iterable (SelectValuesIterable (Series_iterable self) selector).

(** Extract values from the series. This forces lazy evaluation to complete. *)
Definition Series_toValues {V : Type} `{Absentable V} (self : Series V) : M (list V) :=
  iterator <- Series_getIterator self ;;
  _ <- validateIterator iterator ;;
  loop (fun '(s, values) =>
          '(more, s') <- moveNext (machine iterator) s ;;
          if more then
            cur <- getCurrent (machine iterator) s' ;;
            let value := snd cur in (* Extract value. *)
            ret (inl (s', if is_absent value then values else values ++ [value]))
          else ret (inr values))
       (pos iterator, []).

(** Retreive the data as pairs of [index, value]. *)
Definition Series_toPairs {V : Type} `{Absentable V} (self : Series V) : M (list (pair V)) :=
  iterator <- Series_getIterator self ;;
  _ <- validateIterator iterator ;;
  loop (fun '(s, pairs) =>
          '(more, s') <- moveNext (machine iterator) s ;;
          if more then
            pair <- getCurrent (machine iterator) s' ;;
            ret (inl (s', if is_absent (snd pair) then pairs else pairs ++ [pair]))
          else ret (inr pairs))
       (pos iterator, []).

(** Count the number of rows in the series. *)
Definition Series_count {V : Type} (self : Series V) : M nat :=
  iterator <- Series_getIterator self ;;
  loop (fun '(s, total) =>
          '(more, s') <- moveNext (machine iterator) s ;;
          if more then ret (inl (s', Datatypes.S total))
          else ret (inr total))
       (pos iterator, O).

(** Get the first value of the Series. *)
Definition Series_first {V : Type} (self : Series V) : M V :=
  iterator <- Series_getIterator self ;;
  '(more, s) <- moveNext (machine iterator) (pos iterator) ;;
  if negb more then throw (Error "No values in Series.")
  else
    cur <- getCurrent (machine iterator) s ;;
    ret (snd cur). (* Extract value. *)

(** [while (iterator.moveNext()) { ; }]: the state once [moveNext] has
    answered false. *)
Definition drain {A : Type} (it : Iterator A) (s : state it) : M (state it) :=
  loop (fun s =>
          '(more, s') <- moveNext it s ;;
          if more then ret (inl s') else ret (inr s'))
       s.

(** Get the last value of the Series. *)
Definition Series_last {V : Type} (self : Series V) : M V :=
  iterator <- Series_getIterator self ;;
  '(more, s) <- moveNext (machine iterator) (pos iterator) ;;
  if negb more then throw (Error "No values in Series.")
  else
    s' <- drain (machine iterator) s ;; (* Don't evaluate each item. *)
    cur <- getCurrent (machine iterator) s' ;;
    ret (snd cur). (* Just evaluate the last item of the iterator. *)

(** Get the first index/value pair of the Series. *)
Definition Series_firstPair {V : Type} (self : Series V) : M (pair V) :=
  iterator <- Series_getIterator self ;;
  '(more, s) <- moveNext (machine iterator) (pos iterator) ;;
  if negb more then throw (Error "No values in Series.")
  else getCurrent (machine iterator) s.

(** Get the last index/value pair of the Series. *)
Definition Series_lastPair {V : Type} (self : Series V) : M (pair V) :=
  iterator <- Series_getIterator self ;;
  '(more, s) <- moveNext (machine iterator) (pos iterator) ;;
  if negb more then throw (Error "No values in Series.")
  else
    s' <- drain (machine iterator) s ;;
    getCurrent (machine iterator) s'.

(** [while (iterator.moveNext()) { pairs.push(iterator.getCurrent()); }] *)
Definition collect {A : Type} (it : Iterator A) (s : state it) : M (list A) :=
  loop (fun '(s, pairs) =>
          '(more, s') <- moveNext it s ;;
          if more then
            cur <- getCurrent it s' ;;
            ret (inl (s', pairs ++ [cur]))
          else ret (inr pairs))
       (s, []).

(** Reverse the series. Each request for an iterator reads the whole of
    [self] and hands out an array iterator over the reversed pairs. *)
Definition Series_reverse {V : Type} (self : Series V) : M (Series V) :=
  Series_of_iterable
    {| getIterator :=
         iterator <- Series_getIterator self ;;
         pairs <- collect (machine iterator) (pos iterator) ;;
         ret (ArrayIterator (rev pairs)) |}.

(** Determine if the predicate returns truthy for none of the values.
    Returns true for an empty Series. *)
Definition Series_none {V : Type} (self : Series V) (predicate : option (V -> M bool)) : M bool :=
  iterator <- Series_getIterator self ;;
  _ <- validateIterator iterator ;;
  match predicate with
  | None =>
      '(more, _) <- moveNext (machine iterator) (pos iterator) ;;
      ret (negb more)
  | Some predicate =>
      loop (fun s =>
              '(more, s') <- moveNext (machine iterator) s ;;
              if more then
                pair <- getCurrent (machine iterator) s' ;;
                p <- predicate (snd pair) ;;
                if p then ret (inr false) else ret (inl s')
              else ret (inr true))
           (pos iterator)
  end.

(** Aggregate the values in the series: the branch taken when a seed and a
    selector are given. *)
Definition Series_aggregate_seeded {V W : Type} (self : Series V) (seed : W)
    (selector : W -> V -> M W) : M W :=
  it <- Series_getIterator self ;;
  loop (fun '(s, working) =>
          '(more, s') <- moveNext (machine it) s ;;
          if more then
            cur <- getCurrent (machine it) s' ;;
            let curValue := snd cur in
            working' <- selector working curValue ;;
            ret (inl (s', working'))
          else ret (inr working))
       (pos it, seed).

(** Aggregate the values in the series: the branch taken when only a function
    is given, [self.skip(1).aggregate(self.first(), seedOrSelector)]. *)
Definition Series_aggregate {V : Type} (self : Series V) (selector : V -> V -> M V) : M V :=
  rest <- Series_skip self 1 ;;
  seed <- Series_first self ;;
  Series_aggregate_seeded rest seed selector.

Section HostArithmetic.

(** The host's [+], [/], [Math.min], [Math.max], [parseInt], [parseFloat]. *)
Variables js_add js_div Math_min Math_max : value -> value -> value.
Variables parseInt parseFloat : string -> value.

(** Sum the values in a series. *)
Definition Series_sum (self : Series value) : M value :=
  empty <- Series_none self None ;;
  if empty then ret (VNum 0)
  else Series_aggregate self (fun prev value => ret (js_add prev value)).

(** Average the values in a series. *)
Definition Series_average (self : Series value) : M value :=
  count <- Series_count self ;;
  if (0 <? count)%nat then
    sum <- Series_sum self ;;
    ret (js_div sum (VNum (Z.of_nat count)))
  else ret (VNum 0).

(** Get the min value in the series. *)
Definition Series_min (self : Series value) : M value :=
  Series_aggregate self (fun prev value => ret (Math_min prev value)).

(** Get the max value in the series. *)
Definition Series_max (self : Series value) : M value :=
  Series_aggregate self (fun prev value => ret (Math_max prev value)).

(** Parse a series with string values to a series with int values. *)
Definition Series_parseInts (self : Series value) : M (Series value) :=
  Series_select self (fun value valueIndex =>
    if is_undefined value then ret VUndefined
    else
      match value with
      | VStr s =>
          if (String.length s =? 0)%nat then ret VUndefined
          else ret (parseInt s)
      | _ =>
          throw (AssertionError
            ("Called parseInts on series, expected all values in the series to be strings, instead found a '"
               ++ js_typeof value ++ "' at index " ++ js_toString valueIndex))
      end).

(** Parse a series with string values to a series with float values. *)
Definition Series_parseFloats (self : Series value) : M (Series value) :=
  Series_select self (fun value valueIndex =>
    if is_undefined value then ret VUndefined
    else
      match value with
      | VStr s =>
          if (String.length s =? 0)%nat then ret VUndefined
          else ret (parseFloat s)
      | _ =>
          throw (AssertionError
            ("Called parseFloats on series, expected all values in the series to be strings, instead found a '"
               ++ js_typeof value ++ "' at index " ++ js_toString valueIndex))
      end).

End HostArithmetic.

(** Segment a Series into 'windows'. The iterator keeps [windowIndex] and the
    last output; each [moveNext] builds [self.skip(windowIndex*period).take(period)]
    and stops when that window has no value. *)
Definition Series_window_machine {V : Type} (self : Series V) (period : nat)
  : Iterator (pair (Series V)) := {|
  state := option (pair (Series V)) * nat;
  moveNext := fun '(curOutput, windowIndex) =>
    skipped <- Series_skip self (windowIndex * period) ;;
    window <- Series_take skipped period ;;
    nothing <- Series_none window (Some (fun _ => ret true)) ;;
    if nothing then ret (false, (curOutput, windowIndex)) (* Nothing left. *)
    else ret (true, (Some (VNum (Z.of_nat windowIndex), window), Datatypes.S windowIndex));
  getCurrent := fun '(curOutput, _) =>
    match curOutput with
    | Some output => ret output
    | None => no_current
    end
|}.

(** [Series.prototype.window]: a new Series over the window iterator; every
    request for an iterator starts at window 0 with no output. *)
Definition Series_window {V : Type} (self : Series V) (period : nat)
    (obsoleteSelector : option (V -> M V)) : M (Series (Series V)) :=
  match obsoleteSelector with
  | Some _ => throw (AssertionError "Selector parameter is obsolete and no longer required.")
  | None =>
      Series_new (Some {|
        config___iterable := Some {|
          getIterator :=
            ret {| machine := Series_window_machine self period; pos := (None, O) |} |};
        config_iterable := None;
        config_values := None;
        config_index := None |})
  end.

(* ================================================================== *)
(** ** [src/series.js], second part: DataFrame *)

(** A DataFrame holds its column names and the [getIterator] function that
    the constructor installs. *)
Record DataFrame : Type := {
  _columnNames : list string;
  DataFrame_getIterator : M (Cursor (pair value))
}.

(** The keys of an array or a string: its positions. *)
Definition index_keys (n : nat) : list string :=
  map (fun i => NilZero.string_of_uint (Nat.to_uint i)) (seq 0 n).

(** The host's [Object.keys]: the field names of a record, the positions of
    an array or a string, nothing for the other primitives, and a TypeError
    on [undefined] and [null]. *)
Definition Object_keys (v : value) : M (list string) :=
  match v with
  | VObj fields => ret (map fst fields)
  | VArr items => ret (index_keys (List.length items))
  | VStr s => ret (index_keys (String.length s))
  | VUndefined | VNull => throw (TypeError "Cannot convert undefined or null to object")
  | _ => ret []
  end.

(** Reading the field [key] of a record: [undefined] when the record has no
    such field. *)
Definition obj_get (fields : list (string * value)) (key : string) : value :=
  match find (fun field => String.eqb (fst field) key) fields with
  | Some field => snd field
  | None => VUndefined
  end.

(** The host's [row[i]] for a position [i]: the element of an array, the
    character of a string, the field of a record that is named by the
    numeral of [i]; [undefined] where there is none and on the other
    primitives, and a TypeError on [undefined] and [null]. *)
Definition js_index (row : value) (i : nat) : M value :=
  match row with
  | VArr items => ret (nth i items VUndefined)
  | VStr s =>
      match String.get i s with
      | Some c => ret (VStr (String c EmptyString))
      | None => ret VUndefined
      end
  | VObj fields => ret (obj_get fields (NilZero.string_of_uint (Nat.to_uint i)))
  | VUndefined | VNull => throw (TypeError "Cannot read property of undefined")
  | _ => ret VUndefined
  end.

(** Whether a field name is an array index, and which: the decimal numeral,
    without sign or leading zero, of an integer from 0 to 2^32 - 2. *)
Definition array_index (key : string) : option N :=
  match NilZero.uint_of_string key with
  | Some digits =>
      let n := N.of_uint digits in
      if String.eqb (NilZero.string_of_uint (N.to_uint n)) key && (n <=? 4294967294)%N
      then Some n
      else None
  | None => None
  end.

(** Where a new field goes in a record. The host enumerates the own fields
    of an object with the array indexes first, in ascending order, and then
    the other names in the order in which they were created: a new field
    named by an array index goes before the first field that is named by a
    greater index or by no index, and any other new field goes last. *)
Fixpoint obj_insert (fields : list (string * value)) (key : string) (index : option N)
    (v : value) : list (string * value) :=
  match fields with
  | [] => [(key, v)]
  | (k, old) :: rest =>
      match index with
      | Some n =>
          match array_index k with
          | Some m =>
              if (n <? m)%N then (key, v) :: fields
              else (k, old) :: obj_insert rest key index v
          | None => (key, v) :: fields
          end
      | None => (k, old) :: obj_insert rest key index v
      end
  end.

(** Assignment [obj[key] = v] on a record that was created as [{}]. A field
    that exists keeps its place and takes the value. Otherwise the name
    [__proto__] reaches the setter of [Object.prototype], which creates no
    field (it replaces the prototype, which the records of this model do
    not have), and any other name becomes a new field. *)
Definition obj_set (fields : list (string * value)) (key : string) (v : value)
  : list (string * value) :=
  if existsb (fun field => String.eqb (fst field) key) fields then
    map (fun field => if String.eqb (fst field) key then (key, v) else field) fields
  else if String.eqb key "__proto__" then fields
  else obj_insert fields key (array_index key) v.

(** linq's [distinct]: first occurrences, in order. *)
Fixpoint distinct (seen l : list string) : list string :=
  match l with
  | [] => []
  | x :: rest =>
      if existsb (String.eqb x) seen then distinct seen rest
      else x :: distinct (x :: seen) rest
  end.

(** Run a function over a list, left to right. *)
Fixpoint mapM {A B : Type} (f : A -> M B) (l : list A) : M (list B) :=
  match l with
  | [] => ret []
  | a :: rest =>
      b <- f a ;;
      bs <- mapM f rest ;;
      ret (b :: bs)
  end.

(** Modelled from the spec: the source of [iterators/multi.js] is missing.
    "Multi(iters[]): zips an arbitrary number of cursors into a tuple; used
    to build row-records from column arrays." All cursors advance in
    lockstep; the zip has a row while there is a cursor and every cursor
    advanced. *)
Fixpoint MultiIterator_advance (iterators : list (Cursor value))
  : M (bool * list (Cursor value)) :=
  match iterators with
  | [] => ret (true, [])
  | iterator :: rest =>
      '(more, s') <- moveNext (machine iterator) (pos iterator) ;;
      '(ok, rest') <- MultiIterator_advance rest ;;
      ret (more && ok, {| machine := machine iterator; pos := s' |} :: rest')
  end.

(** Modelled from the spec: the Multi iterator; its current element is the
    tuple of the current elements. *)
Definition MultiIterator_machine : Iterator value := {|
  state := list (Cursor value);
  moveNext := fun iterators =>
    match iterators with
    | [] => ret (false, [])
    | _ => MultiIterator_advance iterators
    end;
  getCurrent := fun iterators =>
    items <- mapM (fun iterator => getCurrent (machine iterator) (pos iterator)) iterators ;;
    ret (VArr items)
|}.

(** Modelled from the spec: [new MultiIterator(iterators)]. *)
Definition MultiIterator (iterators : list (Cursor value)) : Cursor value :=
  {| machine := MultiIterator_machine; pos := iterators |}.

(** Creates an iterator that converts rows to JavaScript objects based on
    passed in column names. *)
Definition convertRowsToObjects (columnNames : list string) (rowsIterator : Cursor value)
  : Cursor value :=
  SelectIterator rowsIterator
    (fun row _ =>
       fields <- mapM (fun column => cell <- js_index row (snd column) ;; ret (fst column, cell))
                      (combine columnNames (seq 0 (List.length columnNames))) ;;
       ret (VObj (fold_left (fun obj column => obj_set obj (fst column) (snd column)) fields []))).

(** Determine column names from an array of rows. Column names are take from
    the fields in each JavaScript object. *)
Definition determineColumnNamesFromObjectRows (rows : list value) (considerAllRows : bool)
  : M (list string) :=
  if considerAllRows then
    keys <- mapM Object_keys rows ;;
    ret (distinct [] (List.concat keys))
  else
    match rows with
    | row :: _ => Object_keys row (* Just consider the first row. *)
    | [] => ret [] (* Can't do this, there are no rows. *)
    end.

(** Evaluate an iterable of JavaScript objects, look at the fields and figure
    out column names from that. *)
Definition determineColumnNamesFromObjectsIterable (iterable : M (Cursor value))
    (considerAllRows : bool) : M (list string) :=
  iterator <- iterable ;;
  if considerAllRows then
    rows <- collect (machine iterator) (pos iterator) ;;
    keys <- mapM Object_keys rows ;;
    ret (distinct [] (List.concat keys))
  else
    '(more, s) <- moveNext (machine iterator) (pos iterator) ;;
    if negb more then ret [] (* Nothing in the iterable. *)
    else
      row <- getCurrent (machine iterator) s ;;
      Object_keys row.

(** Evaluate an iterable of index/value pairs, look at the fields in the
    vlaues and figure out column names from that. *)
Definition determineColumnNamesFromPairsIterable (iterable : M (Cursor (pair value)))
    (considerAllRows : bool) : M (list string) :=
  iterator <- iterable ;;
  if considerAllRows then
    pairs <- collect (machine iterator) (pos iterator) ;;
    keys <- mapM (fun pair => Object_keys (snd pair)) pairs ;;
    ret (distinct [] (List.concat keys))
  else
    (* Just consider the first row. *)
    '(more, s) <- moveNext (machine iterator) (pos iterator) ;;
    if negb more then ret [] (* Nothing in the iterable. *)
    else
      cur <- getCurrent (machine iterator) s ;;
      Object_keys (snd cur).

(** The [rows] field of the constructor's config: a function that returns an
    iterator, or an array. *)
Inductive RowsSource : Type :=
| RowsFunction (rows : M (Cursor value))
| RowsArray (rows : list value).

(** The [index] field: an array, or an object with [getIterator] (a Series). *)
Inductive FrameIndex : Type :=
| FrameIndexArray (index : list value)
| FrameIndexPairs (index : Iterable (pair value)).

(** The fields of [config] that the constructor reads, and [values], which
    [Series.join] passes. *)
Record DataFrameConfig : Type := {
  config_df_iterable : option (M (Cursor (pair value)));
  config_columnNames : option (list string);
  config_considerAllRows : bool;
  config_rows : option RowsSource;
  config_columns : option (list (string * list value));
  config_df_index : option FrameIndex;
  config_debug : bool;
  config_df_values : option (list value)
}.

(** The index iterator of the constructor: over the [index] array, over the
    values of the [index] Series, or counting. *)
Definition DataFrame_indexIterator (index : option FrameIndex) : M (Cursor value) :=
  match index with
  | Some (FrameIndexArray index) => ret (ArrayIterator index)
  | Some (FrameIndexPairs index) =>
      iterator <- getIterator index ;;
      ret (SelectIterator iterator (fun pair _ => ret (snd pair)))
  | None => ret CountIterator
  end.

(** The rows iterator of the constructor: [rows()] or
    [new ArrayIterator(rows)]. *)
Definition DataFrame_rowsIterator (rows : RowsSource) : M (Cursor value) :=
  match rows with
  | RowsFunction rows => rows
  | RowsArray rows => ret (ArrayIterator rows)
  end.

(** chai's [assert.isArray]. *)
Definition is_array (v : value) : bool :=
  match v with VArr _ => true | _ => false end.

(** Constuctor. The twelve closures of the source differ only in where the
    index comes from ([DataFrame_indexIterator]) and where the rows come from. *)
Definition DataFrame_new (config : option DataFrameConfig) : M DataFrame :=
  match config with
  | None =>
      ret {| _columnNames := []; DataFrame_getIterator := ret (EmptyIterator _) |}
  | Some config =>
      match config_df_iterable config with
      | Some iterable =>
          columnNames <-
            match config_columnNames config with
            | Some columnNames => ret columnNames
            | None =>
                determineColumnNamesFromPairsIterable iterable (config_considerAllRows config)
            end ;;
          ret {| _columnNames := columnNames; DataFrame_getIterator := iterable |}
      | None =>
          match config_rows config, config_columns config with
          | None, None =>
              ret {| _columnNames :=
                       match config_columnNames config with
                       | Some columnNames => columnNames
                       | None => []
                       end;
                     DataFrame_getIterator := ret (EmptyIterator _) |}
          | rows, columns =>
              let index := config_df_index config in
              match config_columnNames config with
              | Some columnNames =>
                  match rows with
                  | None =>
                      throw (Error "Expected to find a 'rows' member of 'config' parameter to DataFrame constructor.")
                  | Some rows =>
                      _ <- match rows with
                           | RowsArray array =>
                               if config_debug config && negb (forallb is_array array)
                               then throw (AssertionError "Expected 'rows' member of 'config' parameter to DataFrame constructor to be an array of arrays, an array of objects or an iterator.")
                               else ret tt
                           | RowsFunction _ => ret tt
                           end ;;
                      ret {| _columnNames := columnNames;
                             DataFrame_getIterator :=
                               indexIterator <- DataFrame_indexIterator index ;;
                               rowsIterator <- DataFrame_rowsIterator rows ;;
                               ret (PairIterator indexIterator
                                      (convertRowsToObjects columnNames rowsIterator)) |}
                  end
              | None =>
                  match rows with
                  | Some rows =>
                      _ <- match columns with
                           | Some _ => throw (AssertionError "Can't use both 'rows' and 'columns' fields of 'config' parameter to DataFrame constructor.")
                           | None => ret tt
                           end ;;
                      _ <- match rows with
                           | RowsArray (first :: _) =>
                               if is_object first then ret tt
                               else throw (AssertionError "Expected 'rows' member of 'config' parameter to DataFrame constructor to be an array of JavaScript objects.")
                           | _ => ret tt
                           end ;;
                      columnNames <-
                        match rows with
                        | RowsFunction rows =>
                            determineColumnNamesFromObjectsIterable rows (config_considerAllRows config)
                        | RowsArray rows =>
                            (* Derive column names from object fields. *)
                            determineColumnNamesFromObjectRows rows (config_considerAllRows config)
                        end ;;
                      ret {| _columnNames := columnNames;
                             DataFrame_getIterator :=
                               indexIterator <- DataFrame_indexIterator index ;;
                               rowsIterator <- DataFrame_rowsIterator rows ;;
                               ret (PairIterator indexIterator rowsIterator) |}
                  | None =>
                      let columns := match columns with Some c => c | None => [] end in
                      let columnNames := map fst columns in
                      ret {| _columnNames := columnNames;
                             DataFrame_getIterator :=
                               let columnIterators :=
                                 map (fun column => ArrayIterator (snd column)) columns in
                               indexIterator <- DataFrame_indexIterator index ;;
                               ret (PairIterator indexIterator
                                      (convertRowsToObjects columnNames
                                         (MultiIterator columnIterators))) |}
                  end
              end
          end
      end
  end.

(** [new DataFrame({ columnNames: columnNames, iterable: iterable })] and
    [new DataFrame({ iterable: iterable })]. *)
Definition DataFrame_of_iterable (columnNames : option (list string))
    (iterable : M (Cursor (pair value))) : M DataFrame :=
  DataFrame_new (Some {| config_df_iterable := Some iterable;
                         config_columnNames := columnNames;
                         config_considerAllRows := false;
                         config_rows := None;
                         config_columns := None;
                         config_df_index := None;
                         config_debug := false;
                         config_df_values := None |}).

(** [new DataFrame({ values: values })]. *)
Definition DataFrame_of_values (values : list value) : M DataFrame :=
  DataFrame_new (Some {| config_df_iterable := None;
                         config_columnNames := None;
                         config_considerAllRows := false;
                         config_rows := None;
                         config_columns := None;
                         config_df_index := None;
                         config_debug := false;
                         config_df_values := Some values |}).

(** Get the names of the columns in the data frame. *)
Definition DataFrame_getColumnNames (self : DataFrame) : list string :=
  _columnNames self.

(** The [for] loop of [getColumnIndex], from position [i]. *)
Fixpoint DataFrame_getColumnIndex_from (columnNames : list string) (columnName : string)
    (i : Z) : Z :=
  match columnNames with
  | [] => (-1)%Z
  | name :: rest =>
      if String.eqb columnName name then i
      else DataFrame_getColumnIndex_from rest columnName (i + 1)%Z
  end.

(** Gets a column index from a column name. Returns the index of the named
    column or -1 if the requested column was not found. *)
Definition DataFrame_getColumnIndex (self : DataFrame) (columnName : value) : M value :=
  match columnName with
  | VStr columnName =>
      let columnNames := DataFrame_getColumnNames self in
      ret (VNum (DataFrame_getColumnIndex_from columnNames columnName 0%Z))
  | _ =>
      throw (AssertionError "Expected 'columnName' parameter to getColumnIndex to be a non-empty string.")
  end.

(** Whether [typeof v] is ["number"]. *)
Definition is_number (v : value) : bool :=
  String.eqb (js_typeof v) "number".

(** Gets a column name from a column index. Returns the name of the column or
    undefined if the requested column was not found. A number that is not an
    integer is either out of range or names no element of the array. *)
Definition DataFrame_getColumnName (self : DataFrame) (columnIndex : value) : M value :=
  if is_number columnIndex then
    let columnNames := DataFrame_getColumnNames self in
    match columnIndex with
    | VNum columnIndex =>
        if ((columnIndex <? 0) || (columnIndex >=? Z.of_nat (List.length columnNames)))%Z
        then ret VUndefined
        else
          match nth_error columnNames (Z.to_nat columnIndex) with
          | Some name => ret (VStr name)
          | None => ret VUndefined
          end
    | _ => ret VUndefined
    end
  else
    throw (AssertionError "Expected 'columnIndex' parameter to getColumnIndex to be a non-empty string.").

(** The error of [DataFrame.select] on a selector result that is not an
    object. *)
Definition select_error : exn :=
  Error "Expected return value from 'select' selector to be an object that represents a new row in the resulting data-frame.".

(** The function that [DataFrame.select] hands to [SelectIterator]. *)
Definition DataFrame_select_row (selector : value -> value -> M value)
  : pair value -> value -> M (pair value) :=
  fun pair _ =>
    newValue <- selector (snd pair) (fst pair) ;;
    if negb (is_object newValue) then throw select_error
    else ret (fst pair, newValue).

(** Generate a new data frame based on the results of the selector function. *)
Definition DataFrame_select (self : DataFrame) (selector : value -> value -> M value)
  : M DataFrame :=
  DataFrame_of_iterable None
    (iterator <- DataFrame_getIterator self ;;
     ret (SelectIterator iterator (DataFrame_select_row selector))).

(** Retreive the data as pairs of [index, objects]. *)
Definition DataFrame_toPairs (self : DataFrame) : M (list (pair value)) :=
  iterator <- DataFrame_getIterator self ;;
  _ <- validateIterator iterator ;;
  loop (fun '(s, pairs) =>
          '(more, s') <- moveNext (machine iterator) s ;;
          if more then
            cur <- getCurrent (machine iterator) s' ;;
            ret (inl (s', pairs ++ [cur]))
          else ret (inr pairs))
       (pos iterator, []).

(** Reverse the DataFrame. *)
Definition DataFrame_reverse (self : DataFrame) : M DataFrame :=
  DataFrame_of_iterable (Some (DataFrame_getColumnNames self))
    (iterator <- DataFrame_getIterator self ;;
     pairs <- collect (machine iterator) (pos iterator) ;;
     ret (ArrayIterator (rev pairs))).

(* ================================================================== *)
(** ** [Series.prototype.join] *)

(** The [join] of the linq library: for each outer element in order, the
    inner elements whose key equals its key, in order. *)
Definition linq_join {A B K R : Type} (key_equal : K -> K -> bool)
    (outer : list A) (inner : list B)
    (outerKeySelector : A -> K) (innerKeySelector : B -> K)
    (resultSelector : A -> B -> R) : list R :=
  flat_map (fun a =>
              map (resultSelector a)
                  (filter (fun b => key_equal (outerKeySelector a) (innerKeySelector b)) inner))
           outer.

(** Correlates the elements of two Series based on matching keys.
    [key_equal] is the key comparison of linq's lookup. *)
Definition Series_join {V W : Type} `{Absentable V} `{Absentable W}
    (key_equal : value -> value -> bool)
    (outer : Series V) (inner : Series W)
    (outerKeySelector : V -> value -> value)
    (innerKeySelector : W -> value -> value)
    (resultSelector : V -> W -> value) : M DataFrame :=
  outerPairs <- Series_toPairs outer ;;
  innerPairs <- Series_toPairs inner ;;
  let joined :=
    linq_join key_equal outerPairs innerPairs
      (fun outerPair => outerKeySelector (snd outerPair) (fst outerPair))
      (fun innerPair => innerKeySelector (snd innerPair) (fst innerPair))
      (fun outerPair innerPair => resultSelector (snd outerPair) (snd innerPair)) in
  DataFrame_of_values joined.

(* ================================================================== *)
(** ** Vocabulary of the statements *)

(** The pairs of values numbered from [k]: what the default index attaches. *)
Fixpoint indexed_from {V : Type} (k : Z) (values : list V) : list (pair V) :=
  match values with
  | [] => []
  | v :: rest => (VNum k, v) :: indexed_from (k + 1) rest
  end.

(** [Series_yields self l]: a fresh iterator of [self] gives exactly the
    pairs [l] and finishes. *)
Definition Series_yields {V : Type} (self : Series V) (l : list (pair V)) : Prop :=
  yields (Series_iterable self) l.

(** The same for a DataFrame. *)
Definition DataFrame_yields (self : DataFrame) (l : list (pair value)) : Prop :=
  exists iterator, DataFrame_getIterator self ~~> Val iterator /\ traces iterator l Finished.

(** [DataFrame_raises self l e]: a fresh iterator of [self] gives the pairs
    [l] and then raises [e]. *)
Definition DataFrame_raises (self : DataFrame) (l : list (pair value)) (e : exn) : Prop :=
  exists iterator, DataFrame_getIterator self ~~> Val iterator /\ traces iterator l (Raised e).

(** The pairs whose value is not absent. *)
Definition present {V : Type} `{Absentable V} (l : list (pair V)) : list (pair V) :=
  filter (fun pair => negb (is_absent (snd pair))) l.

(** [Series_raises self l e]: a fresh iterator of [self] gives the pairs [l]
    and then raises [e]. *)
Definition Series_raises {V : Type} (self : Series V) (l : list (pair V)) (e : exn) : Prop :=
  exists iterator, Series_getIterator self ~~> Val iterator /\ traces iterator l (Raised e).

(** A value that the parse functions accept: absent, or a string. *)
Definition absent_or_string (v : value) : bool :=
  is_undefined v || is_string v.

(** What a parse function makes of an accepted value: absent stays absent,
    the empty string becomes absent, any other string is parsed. *)
Definition parsed_value (parse : string -> value) (v : value) : value :=
  match v with
  | VStr s => if (String.length s =? 0)%nat then VUndefined else parse s
  | _ => VUndefined
  end.

(** The assertion failure of [fn] on the value [v] found at [index]. *)
Definition parse_error (fn : string) (v index : value) : exn :=
  AssertionError
    ("Called " ++ fn ++ " on series, expected all values in the series to be strings, instead found a '"
       ++ js_typeof v ++ "' at index " ++ js_toString index).

(** The selector that [parseInts] ([fn] = "parseInts", [parse] = [parseInt])
    and [parseFloats] pass to [select]. *)
Definition parse_selector (parse : string -> value) (fn : string) (v valueIndex : value)
  : M value :=
  if is_undefined v then ret VUndefined
  else
    match v with
    | VStr s => if (String.length s =? 0)%nat then ret VUndefined else ret (parse s)
    | _ => throw (parse_error fn v valueIndex)
    end.

(** [selects selector p q]: on the input pair [p] the selector returns an
    object, and [q] is that object under the index of [p]. *)
Definition selects (selector : value -> value -> M value) (p q : pair value) : Prop :=
  fst q = fst p /\ selector (snd p) (fst p) ~~> Val (snd q) /\ is_object (snd q) = true.

(** [===] on numbers; the key comparison used in the examples. *)
Definition number_equal (a b : value) : bool :=
  match a, b with
  | VNum x, VNum y => Z.eqb x y
  | _, _ => false
  end.

(** The [k]-th segment of [period] elements of a sequence. *)
Definition segment {A : Type} (period k : nat) (l : list A) : list A :=
  firstn period (skipn (k * period) l).

(** ceil(n / period), for a positive period. *)
Definition window_count (n period : nat) : nat :=
  (n + period - 1) / period.

(** The window that [window]'s iterator builds at [windowIndex]:
    [self.skip(windowIndex*period).take(period)]. *)
Definition window_at {V : Type} (self : Series V) (period windowIndex : nat) : Series V :=
  {| __iterable :=
       TakeIterable
         (Series_iterable
            {| __iterable := SkipIterable (Series_iterable self) (windowIndex * period) |})
         period |}.

(** A host [parseInt] for the examples: decimal numerals, NaN otherwise. *)
Definition parseInt_decimal (s : string) : value :=
  match NilZero.int_of_string s with
  | Some i => VNum (Z.of_int i)
  | None => VOther "number" "NaN"
  end.

(* ================================================================== *)
(** ** [src/series.js]: the index of a Series *)

(** Retreive the index of the series: a Series whose values are the indexes
    of [self], under the default index. *)
Definition Series_getIndex {V : Type} (self : Series V) : M (Series value) :=
  Series_new (Some {| config___iterable := None;
                      config_iterable := None;
                      config_values :=
                        (* Extract the index. *)
                        Some (ValuesIterable (ExtractIterable (Series_iterable self) fst));
                      config_index := None |}).

(** The [newIndex] parameter of [withIndex]: an array, or an object with a
    [getIterator] function (a Series or a DataFrame). *)
Inductive NewIndex : Type :=
| NewIndexArray (newIndex : list value)
| NewIndexPairs (newIndex : Iterable (pair value)).

(** Apply a new index to the Series. *)
Definition Series_withIndex {V : Type} (self : Series V) (newIndex : NewIndex) : M (Series V) :=
  let indexIterable :=
    match newIndex with
    | NewIndexArray newIndex => ArrayIterable newIndex
    | NewIndexPairs newIndex => ExtractIterable newIndex snd (* Extract index value. *)
    end in
  let pairsIterable :=
    PairsIterable indexIterable
                  (ExtractIterable (Series_iterable self) snd) (* Extract value. *) in
  Series_of_iterable pairsIterable.

(** Reset the index of the series back to the default sequential integer
    index. *)
Definition Series_resetIndex {V : Type} (self : Series V) : M (Series V) :=
  Series_of_iterable
    (PairsIterable CountIterable (* Reset index. *)
                   (ExtractIterable (Series_iterable self) snd) (* Extract value. *)).

(** Get the first index of the Series. *)
Definition Series_firstIndex {V : Type} (self : Series V) : M value :=
  iterator <- Series_getIterator self ;;
  '(more, s) <- moveNext (machine iterator) (pos iterator) ;;
  if negb more then throw (Error "No values in Series.")
  else
    cur <- getCurrent (machine iterator) s ;;
    ret (fst cur). (* Extract index. *)

(** Get the last index of the Series. *)
Definition Series_lastIndex {V : Type} (self : Series V) : M value :=
  iterator <- Series_getIterator self ;;
  '(more, s) <- moveNext (machine iterator) (pos iterator) ;;
  if negb more then throw (Error "No values in Series.")
  else
    s' <- drain (machine iterator) s ;; (* Don't evaluate each item. *)
    cur <- getCurrent (machine iterator) s' ;;
    ret (fst cur). (* Extract index. *)

(* ================================================================== *)
(** ** [src/series.js]: head, tail, slice *)

(** Get X values from the head of the series. *)
Definition Series_head {V : Type} (self : Series V) (values : nat) : M (Series V) :=
  Series_take self values.

(** Get X values from the tail of the series: [self.skip(self.count() - values)].
    The count is taken when [tail] is called. The difference is computed on
    the integers; a negative number of rows discards nothing. *)
Definition Series_tail {V : Type} (self : Series V) (values : nat) : M (Series V) :=
  count <- Series_count self ;;
  Series_skip self (Z.to_nat (Z.of_nat count - Z.of_nat values)).

(** A bound of [slice]: a predicate on the index, or an index. *)
Inductive SliceBound : Type :=
| BoundPredicate (boundPredicate : value -> M bool)
| BoundIndex (boundIndex : value).

Section HostOrder.

(** The host's [<] on index values. *)
Variable js_less : value -> value -> bool.

(** The predicate that [slice] makes of a bound:
    [predicate && predicate(value, index) || value < index] for an index. *)
Definition slice_predicate (bound : SliceBound) (predicate : option (value -> value -> M bool))
  : value -> M bool :=
  match bound with
  | BoundPredicate boundPredicate => boundPredicate
  | BoundIndex boundIndex =>
      fun v =>
        match predicate with
        | Some predicate =>
            p <- predicate v boundIndex ;;
            if p then ret true else ret (js_less v boundIndex)
        | None => ret (js_less v boundIndex)
        end
  end.

(** Create a new series from a slice of rows. *)
Definition Series_slice {V : Type} (self : Series V)
    (startIndexOrStartPredicate endIndexOrEndPredicate : SliceBound)
    (predicate : option (value -> value -> M bool)) : M (Series V) :=
  let startPredicate := slice_predicate startIndexOrStartPredicate predicate in
  let endPredicate := slice_predicate endIndexOrEndPredicate predicate in
  Series_of_iterable
    {| getIterator :=
         iterator <- Series_getIterator self ;;
         ret (TakeWhileIterator
                (SkipWhileIterator iterator
                   (fun pair => startPredicate (fst pair))) (* Check index for start condition. *)
                (fun pair => endPredicate (fst pair))) (* Check index for end condition. *) |}.

End HostOrder.

(* ================================================================== *)
(** ** [src/series.js]: rolling windows *)

(** Segment a Series into 'rolling windows'. The iterator keeps [windowIndex]
    and the last output; each [moveNext] builds
    [self.skip(windowIndex).take(period)] and stops when that window has
    fewer than [period] pairs. *)
Definition Series_rollingWindow_machine {V : Type} (self : Series V) (period : nat)
  : Iterator (pair (Series V)) := {|
  state := option (pair (Series V)) * nat;
  moveNext := fun '(curOutput, windowIndex) =>
    skipped <- Series_skip self windowIndex ;;
    window <- Series_take skipped period ;;
    count <- Series_count window ;;
    if (count <? period)%nat then ret (false, (curOutput, windowIndex))
    else ret (true, (Some (VNum (Z.of_nat windowIndex), window), Datatypes.S windowIndex));
  getCurrent := fun '(curOutput, _) =>
    match curOutput with
    | Some output => ret output
    | None => no_current
    end
|}.

(** [Series.prototype.rollingWindow]. *)
Definition Series_rollingWindow {V : Type} (self : Series V) (period : nat)
    (obsoleteSelector : option (V -> M V)) : M (Series (Series V)) :=
  match obsoleteSelector with
  | Some _ => throw (AssertionError "Selector parameter is obsolete and no longer required.")
  | None =>
      Series_new (Some {|
        config___iterable := Some {|
          getIterator :=
            ret {| machine := Series_rollingWindow_machine self period; pos := (None, O) |} |};
        config_iterable := None;
        config_values := None;
        config_index := None |})
  end.

(* ================================================================== *)
(** ** [src/series.js]: truncateStrings *)

(** Produces a new series with all string values truncated to the requested
    maximum length. Strings are sequences of code units; [substring(0, n)]
    with a negative [n] is the empty string. *)
Definition Series_truncateStrings (self : Series value) (maxLength : Z) : M (Series value) :=
  Series_select self (fun v _ =>
    match v with
    | VStr s =>
        if (Z.of_nat (String.length s) >? maxLength)%Z
        then ret (VStr (substring 0 (Z.to_nat maxLength) s))
        else ret v
    | _ => ret v
    end).

(* ================================================================== *)
(** ** [src/series.js]: bake, insertPair, appendPair, defaultIfEmpty *)

(** Forces lazy evaluation to complete and 'bakes' the series into memory.
    The [_baked] flag of the object is carried beside the record: the
    function takes the flag of [self] and returns the result with its flag. *)
Definition Series_bake {V : Type} `{Absentable V} (self : Series V) (_baked : bool)
  : M (Series V * bool) :=
  if _baked then
    (* Already baked, just return self. *)
    ret (self, _baked)
  else
    pairs <- Series_toPairs self ;;
    baked <- Series_of_iterable {| getIterator := ret (ArrayIterator pairs) |} ;;
    ret (baked, true).

(** Insert a pair at the start of a Series. *)
Definition Series_insertPair {V : Type} `{Absentable V} (self : Series V) (pair : pair V)
  : M (Series V) :=
  rest <- Series_toPairs self ;;
  let pairs := [pair] ++ rest in
  Series_of_iterable (ArrayIterable pairs).

(** Append a pair to the end of a Series. *)
Definition Series_appendPair {V : Type} `{Absentable V} (self : Series V) (pair : pair V)
  : M (Series V) :=
  pairs <- Series_toPairs self ;;
  let pairs := pairs ++ [pair] in
  Series_of_iterable (ArrayIterable pairs).

(** The [defaultSequence] parameter of [defaultIfEmpty]: an array or a Series. *)
Inductive DefaultSequence (V : Type) : Type :=
| DefaultArray (defaultSequence : list V)
| DefaultSeries (defaultSequence : Series V).

(** Returns the specified default sequence if the Series is empty. *)
Definition Series_defaultIfEmpty {V : Type} (self : Series V)
    (defaultSequence : DefaultSequence V) : M (Series V) :=
  empty <- Series_none self None ;;
  if empty then
    match defaultSequence with
    | DefaultSeries defaultSequence => ret defaultSequence
    | DefaultArray defaultSequence => Series_of_values defaultSequence
    end
  else ret self.

(* ================================================================== *)
(** ** [src/series.js]: all, any, and the operations built on [===] *)

(** Determine if the predicate returns truthy for all values. Returns false
    as soon as the predicate evaluates to falsy, and false if the series is
    empty. *)
Definition Series_all {V : Type} (self : Series V) (predicate : V -> M bool) : M bool :=
  iterator <- Series_getIterator self ;;
  _ <- validateIterator iterator ;;
  loop (fun '(s, count) =>
          '(more, s') <- moveNext (machine iterator) s ;;
          if more then
            pair <- getCurrent (machine iterator) s' ;;
            p <- predicate (snd pair) ;;
            if negb p then ret (inr false)
            else ret (inl (s', Datatypes.S count))
          else ret (inr (0 <? count)%nat))
       (pos iterator, O).

(** Determine if the predicate returns truthy for any of the values. Returns
    true as soon as the predicate returns truthy. *)
Definition Series_any {V : Type} (self : Series V) (predicate : option (V -> M bool)) : M bool :=
  iterator <- Series_getIterator self ;;
  _ <- validateIterator iterator ;;
  match predicate with
  | None =>
      '(more, _) <- moveNext (machine iterator) (pos iterator) ;;
      ret more
  | Some predicate =>
      loop (fun s =>
              '(more, s') <- moveNext (machine iterator) s ;;
              if more then
                pair <- getCurrent (machine iterator) s' ;;
                p <- predicate (snd pair) ;;
                if p then ret (inr true) else ret (inl s')
              else ret (inr false))
           (pos iterator)
  end.

(** [input[j].considered = true]. *)
Definition set_considered {A : Type} (input : list (A * bool)) (j : nat) : list (A * bool) :=
  match nth_error input j with
  | Some (a, _) => firstn j input ++ (a, true) :: skipn (Datatypes.S j) input
  | None => input
  end.

Section HostIndexEquality.

(** The host's [===] on index values. *)
Variable index_equal : value -> value -> bool.

(** Get the value at a specified index: the value of the first pair under
    that index, [undefined] when there is none. *)
Definition Series_at (self : Series value) (index : value) : M value :=
  iterator <- Series_getIterator self ;;
  '(more, s) <- moveNext (machine iterator) (pos iterator) ;;
  if negb more then ret VUndefined
  else
    loop (fun s =>
            curPair <- getCurrent (machine iterator) s ;;
            if index_equal (fst curPair) index then ret (inr (snd curPair))
            else
              '(more, s') <- moveNext (machine iterator) s ;;
              if more then ret (inl s') else ret (inr VUndefined))
         s.

End HostIndexEquality.

Section HostEquality.

Context {V : Type}.

(** The host's [===] on the values of the series. *)
Variable strict_equal : V -> V -> bool.

(** Returns true if the Series contains the specified value. *)
Definition Series_contains (self : Series V) (v : V) : M bool :=
  Series_any self (Some (fun searchValue => ret (strict_equal searchValue v))).

(** The comparer of [intersection] and [except] when none is given. *)
Definition default_comparer (comparer : option (V -> V -> M bool)) : V -> V -> M bool :=
  match comparer with
  | Some comparer => comparer
  | None => fun left right => ret (strict_equal left right)
  end.

(** Returns the intersection of values between two Series. *)
Definition Series_intersection (self other : Series V) (comparer : option (V -> V -> M bool))
  : M (Series V) :=
  let comparer := default_comparer comparer in
  Series_where self (fun left =>
    matching <- Series_where other (fun right => comparer left right) ;;
    Series_any matching None).

(** Returns the exception of values between two Series. *)
Definition Series_except (self other : Series V) (comparer : option (V -> V -> M bool))
  : M (Series V) :=
  let comparer := default_comparer comparer in
  Series_where self (fun left =>
    matching <- Series_where other (fun right => comparer left right) ;;
    Series_none matching None).

End HostEquality.

Section Distinct.

Context {V K : Type} `{Absentable V}.

(** The host's [===] on what the selector returns. *)
Variable strict_equal : K -> K -> bool.

(** Selects the value used to compare for duplicates. *)
Variable selector : V -> M K.

(** The inner loop of [distinct]: from position [j] on, the elements not yet
    considered whose selected value equals that of [underConsideration] are
    marked as considered. *)
Definition Series_distinct_compare (underConsideration : pair V)
  : list (pair V * bool) * nat -> M (list (pair V * bool)) :=
  loop (fun '((input, j) : list (pair V * bool) * nat) =>
          if (j <? List.length input)%nat then
            match nth_error input j with
            | Some (underComparison, considered) =>
                if considered then ret (inl (input, Datatypes.S j))
                else
                  a <- selector (snd underComparison) ;;
                  b <- selector (snd underConsideration) ;;
                  if strict_equal a b then ret (inl (set_considered input j, Datatypes.S j))
                  else ret (inl (input, Datatypes.S j))
            | None => no_current
            end
          else ret (inr input)).

(** The outer loop of [distinct]. *)
Definition Series_distinct_scan
  : list (pair V * bool) * list (pair V) * nat -> M (list (pair V)) :=
  loop (fun '((input, output, i) : list (pair V * bool) * list (pair V) * nat) =>
          if (i <? List.length input)%nat then
            match nth_error input i with
            | Some (curPair, considered) =>
                if considered then
                  (* Skip this item, it has already been dealt with. *)
                  ret (inl (input, output, Datatypes.S i))
                else
                  input' <- Series_distinct_compare curPair
                              (set_considered input i, Datatypes.S i) ;;
                  ret (inl (input', output ++ [curPair], Datatypes.S i))
            | None => no_current
            end
          else ret (inr output)).

(** Group distinct values in the Series: the pairs of [self] without those
    whose selected value equals that of an earlier pair that was kept. When
    no selector is given the source passes the identity. *)
Definition Series_distinct (self : Series V) : M (Series V) :=
  pairs <- Series_toPairs self ;;
  let input := map (fun pair => (pair, false)) pairs in
  output <- Series_distinct_scan (input, [], O) ;;
  Series_of_iterable {| getIterator := ret (ArrayIterator output) |}.

End Distinct.

(* ================================================================== *)
(** ** [src/series.js]: variableWindow *)

(** The loop of [variableWindow] over the pairs [input] of [self]: its state
    is the output so far, [startIndex], [takeAmount], [windowIndex],
    [prevPair] and [i]. *)
Definition Series_variableWindow_loop {V : Type} (self : Series V)
    (comparer : V -> V -> M bool) (input : list (pair V))
  : list (pair (Series V)) * nat * nat * nat * pair V * nat -> M (list (pair (Series V))) :=
  loop (fun '((output, startIndex, takeAmount, windowIndex, prevPair, i)
              : list (pair (Series V)) * nat * nat * nat * pair V * nat) =>
          if (i <? List.length input)%nat then
            match nth_error input i with
            | Some curPair =>
                same <- comparer (snd curPair) (snd prevPair) ;;
                if negb same then
                  (* Flush. *)
                  skipped <- Series_skip self startIndex ;;
                  window <- Series_take skipped takeAmount ;;
                  ret (inl (output ++ [(VNum (Z.of_nat windowIndex), window)],
                            i, 1, Datatypes.S windowIndex, curPair, Datatypes.S i))
                else
                  ret (inl (output, startIndex, Datatypes.S takeAmount, windowIndex,
                            curPair, Datatypes.S i))
            | None => no_current
            end
          else if (0 <? takeAmount)%nat then
            skipped <- Series_skip self startIndex ;;
            window <- Series_take skipped takeAmount ;;
            ret (inr (output ++ [(VNum (Z.of_nat windowIndex), window)]))
          else ret (inr output)).

(** Groups sequential values into variable length 'windows'. *)
Definition Series_variableWindow {V : Type} `{Absentable V} (self : Series V)
    (comparer : V -> V -> M bool) (obsoleteSelector : option (V -> M V))
  : M (Series (Series V)) :=
  match obsoleteSelector with
  | Some _ => throw (AssertionError "Selector parameter is obsolete and no longer required.")
  | None =>
      input <- Series_toPairs self ;;
      output <-
        match input with
        | [] => ret []
        | first :: _ =>
            Series_variableWindow_loop self comparer input
              ([], 0, 1, 0, first (* 1st pair. *), 1)
        end ;;
      index <- Series_of_values (map fst output) ;;
      Series_new (Some {| config___iterable := None;
                          config_iterable := None;
                          config_values := Some (ValuesArray (map snd output));
                          config_index := Some (IndexPairs (Series_iterable index)) |})
  end.

(* ================================================================== *)
(** ** [src/series.js], second part: further operations of DataFrame *)


(** Skips rows in the data-frame while a condition is met. *)
Definition DataFrame_skipWhile (self : DataFrame) (predicate : value -> value -> M bool)
  : M DataFrame :=
  DataFrame_of_iterable (Some (DataFrame_getColumnNames self))
    (iterator <- DataFrame_getIterator self ;;
     ret (SkipWhileIterator iterator (fun pair => predicate (snd pair) (fst pair)))).

(** Skips rows in the data-frame until a condition is met. *)
Definition DataFrame_skipUntil (self : DataFrame) (predicate : value -> value -> M bool)
  : M DataFrame :=
  DataFrame_skipWhile self (fun v index => b <- predicate v index ;; ret (negb b)).


(** Take rows from the data-frame while a condition is met. *)
Definition DataFrame_takeWhile (self : DataFrame) (predicate : value -> value -> M bool)
  : M DataFrame :=
  DataFrame_of_iterable (Some (DataFrame_getColumnNames self))
    (iterator <- DataFrame_getIterator self ;;
     ret (TakeWhileIterator iterator (fun pair => predicate (snd pair) (fst pair)))).

(** Take rows from the data-frame until a condition is met. *)
Definition DataFrame_takeUntil (self : DataFrame) (predicate : value -> value -> M bool)
  : M DataFrame :=
  DataFrame_takeWhile self (fun v index => b <- predicate v index ;; ret (negb b)).

(** Filter a data frame by a predicate selector. *)
Definition DataFrame_where (self : DataFrame) (filterSelectorPredicate : value -> value -> M bool)
  : M DataFrame :=
  DataFrame_of_iterable (Some (DataFrame_getColumnNames self))
    (iterator <- DataFrame_getIterator self ;;
     ret (WhereIterator iterator
            (fun pair => filterSelectorPredicate (snd pair) (fst pair)))).

(** Reset the index of the data frame back to the default sequential integer
    index. *)
Definition DataFrame_resetIndex (self : DataFrame) : M DataFrame :=
  DataFrame_of_iterable (Some (DataFrame_getColumnNames self))
    (iterator <- DataFrame_getIterator self ;;
     ret (SelectIterator iterator (fun pair i => ret (i, snd pair)))).


(** Count the number of rows in the data frame. *)
Definition DataFrame_count (self : DataFrame) : M nat :=
  iterator <- DataFrame_getIterator self ;;
  loop (fun '(s, total) =>
          '(more, s') <- moveNext (machine iterator) s ;;
          if more then ret (inl (s', Datatypes.S total))
          else ret (inr total))
       (pos iterator, O).


(** Bake the data frame to an array of JavaScript objects. *)
Definition DataFrame_toObjects (self : DataFrame) : M (list value) :=
  iterator <- DataFrame_getIterator self ;;
  _ <- validateIterator iterator ;;
  loop (fun '(s, objects) =>
          '(more, s') <- moveNext (machine iterator) s ;;
          if more then
            cur <- getCurrent (machine iterator) s' ;;
            ret (inl (s', objects ++ [snd cur])) (* Extract values. *)
          else ret (inr objects))
       (pos iterator, []).

(** Forces lazy evaluation to complete and 'bakes' the data frame into
    memory. The [_baked] flag of the object is carried beside the record. *)
Definition DataFrame_bake (self : DataFrame) (_baked : bool) : M (DataFrame * bool) :=
  if _baked then
    (* Already baked, just return self. *)
    ret (self, _baked)
  else
    pairs <- DataFrame_toPairs self ;;
    baked <- DataFrame_of_iterable (Some (DataFrame_getColumnNames self))
               (ret (ArrayIterator pairs)) ;;
    ret (baked, true).

(** Get the first row of the DataFrame. *)
Definition DataFrame_first (self : DataFrame) : M value :=
  iterator <- DataFrame_getIterator self ;;
  '(more, s) <- moveNext (machine iterator) (pos iterator) ;;
  if negb more then throw (Error "No rows in DataFrame.")
  else
    cur <- getCurrent (machine iterator) s ;;
    ret (snd cur).

(** Get the last row of the DataFrame. *)
Definition DataFrame_last (self : DataFrame) : M value :=
  iterator <- DataFrame_getIterator self ;;
  '(more, s) <- moveNext (machine iterator) (pos iterator) ;;
  if negb more then throw (Error "No rows in DataFrame.")
  else
    s' <- drain (machine iterator) s ;; (* Don't evaluate current item. *)
    cur <- getCurrent (machine iterator) s' ;;
    ret (snd cur). (* Return the last item. *)

(** Get the first index/row pair of the DataFrame. *)
Definition DataFrame_firstPair (self : DataFrame) : M (pair value) :=
  iterator <- DataFrame_getIterator self ;;
  '(more, s) <- moveNext (machine iterator) (pos iterator) ;;
  if negb more then throw (Error "No rows in DataFrame.")
  else getCurrent (machine iterator) s.

(** Get the last index/row pair of the DataFrame. *)
Definition DataFrame_lastPair (self : DataFrame) : M (pair value) :=
  iterator <- DataFrame_getIterator self ;;
  '(more, s) <- moveNext (machine iterator) (pos iterator) ;;
  if negb more then throw (Error "No rows in DataFrame.")
  else
    s' <- drain (machine iterator) s ;;
    getCurrent (machine iterator) s'.

(** Get the first index of the DataFrame. *)
Definition DataFrame_firstIndex (self : DataFrame) : M value :=
  iterator <- DataFrame_getIterator self ;;
  '(more, s) <- moveNext (machine iterator) (pos iterator) ;;
  if negb more then throw (Error "No rows in DataFrame.")
  else
    cur <- getCurrent (machine iterator) s ;;
    ret (fst cur).

(** Get the last index of the DataFrame. *)
Definition DataFrame_lastIndex (self : DataFrame) : M value :=
  iterator <- DataFrame_getIterator self ;;
  '(more, s) <- moveNext (machine iterator) (pos iterator) ;;
  if negb more then throw (Error "No rows in DataFrame.")
  else
    s' <- drain (machine iterator) s ;;
    cur <- getCurrent (machine iterator) s' ;;
    ret (fst cur).

(** Concatenate a data-frame on the end of this one and return the
    concatenated data-frame. *)
Definition DataFrame_concat (self otherDataFrame : DataFrame) : M DataFrame :=
  DataFrame_of_iterable None
    (pairs <- DataFrame_toPairs self ;;
     otherPairs <- DataFrame_toPairs otherDataFrame ;;
     ret (ArrayIterator (pairs ++ otherPairs))).

(** Inesrt a pair to the start of a DataFrame. *)
Definition DataFrame_insertPair (self : DataFrame) (pair : pair value) : M DataFrame :=
  rest <- DataFrame_toPairs self ;;
  let pairs := [pair] ++ rest in
  DataFrame_of_iterable None (ret (ArrayIterator pairs)).

(** Append a pair to the end of a DataFrame. *)
Definition DataFrame_appendPair (self : DataFrame) (pair : pair value) : M DataFrame :=
  pairs <- DataFrame_toPairs self ;;
  let pairs := pairs ++ [pair] in
  DataFrame_of_iterable None (ret (ArrayIterator pairs)).

(** Returns true if the column with the requested name exists in the data
    frame: [self.getColumnIndex(columnName) >= 0], where the column index is
    a number. *)
Definition DataFrame_hasSeries (self : DataFrame) (columnName : string) : M bool :=
  columnIndex <- DataFrame_getColumnIndex self (VStr columnName) ;;
  match columnIndex with
  | VNum columnIndex => ret (columnIndex >=? 0)%Z
  | _ => ret false
  end.

(** Verify the existance of a column and return it. Throws an exception if
    the column doesn't exist. [indexOf] answers the first position of the name
    or -1, as the scan of [getColumnIndex] does. *)
Definition DataFrame_expectSeries (self : DataFrame) (columnName : string) : M DataFrame :=
  let indexOf := DataFrame_getColumnIndex_from (DataFrame_getColumnNames self) columnName 0%Z in
  if (indexOf <? 0)%Z then
    throw (Error ("Expected data-frame to contain series with column name: '"
                    ++ columnName ++ "'."))
  else ret self.

(** [new Series({ iterable: iterable })], as the DataFrame functions that
    return a Series call the constructor. *)
Definition Series_of_config_iterable {V : Type} (iterable : M (Cursor (pair V))) : M (Series V) :=
  Series_new (Some {| config___iterable := None;
                      config_iterable := Some {| getIterator := iterable |};
                      config_values := None;
                      config_index := None |}).

(** Get the index of the data frame. *)
Definition DataFrame_getIndex (self : DataFrame) : M (Series value) :=
  Series_of_config_iterable
    (iterator <- DataFrame_getIterator self ;;
     ret (SelectIterator iterator
            (fun pair index => ret (index, fst pair)))). (* Extract index. *)

(** Deflate a data-frame to a series. *)
Definition DataFrame_deflate {V : Type} (self : DataFrame) (selector : value -> value -> M V)
  : M (Series V) :=
  Series_of_config_iterable
    (iterator <- DataFrame_getIterator self ;;
     ret (SelectIterator iterator
            (fun pair _ =>
               newValue <- selector (snd pair) (fst pair) ;;
               ret (fst pair, newValue)))).

Section HostObjects.

(** The host's property access [row[columnName]]. *)
Variable js_get : value -> string -> M value.

(** Retreive a time-series from a column of the data-frame. *)
Definition DataFrame_getSeries (self : DataFrame) (columnName : string) : M (Series value) :=
  Series_of_config_iterable
    (iterator <- DataFrame_getIterator self ;;
     ret (WhereIterator
            (SelectIterator iterator
               (fun pair _ =>
                  cell <- js_get (snd pair) columnName ;;
                  ret (fst pair, cell)))
            (fun pair => ret (negb (is_undefined (snd pair)))))).

End HostObjects.

(* ================================================================== *)
(** ** Vocabulary of the further statements *)

(** The longest prefix whose elements satisfy [f]. *)
Fixpoint take_while {A : Type} (f : A -> bool) (l : list A) : list A :=
  match l with
  | [] => []
  | a :: rest => if f a then a :: take_while f rest else []
  end.

(** What is left after that prefix. *)
Fixpoint drop_while {A : Type} (f : A -> bool) (l : list A) : list A :=
  match l with
  | [] => []
  | a :: rest => if f a then drop_while f rest else l
  end.

(** The elements of [l] that equal, under [same], none of [seen] nor an
    earlier element that was kept. *)
Fixpoint distinct_by {A : Type} (same : A -> A -> bool) (seen l : list A) : list A :=
  match l with
  | [] => []
  | x :: rest =>
      if existsb (same x) seen then distinct_by same seen rest
      else x :: distinct_by same (seen ++ [x]) rest
  end.

(** The maximal runs of a non-empty sequence in which each element is
    [related] to the one before it: [split_runs related prev cur rest] is
    given the run [cur] so far, its last element [prev] and what follows. *)
Fixpoint split_runs {A : Type} (related : A -> A -> bool) (prev : A) (cur rest : list A)
  : list (list A) :=
  match rest with
  | [] => [cur]
  | x :: rest' =>
      if related x prev then split_runs related x (cur ++ [x]) rest'
      else cur :: split_runs related x [x] rest'
  end.

(** The runs of a sequence. *)
Definition runs_of {A : Type} (related : A -> A -> bool) (l : list A) : list (list A) :=
  match l with
  | [] => []
  | first :: rest => split_runs related first [first] rest
  end.

(** What [truncateStrings] makes of a value. *)
Definition truncated (maxLength : Z) (v : value) : value :=
  match v with
  | VStr s =>
      if (Z.of_nat (String.length s) >? maxLength)%Z
      then VStr (substring 0 (Z.to_nat maxLength) s)
      else v
  | _ => v
  end.

(** The rolling window that [rollingWindow]'s iterator builds at
    [windowIndex]: [self.skip(windowIndex).take(period)]. *)
Definition rolling_at {V : Type} (self : Series V) (period windowIndex : nat) : Series V :=
  {| __iterable :=
       TakeIterable
         (Series_iterable
            {| __iterable := SkipIterable (Series_iterable self) windowIndex |})
         period |}.

(** The cells of an array row under the column names: each column name with
    the element at the position of the column, in column order. *)
Definition row_cells (columnNames : list string) (items : list value)
  : list (string * value) :=
  map (fun column => (fst column, nth (snd column) items VUndefined))
      (combine columnNames (seq 0 (List.length columnNames))).

(** The record with the cells of a row as its fields, in column order. *)
Definition row_object (columnNames : list string) (items : list value) : value :=
  VObj (row_cells columnNames items).

(** The record that [convertRowsToObjects] makes of an array row: the cells
    are assigned to [{}] one after the other. *)
Definition row_record (columnNames : list string) (items : list value) : value :=
  VObj (fold_left (fun obj column => obj_set obj (fst column) (snd column))
                  (row_cells columnNames items) []).

(** Whether a field name is an array index. *)
Definition is_array_index (key : string) : bool :=
  match array_index key with Some _ => true | None => false end.

(** The field named by the smaller array index. *)
Definition index_before (f g : string * value) : Prop :=
  match array_index (fst f), array_index (fst g) with
  | Some n, Some m => (n < m)%N
  | _, _ => False
  end.

(** The order of the fields of a record with respect to the fields that were
    assigned to it: first the fields named by an array index, in ascending
    order of the index, then the other fields in the order of their
    assignment. *)
Definition own_property_order (assigned fields : list (string * value)) : Prop :=
  exists indexed,
    fields = indexed ++ filter (fun field => negb (is_array_index (fst field))) assigned /\
    Permutation indexed (filter (fun field => is_array_index (fst field)) assigned) /\
    StronglySorted index_before indexed.

(** The field names of a row; none for a row that is not a record. *)
Definition field_names (row : value) : list string :=
  match row with
  | VObj fields => map fst fields
  | _ => []
  end.

(** The window that [variableWindow] flushes:
    [self.skip(startIndex).take(takeAmount)]. *)
Definition skip_take {V : Type} (self : Series V) (startIndex takeAmount : nat) : Series V :=
  {| __iterable :=
       TakeIterable
         (Series_iterable
            {| __iterable := SkipIterable (Series_iterable self) startIndex |})
         takeAmount |}.

(** Where the runs of a sequence start and how long they are:
    [run_bounds related prev start amount rest] is given the start and the
    length so far of the current run, its last element [prev] and what
    follows. *)
Fixpoint run_bounds {A : Type} (related : A -> A -> bool) (prev : A) (start amount : nat)
    (rest : list A) : list (nat * nat) :=
  match rest with
  | [] => [(start, amount)]
  | x :: rest' =>
      if related x prev then run_bounds related x start (Datatypes.S amount) rest'
      else (start, amount) :: run_bounds related x (start + amount) 1 rest'
  end.

(** A frame of three rows under the column name a, as an example. *)
Definition example_rows : list (pair value) :=
  [(VNum 0, VObj [("a", VNum 1)]); (VNum 1, VObj [("a", VStr "x")]);
   (VNum 2, VObj [("a", VNum 3)])].

Definition example_frame : DataFrame :=
  {| _columnNames := ["a"];
     DataFrame_getIterator := ret (ArrayIterator example_rows) |}.


(* ================================================================== *)
(** * Iterators as objects *)

(** In the sections above a cursor is a value: its state is handed from one
    call to the next, so two cursors can never share state. In the source an
    iterator is an object whose two functions share variables ([var skipped]
    in [skip-while.js]), and whoever holds the object advances it for every
    other holder. This part models iterators that way. The variables of all
    iterators live in one store; a function of an iterator reads and writes
    the store; [getIterator] may hand out a new object with new variables or
    an object that exists already. Whether two requests for an iterator give
    independent iterators is then a property of the code, not of the model. *)

(** The store: the variables that closures have created, in the order of
    their creation. A variable is known by its position. *)
Definition store : Type := list value.

(** The outcome of running code on a store with a bounded number of loop
    iterations: a value and the store after, an exception and the store
    after, or the bound was reached. *)
Inductive outcome (A : Type) : Type :=
| Returned (a : A) (st : store)
| Thrown (e : exn) (st : store)
| Unfinished.
Arguments Returned {A} a st.
Arguments Thrown {A} e st.
Arguments Unfinished {A}.

(** Code that reads and writes the store. *)
Definition ST (A : Type) : Type := store -> nat -> outcome A.

Definition retS {A : Type} (a : A) : ST A := fun st _ => Returned a st.

Definition throwS {A : Type} (e : exn) : ST A := fun st _ => Thrown e st.

Definition bindS {A B : Type} (m : ST A) (f : A -> ST B) : ST B :=
  fun st fuel =>
    match m st fuel with
    | Returned a st' => f a st' fuel
    | Thrown e st' => Thrown e st'
    | Unfinished => Unfinished
    end.

Notation "x <~ m ;; k" := (bindS m (fun x => k))
  (at level 61, m at next level, right associativity).

(** Code that does not touch the store. *)
Definition liftM {A : Type} (m : M A) : ST A :=
  fun st fuel =>
    match m fuel with
    | Val a => Returned a st
    | Exn e => Thrown e st
    | OutOfFuel => Unfinished
    end.

(** [for (;;)] and [while] over the store; every iteration spends one unit of
    fuel. *)
Fixpoint loopS {S R : Type} (body : S -> ST (S + R)) (s : S) (st : store) (fuel : nat)
  : outcome R :=
  match fuel with
  | O => Unfinished
  | Datatypes.S fuel' =>
      match body s st fuel' with
      | Returned (inl s') st' => loopS body s' st' fuel'
      | Returned (inr r) st' => Returned r st'
      | Thrown e st' => Thrown e st'
      | Unfinished => Unfinished
      end
  end.

(** [var x = v]: a new variable, known by its position in the store. *)
Definition new_var (v : value) : ST nat :=
  fun st _ => Returned (List.length st) (st ++ [v]).

(** Reading the variable [x]. *)
Definition get_var (x : nat) : ST value :=
  fun st _ => Returned (nth x st VUndefined) st.

(** The store with [v] in the variable [x]. *)
Fixpoint update (x : nat) (v : value) (st : store) : store :=
  match st, x with
  | [], _ => []
  | _ :: rest, O => v :: rest
  | w :: rest, Datatypes.S x' => w :: update x' v rest
  end.

(** [x = v]. *)
Definition set_var (x : nat) (v : value) : ST unit :=
  fun st _ => Returned tt (update x v st).

(** The number in a variable that holds a number. *)
Definition num_of (v : value) : Z :=
  match v with VNum z => z | _ => 0%Z end.

(** Whether a variable that holds a boolean holds [true]. *)
Definition bool_of (v : value) : bool :=
  match v with VBool b => b | _ => false end.

(** [m -[ st ]-> out]: started on the store [st], with enough fuel, [m] has
    the outcome [out]. *)
Definition evalsS {A : Type} (m : ST A) (st : store) (out : outcome A) : Prop :=
  exists N, forall fuel, N <= fuel -> m st fuel = out.

Notation "m -[ st ]-> out" := (evalsS m st out) (at level 70, no associativity).

Module Obj.

(** An iterator object: the two functions of the protocol. They share the
    variables that the constructor of the iterator created. *)
Record Iterator (A : Type) : Type := {
  moveNext : ST bool;
  getCurrent : ST A
}.
Arguments moveNext {A} _.
Arguments getCurrent {A} _.

(** An iterable: an object with a [getIterator] function. *)
Record Iterable (A : Type) : Type := {
  getIterator : ST (Iterator A)
}.
Arguments getIterator {A} _.

(** Modelled from the spec: the source of [iterators/validate.js] is missing;
    every iterator object of the model has both functions. *)
Definition validateIterator {A : Type} (iterator : Iterator A) : ST unit := retS tt.

(* ------------------------------------------------------------------ *)
(** ** Iterators of the repository that [src/] does not contain *)

(** Each iterator below is the object counterpart of the cursor of the same
    name above: the state of the cursor is kept in variables that the
    constructor creates anew for each object, and the functions of the
    object do on the variables what the cursor does on its state. *)

(** Modelled from the spec: [new EmptyIterator()]. *)
Definition EmptyIterator (A : Type) : ST (Iterator A) :=
  retS {| moveNext := retS false; getCurrent := liftM no_current |}.

(** Modelled from the spec: the Array iterator, given its variable
    [rowIndex]. *)
Definition ArrayIterator_at {A : Type} (arr : list A) (rowIndex : nat) : Iterator A := {|
  moveNext :=
    i <~ get_var rowIndex ;;
    if (num_of i + 1 <? Z.of_nat (List.length arr))%Z
    then _ <~ set_var rowIndex (VNum (num_of i + 1)) ;; retS true
    else retS false;
  getCurrent :=
    i <~ get_var rowIndex ;;
    if (num_of i <? 0)%Z then liftM no_current
    else match nth_error arr (Z.to_nat (num_of i)) with
         | Some a => retS a
         | None => liftM no_current
         end
|}.

(** Modelled from the spec: [new ArrayIterator(arr)]; the position is a
    variable of the new object and starts before the first element. *)
Definition ArrayIterator {A : Type} (arr : list A) : ST (Iterator A) :=
  rowIndex <~ new_var (VNum (-1)) ;;
  retS (ArrayIterator_at arr rowIndex).

(** Modelled from the spec: the Count iterator, given its variable [index]. *)
Definition CountIterator_at (index : nat) : Iterator value := {|
  moveNext :=
    i <~ get_var index ;;
    _ <~ set_var index (VNum (num_of i + 1)) ;;
    retS true;
  getCurrent :=
    i <~ get_var index ;;
    retS (VNum (num_of i))
|}.

(** Modelled from the spec: [new CountIterator()]. *)
Definition CountIterator : ST (Iterator value) :=
  index <~ new_var (VNum (-1)) ;;
  retS (CountIterator_at index).

(** Modelled from the spec: [new PairIterator(it1, it2)]; it has no variable
    of its own and advances the two iterators it was given. *)
Definition PairIterator {A B : Type} (it1 : Iterator A) (it2 : Iterator B)
  : ST (Iterator (A * B)) :=
  retS {| moveNext :=
            b1 <~ moveNext it1 ;;
            if b1 then moveNext it2 else retS false;
          getCurrent :=
            a <~ getCurrent it1 ;;
            b <~ getCurrent it2 ;;
            retS (a, b) |}.

(** Modelled from the spec: moving past the pairs to discard and to the next
    one. *)
Fixpoint SkipIterator_discard {A : Type} (iterator : Iterator A) (skipAmount : nat)
  : ST bool :=
  match skipAmount with
  | O => moveNext iterator
  | Datatypes.S n =>
      more <~ moveNext iterator ;;
      if more then SkipIterator_discard iterator n else retS false
  end.

(** Modelled from the spec: the Skip iterator, given its variable
    [skipAmount]. *)
Definition SkipIterator_at {A : Type} (iterator : Iterator A) (skipAmount : nat)
  : Iterator A := {|
  moveNext :=
    n <~ get_var skipAmount ;;
    more <~ SkipIterator_discard iterator (Z.to_nat (num_of n)) ;;
    _ <~ set_var skipAmount (VNum 0) ;;
    retS more;
  getCurrent := getCurrent iterator
|}.

(** Modelled from the spec: [new SkipIterator(iterator, skipAmount)]. *)
Definition SkipIterator {A : Type} (iterator : Iterator A) (skipAmount : nat)
  : ST (Iterator A) :=
  skipAmount <~ new_var (VNum (Z.of_nat skipAmount)) ;;
  retS (SkipIterator_at iterator skipAmount).

(** Modelled from the spec: the Take iterator, given its variable
    [takeAmount]. *)
Definition TakeIterator_at {A : Type} (iterator : Iterator A) (takeAmount : nat)
  : Iterator A := {|
  moveNext :=
    n <~ get_var takeAmount ;;
    match Z.to_nat (num_of n) with
    | O => retS false
    | Datatypes.S n' =>
        more <~ moveNext iterator ;;
        _ <~ set_var takeAmount (VNum (Z.of_nat n')) ;;
        retS more
    end;
  getCurrent := getCurrent iterator
|}.

(** Modelled from the spec: [new TakeIterator(iterator, takeAmount)]. *)
Definition TakeIterator {A : Type} (iterator : Iterator A) (takeAmount : nat)
  : ST (Iterator A) :=
  takeAmount <~ new_var (VNum (Z.of_nat takeAmount)) ;;
  retS (TakeIterator_at iterator takeAmount).

(** Modelled from the spec: the Select iterator, given its variable [i], the
    position of the current element. The selector is a function of the
    host: it may read and write variables. *)
Definition SelectIterator_at {A B : Type} (iterator : Iterator A)
    (selector : A -> value -> ST B) (i : nat) : Iterator B := {|
  moveNext :=
    more <~ moveNext iterator ;;
    n <~ get_var i ;;
    _ <~ set_var i (VNum (num_of n + 1)) ;;
    retS more;
  getCurrent :=
    cur <~ getCurrent iterator ;;
    n <~ get_var i ;;
    selector cur (VNum (num_of n))
|}.

(** Modelled from the spec: [new SelectIterator(iterator, selector)]. *)
Definition SelectIterator {A B : Type} (iterator : Iterator A)
    (selector : A -> value -> ST B) : ST (Iterator B) :=
  i <~ new_var (VNum (-1)) ;;
  retS (SelectIterator_at iterator selector i).

(** Modelled from the spec: [new WhereIterator(iterator, predicate)]. *)
Definition WhereIterator {A : Type} (iterator : Iterator A) (predicate : A -> ST bool)
  : ST (Iterator A) :=
  retS {| moveNext :=
            loopS (fun _ : unit =>
                     more <~ moveNext iterator ;;
                     if more then
                       cur <~ getCurrent iterator ;;
                       keep <~ predicate cur ;;
                       if keep then retS (inr true) else retS (inl tt)
                     else retS (inr false))
                  tt;
          getCurrent := getCurrent iterator |}.

(** Modelled from the spec: the TakeWhile iterator, given its variable
    [done]. *)
Definition TakeWhileIterator_at {A : Type} (iterator : Iterator A)
    (predicate : A -> ST bool) (done : nat) : Iterator A := {|
  moveNext :=
    d <~ get_var done ;;
    if bool_of d then retS false
    else
      more <~ moveNext iterator ;;
      if more then
        cur <~ getCurrent iterator ;;
        p <~ predicate cur ;;
        if p then _ <~ set_var done (VBool false) ;; retS true
        else _ <~ set_var done (VBool true) ;; retS false
      else _ <~ set_var done (VBool true) ;; retS false;
  getCurrent := getCurrent iterator
|}.

(** Modelled from the spec: [new TakeWhileIterator(iterator, predicate)]. *)
Definition TakeWhileIterator {A : Type} (iterator : Iterator A) (predicate : A -> ST bool)
  : ST (Iterator A) :=
  done <~ new_var (VBool false) ;;
  retS (TakeWhileIterator_at iterator predicate done).

(* ------------------------------------------------------------------ *)
(** ** [iterators/skip-while.js] *)

(** The object that [SkipWhileIterator] returns, given its variable
    [skipped]. *)
Definition SkipWhileIterator_at {A : Type} (iterator : Iterator A)
    (predicate : A -> ST bool) (skipped : nat) : Iterator A := {|
  moveNext :=
    loopS (fun _ : unit =>
             more <~ moveNext iterator ;;
             if negb more then retS (inr false)
             else
               s <~ get_var skipped ;;
               if bool_of s then
                 (* Already skipped. *)
                 retS (inr true)
               else
                 (* Skipping until predict returns false. *)
                 cur <~ getCurrent iterator ;;
                 p <~ predicate cur ;;
                 if negb p then _ <~ set_var skipped (VBool true) ;; retS (inr true)
                 else retS (inl tt))
          tt;
  getCurrent := getCurrent iterator
|}.

(** Iterator that skips elements while the predicate returns true:
    [var skipped = false] and the object over it. *)
Definition SkipWhileIterator {A : Type} (iterator : Iterator A) (predicate : A -> ST bool)
  : ST (Iterator A) :=
  _ <~ validateIterator iterator ;;
  skipped <~ new_var (VBool false) ;;
  retS (SkipWhileIterator_at iterator predicate skipped).

(* ------------------------------------------------------------------ *)
(** ** Iterables of the repository that [src/] does not contain *)

(** The sources under [iterables/] are missing. "Iterable. A re-startable
    producer: asking it for a cursor yields a fresh cursor positioned before
    the first pair. Iterables never hold cursor state": each iterable below
    asks its inputs for new iterators and constructs a new iterator over
    them at every request. *)

(** Modelled from the spec: [new EmptyIterable()]. *)
Definition EmptyIterable (A : Type) : Iterable A :=
  {| getIterator := EmptyIterator A |}.

(** Modelled from the spec: [new ArrayIterable(arr)]. *)
Definition ArrayIterable {A : Type} (arr : list A) : Iterable A :=
  {| getIterator := ArrayIterator arr |}.

(** Modelled from the spec: [new CountIterable()]. *)
Definition CountIterable : Iterable value :=
  {| getIterator := CountIterator |}.

(** Modelled from the spec: [new PairsIterable(indexIterable, valuesIterable)]. *)
Definition PairsIterable {A B : Type} (indexIterable : Iterable A) (valuesIterable : Iterable B)
  : Iterable (A * B) :=
  {| getIterator :=
       it1 <~ getIterator indexIterable ;;
       it2 <~ getIterator valuesIterable ;;
       PairIterator it1 it2 |}.

(** Modelled from the spec: [new SkipIterable(iterable, skipAmount)]. *)
Definition SkipIterable {A : Type} (iterable : Iterable A) (skipAmount : nat) : Iterable A :=
  {| getIterator :=
       iterator <~ getIterator iterable ;;
       SkipIterator iterator skipAmount |}.

(** Modelled from the spec: [new TakeIterable(iterable, takeAmount)]. *)
Definition TakeIterable {A : Type} (iterable : Iterable A) (takeAmount : nat) : Iterable A :=
  {| getIterator :=
       iterator <~ getIterator iterable ;;
       TakeIterator iterator takeAmount |}.

(** Modelled from the spec: [new SkipWhileIterable(iterable, predicate)]. *)
Definition SkipWhileIterable {A : Type} (iterable : Iterable A) (predicate : A -> ST bool)
  : Iterable A :=
  {| getIterator :=
       iterator <~ getIterator iterable ;;
       SkipWhileIterator iterator predicate |}.

(** Modelled from the spec: [new TakeWhileIterable(iterable, predicate)]. *)
Definition TakeWhileIterable {A : Type} (iterable : Iterable A) (predicate : A -> ST bool)
  : Iterable A :=
  {| getIterator :=
       iterator <~ getIterator iterable ;;
       TakeWhileIterator iterator predicate |}.

(** Modelled from the spec: [new WhereIterable(iterable, predicate)]. *)
Definition WhereIterable {A : Type} (iterable : Iterable A) (predicate : A -> ST bool)
  : Iterable A :=
  {| getIterator :=
       iterator <~ getIterator iterable ;;
       WhereIterator iterator predicate |}.

(** Modelled from the spec: [new ExtractIterable(iterable, slot)]; its
    iterator maps each pair of a new iterator of the input to [pair[slot]]. *)
Definition ExtractIterable {A B : Type} (iterable : Iterable A) (slot : A -> B) : Iterable B :=
  {| getIterator :=
       iterator <~ getIterator iterable ;;
       retS {| moveNext := moveNext iterator;
               getCurrent := cur <~ getCurrent iterator ;; retS (slot cur) |} |}.

(** Modelled from the spec: [new SelectValuesIterable(iterable, selector)];
    its iterator replaces the value of each pair of a new iterator of the
    input with [selector(value, index)], when the pair is read. *)
Definition SelectValuesIterable {V W : Type} (iterable : Iterable (pair V))
    (selector : V -> value -> ST W) : Iterable (pair W) :=
  {| getIterator :=
       iterator <~ getIterator iterable ;;
       retS {| moveNext := moveNext iterator;
               getCurrent :=
                 cur <~ getCurrent iterator ;;
                 newValue <~ selector (snd cur) (fst cur) ;;
                 retS (fst cur, newValue) |} |}.

(* ------------------------------------------------------------------ *)
(** ** [src/series.js]: Series over iterator objects *)

(** A Series holds one iterable of index/value pairs. *)
Record Series (V : Type) : Type := {
  __iterable : Iterable (pair V)
}.
Arguments __iterable {V} _.

(** The [values] field of the constructor's config: a function that returns
    an iterator, an array, or an iterable. *)
Inductive ValuesSource (A : Type) : Type :=
| ValuesFunction (values : ST (Iterator A))
| ValuesArray (values : list A)
| ValuesIterable (values : Iterable A).

(** The [index] field: a function that returns an iterator, an array, or a
    Series (anything with a [getIterator] over pairs). *)
Inductive IndexSource : Type :=
| IndexFunction (index : ST (Iterator value))
| IndexArray (index : list value)
| IndexPairs (index : Iterable (pair value)).

(** The fields of [config] that the Series constructor reads. *)
Record SeriesConfig (V : Type) : Type := {
  config___iterable : option (Iterable (pair V));
  config_iterable : option (Iterable (pair V));
  config_values : option (ValuesSource V);
  config_index : option IndexSource
}.

(** Create an iterable for use as an index. A function is installed as the
    [getIterator] of the iterable as it is. *)
Definition createIndexIterable (index : option IndexSource) : Iterable value :=
  match index with
  | None => CountIterable
  | Some (IndexFunction index) => {| getIterator := index |}
  | Some (IndexArray index) => ArrayIterable index
  | Some (IndexPairs index) => ExtractIterable index snd
  end.

(** Create an iterable from values. *)
Definition createValuesIterable {A : Type} (values : option (ValuesSource A)) : Iterable A :=
  match values with
  | None => EmptyIterable A
  | Some (ValuesFunction values) => {| getIterator := values |}
  | Some (ValuesArray values) => ArrayIterable values
  | Some (ValuesIterable values) => values
  end.

(** The constructor; it creates no iterator. *)
Definition Series_new {V : Type} (config : option (SeriesConfig V)) : ST (Series V) :=
  match config with
  | None => retS {| __iterable := EmptyIterable (pair V) |}
  | Some config =>
      match config___iterable config with
      | Some iterable =>
          (* Setting the inner iterable directly. *)
          retS {| __iterable := iterable |}
      | None =>
          match config_iterable config with
          | Some _ => throwS (AssertionError "")
          | None =>
              retS {| __iterable :=
                        PairsIterable (createIndexIterable (config_index config))
                                      (createValuesIterable (config_values config)) |}
          end
      end
  end.

(** [new self.Constructor({ __iterable: iterable })]. *)
Definition Series_of_iterable {V : Type} (iterable : Iterable (pair V)) : ST (Series V) :=
  Series_new (Some {| config___iterable := Some iterable;
                      config_iterable := None;
                      config_values := None;
                      config_index := None |}).


(** [new Series({ values: values })] for a function that returns an
    iterator. *)
Definition Series_of_function {V : Type} (values : ST (Iterator V)) : ST (Series V) :=
  Series_new (Some {| config___iterable := None;
                      config_iterable := None;
                      config_values := Some (ValuesFunction values);
                      config_index := None |}).

(** Get an iterator for index & values of the series. *)
Definition Series_getIterator {V : Type} (self : Series V) : ST (Iterator (pair V)) :=
  getIterator (__iterable self).

(** A Series passed where an iterable is expected ([new SkipIterable(self, n)]):
    the object answers [getIterator] itself. *)
Definition Series_iterable {V : Type} (self : Series V) : Iterable (pair V) :=
  {| getIterator := Series_getIterator self |}.

(** Retreive the index of the series. *)
Definition Series_getIndex {V : Type} (self : Series V) : ST (Series value) :=
  Series_new (Some {| config___iterable := None;
                      config_iterable := None;
                      config_values :=
                        (* Extract the index. *)
                        Some (ValuesIterable (ExtractIterable (Series_iterable self) fst));
                      config_index := None |}).

(** The [newIndex] parameter of [withIndex]: an array, or an object with a
    [getIterator] function. *)
Inductive NewIndex : Type :=
| NewIndexArray (newIndex : list value)
| NewIndexPairs (newIndex : Iterable (pair value)).

(** Apply a new index to the Series. *)
Definition Series_withIndex {V : Type} (self : Series V) (newIndex : NewIndex)
  : ST (Series V) :=
  let indexIterable :=
    match newIndex with
    | NewIndexArray newIndex => ArrayIterable newIndex
    | NewIndexPairs newIndex => ExtractIterable newIndex snd (* Extract index value. *)
    end in
  let pairsIterable :=
    PairsIterable indexIterable
                  (ExtractIterable (Series_iterable self) snd) (* Extract value. *) in
  Series_of_iterable pairsIterable.

(** Reset the index of the series back to the default sequential integer
    index. *)
Definition Series_resetIndex {V : Type} (self : Series V) : ST (Series V) :=
  Series_of_iterable
    (PairsIterable CountIterable (* Reset index. *)
                   (ExtractIterable (Series_iterable self) snd) (* Extract value. *)).

(** Skip a number of rows in the series. *)
Definition Series_skip {V : Type} (self : Series V) (numRows : nat) : ST (Series V) :=
  Series_of_iterable (SkipIterable (Series_iterable self) numRows).

(** Skips values in the series while a condition is met. *)
Definition Series_skipWhile {V : Type} (self : Series V) (predicate : V -> ST bool)
  : ST (Series V) :=
  Series_of_iterable
    (SkipWhileIterable (Series_iterable self) (fun pair => predicate (snd pair))).

(** Skips values in the series until a condition is met. *)
Definition Series_skipUntil {V : Type} (self : Series V) (predicate : V -> ST bool)
  : ST (Series V) :=
  Series_skipWhile self (fun value => b <~ predicate value ;; retS (negb b)).

(** Take a number of rows in the series. *)
Definition Series_take {V : Type} (self : Series V) (numRows : nat) : ST (Series V) :=
  Series_of_iterable (TakeIterable (Series_iterable self) numRows).

(** Take values from the series while a condition is met. *)
Definition Series_takeWhile {V : Type} (self : Series V) (predicate : V -> ST bool)
  : ST (Series V) :=
  Series_of_iterable
    (TakeWhileIterable (Series_iterable self) (fun pair => predicate (snd pair))).

(** Take values from the series until a condition is met. *)
Definition Series_takeUntil {V : Type} (self : Series V) (predicate : V -> ST bool)
  : ST (Series V) :=
  Series_takeWhile self (fun value => b <~ predicate value ;; retS (negb b)).

(** Filter a series by a predicate selector. *)
Definition Series_where {V : Type} (self : Series V) (predicate : V -> ST bool)
  : ST (Series V) :=
  Series_of_iterable
    (WhereIterable (Series_iterable self) (fun pair => predicate (snd pair))).

(** Generate a new series based on the results of the selector function. *)
Definition Series_select {V W : Type} (self : Series V) (selector : V -> value -> ST W)
  : ST (Series W) :=
  Series_of_iterable (SelectValuesIterable (Series_iterable self) selector).

(** Get X values from the head of the series. *)
Definition Series_head {V : Type} (self : Series V) (values : nat) : ST (Series V) :=
  Series_take self values.

(** [while (iterator.moveNext()) { pairs.push(iterator.getCurrent()); }] *)
Definition collect {A : Type} (iterator : Iterator A) : ST (list A) :=
  loopS (fun pairs =>
           more <~ moveNext iterator ;;
           if more then
             cur <~ getCurrent iterator ;;
             retS (inl (pairs ++ [cur]))
           else retS (inr pairs))
        [].

(** Reverse the series. Each request for an iterator asks [self] for an
    iterator, reads it to the end and hands out a new array iterator over
    the reversed pairs. *)
Definition Series_reverse {V : Type} (self : Series V) : ST (Series V) :=
  Series_of_iterable
    {| getIterator :=
         iterator <~ Series_getIterator self ;;
         pairs <~ collect iterator ;;
         ArrayIterator (rev pairs) |}.

(** Retreive the data as pairs of [index, value]. *)
Definition Series_toPairs {V : Type} `{Absentable V} (self : Series V) : ST (list (pair V)) :=
  iterator <~ Series_getIterator self ;;
  _ <~ validateIterator iterator ;;
  loopS (fun pairs =>
           more <~ moveNext iterator ;;
           if more then
             pair <~ getCurrent iterator ;;
             retS (inl (if is_absent (snd pair) then pairs else pairs ++ [pair]))
           else retS (inr pairs))
        [].

End Obj.

(* ------------------------------------------------------------------ *)
(** ** Driving iterator objects *)

(** [drives iterator st l st']: on the store [st], the loop
    [while (iterator.moveNext()) { iterator.getCurrent() }] reads the
    elements [l], [moveNext] then answers false, and the store is [st']. *)
Inductive drives {A : Type} (iterator : Obj.Iterator A) : store -> list A -> store -> Prop :=
| drives_finished st st' :
    Obj.moveNext iterator -[ st ]-> Returned false st' ->
    drives iterator st [] st'
| drives_more st st1 st2 a l st' :
    Obj.moveNext iterator -[ st ]-> Returned true st1 ->
    Obj.getCurrent iterator -[ st1 ]-> Returned a st2 ->
    drives iterator st2 l st' ->
    drives iterator st (a :: l) st'.

(** [drives_both it1 it2 st l st']: the two iterators are driven in
    alternation, [it1] first at every step, as a zip of the two does; both
    read the elements [l] and end together. *)
Inductive drives_both {A : Type} (it1 it2 : Obj.Iterator A)
  : store -> list A -> store -> Prop :=
| drives_both_finished st st1 st' :
    Obj.moveNext it1 -[ st ]-> Returned false st1 ->
    Obj.moveNext it2 -[ st1 ]-> Returned false st' ->
    drives_both it1 it2 st [] st'
| drives_both_more st st1 st2 st3 st4 a l st' :
    Obj.moveNext it1 -[ st ]-> Returned true st1 ->
    Obj.moveNext it2 -[ st1 ]-> Returned true st2 ->
    Obj.getCurrent it1 -[ st2 ]-> Returned a st3 ->
    Obj.getCurrent it2 -[ st3 ]-> Returned a st4 ->
    drives_both it1 it2 st4 l st' ->
    drives_both it1 it2 st (a :: l) st'.

(** The restart law for a [getIterator] function: there is one sequence [l]
    such that, on every store, two calls of [getIterator] return two
    iterators of which each, driven to exhaustion, reads [l], whether the
    first is driven before the second, the second before the first, or the
    two in alternation; and no drive of either reads anything else. *)
Definition restarts {A : Type} (getIterator : ST (Obj.Iterator A)) : Prop :=
  exists l,
    forall st0,
    exists it1 st1 it2 st2,
      getIterator -[ st0 ]-> Returned it1 st1 /\
      getIterator -[ st1 ]-> Returned it2 st2 /\
      (exists st3 st4, drives it1 st2 l st3 /\ drives it2 st3 l st4) /\
      (exists st3 st4, drives it2 st2 l st3 /\ drives it1 st3 l st4) /\
      (exists st', drives_both it1 it2 st2 l st') /\
      (forall l1 st', drives it1 st2 l1 st' -> l1 = l) /\
      (forall l2 st', drives it2 st2 l2 st' -> l2 = l).




(* ------------------------------------------------------------------ *)
(** ** Iterator objects and cursors *)

(** [frame cells st st']: from [st] to [st'] no variable was created, and
    only the variables [cells] may have changed. *)
Definition frame (cells : list nat) (st st' : store) : Prop :=
  List.length st' = List.length st /\
  forall x, ~ In x cells -> nth_error st' x = nth_error st x.


(** [footprint R cells]: whether the store shows the state [s], [R s st],
    is a matter of the variables [cells] alone, which exist and whose
    content the state determines. *)
Record footprint {S : Type} (R : S -> store -> Prop) (cells : list nat) : Prop := {
  fp_valid : forall s st x, R s st -> In x cells -> x < List.length st;
  fp_local : forall s st st',
      R s st -> (forall x, In x cells -> nth_error st' x = nth_error st x) -> R s st';
  fp_det : forall s st st' x,
      R s st -> R s st' -> In x cells -> nth_error st' x = nth_error st x
}.

(** [represents o it R cells]: the iterator object [o] keeps the state of
    the cursor machine [it] in the variables [cells], as [R] tells. Whenever
    the machine, from a state that the store shows, moves to a state or
    reads an element, the object on that store does the same with the same
    fuel: it returns the same answer, shows the new state, creates no
    variable and changes none but its own. *)
Record represents {A : Type} (o : Obj.Iterator A) (it : Iterator A)
    (R : state it -> store -> Prop) (cells : list nat) : Prop := {
  rep_footprint : footprint R cells;
  rep_moveNext : forall fuel s st b s',
      R s st -> moveNext it s fuel = Val (b, s') ->
      exists st', Obj.moveNext o st fuel = Returned b st' /\ R s' st' /\ frame cells st st';
  rep_getCurrent : forall fuel s st a,
      R s st -> getCurrent it s fuel = Val a ->
      Obj.getCurrent o st fuel = Returned a st
}.




(* ------------------------------------------------------------------ *)
(** ** Pipelines outside the restart law *)



(** A single-shot generator of the user: a function that returns the same
    iterator at every call,
    [var iterator = new ArrayIterator(["a", "b"]);
     new Series({ values: function () { return iterator; } })]. *)
Definition single_shot_pipeline : ST (Obj.Series value) :=
  iterator <~ Obj.ArrayIterator [VStr "a"; VStr "b"] ;;
  Obj.Series_of_function (retS iterator).

(* ================================================================== *)
(** * Properties *)

(** ** Evaluation with enough fuel *)

Lemma evals_ret {A : Type} (a : A) : ret a ~~> Val a.
Proof. exists 0; reflexivity. Qed.

Lemma evals_throw {A : Type} (e : exn) : @throw A e ~~> Exn e.
Proof. exists 0; reflexivity. Qed.

Lemma evals_bind {A B : Type} (m : M A) (f : A -> M B) a r :
  m ~~> Val a -> f a ~~> r -> bind m f ~~> r.
Proof.
  intros [N1 H1] [N2 H2]. exists (Nat.max N1 N2). intros fuel Hf.
  unfold bind. rewrite H1 by lia. apply H2; lia.
Qed.

Lemma evals_bind_exn {A B : Type} (m : M A) (f : A -> M B) e :
  m ~~> Exn e -> bind m f ~~> Exn e.
Proof.
  intros [N H]. exists N. intros fuel Hf. unfold bind. now rewrite H.
Qed.

(** An outcome reached with enough fuel is the only one. *)
Lemma evals_det {A : Type} (m : M A) r1 r2 :
  m ~~> r1 -> m ~~> r2 -> r1 = r2.
Proof.
  intros [N1 H1] [N2 H2].
  rewrite <- (H1 (Nat.max N1 N2)) by lia. apply H2; lia.
Qed.

Lemma evals_loop_continue {S R : Type} (body : S -> M (S + R)) s s' r :
  body s ~~> Val (inl s') -> loop body s' ~~> r -> loop body s ~~> r.
Proof.
  intros [N1 H1] [N2 H2]. exists (Datatypes.S (Nat.max N1 N2)). intros fuel Hf.
  destruct fuel as [|fuel]; [lia|]. simpl. rewrite H1 by lia. apply H2; lia.
Qed.

Lemma evals_loop_return {S R : Type} (body : S -> M (S + R)) s r :
  body s ~~> Val (inr r) -> loop body s ~~> Val r.
Proof.
  intros [N H]. exists (Datatypes.S N). intros fuel Hf.
  destruct fuel as [|fuel]; [lia|]. simpl. now rewrite H by lia.
Qed.

Lemma evals_loop_exn {S R : Type} (body : S -> M (S + R)) s e :
  body s ~~> Exn e -> loop body s ~~> Exn e.
Proof.
  intros [N H]. exists (Datatypes.S N). intros fuel Hf.
  destruct fuel as [|fuel]; [lia|]. simpl. now rewrite H by lia.
Qed.

Lemma evals_bind_bind {A B C : Type} (m : M A) (f : A -> M B) (k : B -> M C) a r :
  m ~~> Val a -> bind (f a) k ~~> r -> bind (bind m f) k ~~> r.
Proof.
  intros [N1 H1] [N2 H2]. exists (Nat.max N1 N2). intros fuel Hf.
  unfold bind in *. rewrite H1 by lia. apply H2; lia.
Qed.

Lemma evals_bind_assoc {A B C : Type} (m : M A) (f : A -> M B) (k : B -> M C) r :
  bind m (fun a => bind (f a) k) ~~> r -> bind (bind m f) k ~~> r.
Proof.
  intros [N H]. exists N. intros fuel Hf. specialize (H fuel Hf).
  unfold bind in *. destruct (m fuel); auto.
Qed.

(** One step of evaluation: run the head of a bind with a known outcome. *)
Ltac eval_step :=
  first
    [ apply evals_ret
    | apply evals_throw
    | progress unfold validateIterator
    | eapply evals_bind; [ eassumption | cbn beta iota ]
    | eapply evals_bind; [ apply evals_ret | cbn beta iota ]
    | eapply evals_bind_bind; [ eassumption | cbn beta iota ]
    | eapply evals_bind_exn; eassumption
    | apply evals_bind_exn; apply evals_throw
    | apply evals_bind_assoc ].

Ltac eval_steps := repeat eval_step.

Ltac eval_simpl := repeat first [ eval_step | progress simpl ].

(** ** Driving a cursor *)

(** Two states from which [moveNext] behaves alike run alike. *)
Lemma runs_moveNext_like {A : Type} (it : Iterator A) s1 s2 l en :
  (forall r, moveNext it s1 ~~> r -> moveNext it s2 ~~> r) ->
  runs it s1 l en -> runs it s2 l en.
Proof.
  intros Hlike Hr. destruct Hr.
  - eapply runs_finished; eauto.
  - eapply runs_raised_moving; eauto.
  - eapply runs_raised_reading; eauto.
  - eapply runs_more; eauto.
Qed.

(** The trace of a cursor is unique. *)
Lemma runs_det {A : Type} (it : Iterator A) s l1 en1 :
  runs it s l1 en1 -> forall l2 en2, runs it s l2 en2 -> l1 = l2 /\ en1 = en2.
Proof.
  induction 1 as [s s' Hm|s e Hm|s s' e Hm Hc|s s' a l en Hm Hc Hr IH];
    intros l2 en2 H2; destruct H2 as [t t' Hm2|t e2 Hm2|t t' e2 Hm2 Hc2|t t' a2 l2 en3 Hm2 Hc2 Hr2];
    pose proof (evals_det Hm Hm2) as E; try discriminate E; auto.
  - injection E as ->. auto.
  - injection E as ->. pose proof (evals_det Hc Hc2) as E'. injection E' as ->. auto.
  - injection E as ->. pose proof (evals_det Hc Hc2) as E'. discriminate.
  - injection E as ->. pose proof (evals_det Hc Hc2) as E'. discriminate.
  - injection E as ->. pose proof (evals_det Hc Hc2) as E'. injection E' as ->.
    destruct (IH _ _ Hr2) as [-> ->]. auto.
Qed.

(** A loop of the shape [while (iterator.moveNext()) { acc = f(acc, current) }]
    over a cursor that runs [l]: it folds [f] over [l], or raises what the
    cursor raises. *)
Lemma loop_over_runs {A Acc R : Type} (it : Iterator A)
    (body : state it * Acc -> M (state it * Acc + R)) (f : Acc -> A -> Acc) (g : Acc -> R) :
  (forall s s' acc, moveNext it s ~~> Val (false, s') -> body (s, acc) ~~> Val (inr (g acc))) ->
  (forall s s' a acc, moveNext it s ~~> Val (true, s') -> getCurrent it s' ~~> Val a ->
                      body (s, acc) ~~> Val (inl (s', f acc a))) ->
  (forall s e acc, moveNext it s ~~> Exn e -> body (s, acc) ~~> Exn e) ->
  (forall s s' e acc, moveNext it s ~~> Val (true, s') -> getCurrent it s' ~~> Exn e ->
                      body (s, acc) ~~> Exn e) ->
  forall s l en, runs it s l en -> forall acc,
    loop body (s, acc) ~~> match en with
                           | Finished => Val (g (fold_left f l acc))
                           | Raised e => Exn e
                           end.
Proof.
  intros Hend Hstep Hmove Hread s l en Hr.
  induction Hr as [s s' Hm|s e Hm|s s' e Hm Hc|s s' a l en Hm Hc Hr IH]; intros acc.
  - apply evals_loop_return. eapply Hend; eauto.
  - apply evals_loop_exn. eapply Hmove; eauto.
  - apply evals_loop_exn. eapply Hread; eauto.
  - eapply evals_loop_continue; [eapply Hstep; eauto|]. apply IH.
Qed.

Lemma fold_left_snoc {A : Type} (l : list A) acc :
  fold_left (fun pairs a => pairs ++ [a]) l acc = acc ++ l.
Proof.
  revert acc. induction l as [|a l IH]; intros acc; simpl.
  - now rewrite app_nil_r.
  - rewrite IH. now rewrite <- app_assoc.
Qed.

(** [collect] reads the whole trace. *)
Lemma collect_runs {A : Type} (it : Iterator A) s l en :
  runs it s l en ->
  collect it s ~~> match en with Finished => Val l | Raised e => Exn e end.
Proof.
  intros Hr. unfold collect.
  pose proof (@loop_over_runs A (list A) (list A) it
    (fun '(s, pairs) =>
       '(more, s') <- moveNext it s ;;
       if more then cur <- getCurrent it s' ;; ret (inl (s', pairs ++ [cur]))
       else ret (inr pairs))
    (fun pairs a => pairs ++ [a]) (fun pairs => pairs)) as L.
  specialize (L ltac:(intros; eval_steps) ltac:(intros; eval_steps)
                ltac:(intros; eval_steps) ltac:(intros; eval_steps) s l en Hr []).
  rewrite fold_left_snoc in L. exact L.
Qed.

(** ** The source iterators *)

Lemma EmptyIterator_runs (A : Type) : traces (EmptyIterator A) [] Finished.
Proof. eapply runs_finished. simpl. apply evals_ret. Qed.

Lemma ArrayIterator_runs_from {A : Type} (arr pre suf : list A) :
  arr = pre ++ suf ->
  runs (ArrayIterator_machine arr) (Z.of_nat (List.length pre) - 1)%Z suf Finished.
Proof.
  revert pre. induction suf as [|a suf IH]; intros pre ->.
  - eapply runs_finished. simpl.
    rewrite app_nil_r.
    replace (Z.of_nat (List.length pre) - 1 + 1 <? Z.of_nat (List.length pre))%Z
      with false by (symmetry; apply Z.ltb_ge; lia).
    apply evals_ret.
  - assert (Hm : moveNext (ArrayIterator_machine (pre ++ a :: suf))
                   (Z.of_nat (List.length pre) - 1)%Z
                 ~~> Val (true, Z.of_nat (List.length pre))).
    { simpl.
      replace (Z.of_nat (List.length pre) - 1 + 1 <?
               Z.of_nat (List.length (pre ++ a :: suf)))%Z
        with true by (symmetry; apply Z.ltb_lt; rewrite length_app; simpl; lia).
      replace (Z.of_nat (List.length pre) - 1 + 1)%Z with (Z.of_nat (List.length pre)) by lia.
      apply evals_ret. }
    eapply runs_more; [exact Hm| |].
    + simpl.
      replace (Z.of_nat (List.length pre) <? 0)%Z with false
        by (symmetry; apply Z.ltb_ge; lia).
      rewrite Nat2Z.id, nth_error_app2, Nat.sub_diag by lia. simpl. apply evals_ret.
    + specialize (IH (pre ++ [a])). rewrite <- app_assoc in IH. simpl in IH.
      specialize (IH eq_refl). rewrite length_app in IH. simpl in IH.
      replace (Z.of_nat (List.length pre + 1) - 1)%Z with (Z.of_nat (List.length pre)) in IH by lia.
      exact IH.
Qed.

(** An array iterator runs through its array. *)
Lemma ArrayIterator_runs {A : Type} (arr : list A) : traces (ArrayIterator arr) arr Finished.
Proof. exact (@ArrayIterator_runs_from A arr [] arr eq_refl). Qed.

Lemma CountIterator_PairIterator_runs {V : Type} (it2 : Iterator V) s2 l :
  runs it2 s2 l Finished ->
  forall k, runs (PairIterator_machine CountIterator_machine it2) ((k - 1)%Z, s2)
                 (indexed_from k l) Finished.
Proof.
  intros Hr. remember Finished as en eqn:Een.
  induction Hr as [s s' Hm|s e Hm|s s' e Hm Hc|s s' a l en Hm Hc Hr IH]; intros k;
    try discriminate Een.
  - eapply runs_finished. simpl. eval_steps.
  - simpl. apply runs_more with (s' := (k, s')).
    + simpl. replace (k - 1 + 1)%Z with k by lia. eval_steps.
    + simpl. eval_steps.
    + replace k with (k + 1 - 1)%Z at 1 by lia. apply IH; assumption.
Qed.

(** Two finishing cursors zipped run the zip of their traces. *)
Lemma PairIterator_runs {A B : Type} (it1 : Iterator A) (it2 : Iterator B) s1 l1 :
  runs it1 s1 l1 Finished ->
  forall s2 l2, runs it2 s2 l2 Finished ->
  runs (PairIterator_machine it1 it2) (s1, s2) (combine l1 l2) Finished.
Proof.
  intros Hr. remember Finished as en eqn:Een.
  induction Hr as [s s' Hm|s e Hm|s s' e Hm Hc|s s' a l en Hm Hc Hr IH]; intros s2 l2 H2;
    try discriminate Een.
  - eapply runs_finished. simpl. eval_steps.
  - subst en.
    inversion H2 as [t t' Hm2|t e2 Hm2|t t' e2 Hm2 Hc2|t t' a2 l2' en3 Hm2 Hc2 Hr2]; subst.
    + simpl. eapply runs_finished. simpl. eval_steps.
    + simpl. eapply runs_more.
      * simpl. eval_steps.
      * simpl. eval_steps.
      * apply IH; auto.
Qed.

(** [Skip] drops the first [n] elements of a finishing trace. *)
Lemma SkipIterator_runs {A : Type} (it : Iterator A) s l :
  runs it s l Finished ->
  forall n, runs (SkipIterator_machine it) (s, n) (skipn n l) Finished.
Proof.
  intros Hr. remember Finished as en eqn:Een.
  induction Hr as [s s' Hm|s e Hm|s s' e Hm Hc|s s' a l en Hm Hc Hr IH]; intros n;
    try discriminate Een.
  - rewrite skipn_nil. destruct n; eapply runs_finished; simpl; eval_steps.
  - destruct n as [|n].
    + simpl skipn. eapply runs_more.
      * simpl. eval_steps.
      * simpl. eassumption.
      * specialize (IH Een 0). rewrite skipn_O in IH. exact IH.
    + simpl skipn. eapply runs_moveNext_like; [|apply (IH Een n)].
      intros r Hmv. simpl in *.
      eapply evals_bind_bind; [eassumption|]. cbn beta iota. exact Hmv.
Qed.

(** [Take] keeps the first [n] elements of a finishing trace. *)
Lemma TakeIterator_runs {A : Type} (it : Iterator A) s l :
  runs it s l Finished ->
  forall n, runs (TakeIterator_machine it) (s, n) (firstn n l) Finished.
Proof.
  intros Hr. remember Finished as en eqn:Een.
  induction Hr as [s s' Hm|s e Hm|s s' e Hm Hc|s s' a l en Hm Hc Hr IH]; intros n;
    try discriminate Een.
  - rewrite firstn_nil. destruct n; eapply runs_finished; simpl; eval_steps.
  - subst en. destruct n as [|n].
    + simpl. eapply runs_finished. simpl. eval_steps.
    + simpl firstn. eapply runs_more.
      * simpl. eval_steps.
      * simpl. eassumption.
      * apply IH; reflexivity.
Qed.

(** ** SkipWhile *)

(** Once [skipped] is set the iterator is a pass-through: the predicate does
    not occur in what it does. *)
Lemma SkipWhileIterator_runs_skipped {A : Type} (it : Iterator A) predicate s l en :
  runs it s l en ->
  runs (SkipWhileIterator_machine it predicate) (s, true) l en.
Proof.
  induction 1 as [s s' Hm|s e Hm|s s' e Hm Hc|s s' a l en Hm Hc Hr IH].
  - eapply runs_finished. simpl. apply evals_loop_return. eval_steps.
  - eapply runs_raised_moving. simpl. apply evals_loop_exn. eval_steps.
  - apply runs_raised_reading with (s' := (s', true)).
    + simpl. apply evals_loop_return. eval_steps.
    + simpl. assumption.
  - apply runs_more with (s' := (s', true)).
    + simpl. apply evals_loop_return. eval_steps.
    + simpl. assumption.
    + assumption.
Qed.

Lemma SkipWhileIterator_runs_skipping {A : Type} (it : Iterator A) predicate l1 :
  forall s x l2 en,
  runs it s (l1 ++ x :: l2) en ->
  (forall a, In a l1 -> predicate a ~~> Val true) ->
  predicate x ~~> Val false ->
  runs (SkipWhileIterator_machine it predicate) (s, false) (x :: l2) en.
Proof.
  induction l1 as [|a l1 IH]; intros s x l2 en Hr Htrue Hfalse.
  - simpl in Hr.
    inversion Hr as [| | |t t' a' l' en' Hm Hc Hr']; subst.
    apply runs_more with (s' := (t', true)).
    + simpl. apply evals_loop_return. eval_steps.
    + simpl. assumption.
    + now apply SkipWhileIterator_runs_skipped.
  - simpl in Hr.
    inversion Hr as [| | |t t' a' l' en' Hm Hc Hr']; subst.
    eapply runs_moveNext_like; [|eapply (IH t'); eauto using in_cons].
    intros r Hmv. simpl in *.
    eapply evals_loop_continue; [|exact Hmv].
    assert (Ha : predicate a ~~> Val true) by (apply Htrue; now left).
    eval_steps.
Qed.

(** When the predicate holds of every element, everything is skipped. *)
Lemma SkipWhileIterator_all_skipped {A : Type} (iterator : Cursor A) predicate l :
  traces iterator l Finished ->
  (forall a, In a l -> predicate a ~~> Val true) ->
  traces (SkipWhileIterator iterator predicate) [] Finished.
Proof.
  unfold traces. simpl. generalize (pos iterator) as s.
  induction l as [|a l IH]; intros s Hr Htrue.
  - inversion Hr as [t t' Hm| | |]; subst.
    apply runs_finished with (s' := (t', false)). simpl.
    apply evals_loop_return. eval_steps.
  - inversion Hr as [| | |t t' a' l' en' Hm Hc Hr']; subst.
    eapply runs_moveNext_like; [|eapply (IH t'); eauto using in_cons].
    intros r Hmv. simpl in *.
    eapply evals_loop_continue; [|exact Hmv].
    assert (Ha : predicate a ~~> Val true) by (apply Htrue; now left).
    eval_steps.
Qed.

(** C7. A SkipWhile cursor over an input that gives [l1 ++ x :: l2], where the
    predicate returns true on every element of [l1] and false on [x], gives
    [x :: l2]: it discards [l1], and from [x] on passes every element
    through. Nothing is asked of the predicate on [l2]: it may return true
    there, raise or not terminate, so it is not evaluated again. *)
Theorem SkipWhileIterator_passes_after_first_false :
  forall (A : Type) (iterator : Cursor A) (predicate : A -> M bool)
         (l1 : list A) (x : A) (l2 : list A) (en : ending),
    traces iterator (l1 ++ x :: l2) en ->
    (forall a, In a l1 -> predicate a ~~> Val true) ->
    predicate x ~~> Val false ->
    traces (SkipWhileIterator iterator predicate) (x :: l2) en.
Proof.
  intros A iterator predicate l1 x l2 en Hr Htrue Hfalse.
  unfold traces in *. simpl.
  now apply SkipWhileIterator_runs_skipping with (l1 := l1).
Qed.

(** The predicate of the witness: true on 1 and 2, false on 5, and an
    exception on anything else. *)
Lemma SkipWhileIterator_passes_after_first_false_witness :
  traces (SkipWhileIterator (ArrayIterator [1; 2; 5; 7; 1])
            (fun a => match a with
                      | 1 | 2 => ret true
                      | 5 => ret false
                      | _ => throw (Error "predicate called")
                      end))
         [5; 7; 1] Finished.
Proof.
  apply (@SkipWhileIterator_passes_after_first_false nat
           (ArrayIterator [1; 2; 5; 7; 1]) _ [1; 2] 5 [7; 1] Finished).
  - apply (ArrayIterator_runs [1; 2; 5; 7; 1]).
  - intros a [<-|[<-|[]]]; apply evals_ret.
  - apply evals_ret.
Defined.

(** ** Series and DataFrame as sources of pairs *)

Lemma evals_ret_inv {A : Type} (a b : A) : ret a ~~> Val b -> a = b.
Proof.
  intros H. pose proof (evals_det H (evals_ret a)) as E. now injection E.
Qed.

(** A Series over an array of values numbers them from 0. *)
Lemma Series_of_values_yields {V : Type} (values : list V) s :
  Series_of_values values ~~> Val s ->
  Series_yields s (indexed_from 0 values).
Proof.
  intros H. apply evals_ret_inv in H. subst s.
  exists (PairIterator CountIterator (ArrayIterator values)). split.
  - simpl. eval_steps.
  - apply (CountIterator_PairIterator_runs (ArrayIterator_runs values) 0).
Qed.

(** A Series over an array of values and an array index pairs them up. *)
Lemma Series_of_index_values_yields {V : Type} (index : list value) (values : list V) s :
  Series_of_index_values index values ~~> Val s ->
  Series_yields s (combine index values).
Proof.
  intros H. apply evals_ret_inv in H. subst s.
  exists (PairIterator (ArrayIterator index) (ArrayIterator values)). split.
  - simpl. eval_steps.
  - apply (PairIterator_runs (ArrayIterator_runs index) (ArrayIterator_runs values)).
Qed.

Lemma Series_skip_yields {V : Type} (self : Series V) l n s :
  Series_yields self l ->
  Series_skip self n ~~> Val s ->
  Series_yields s (skipn n l).
Proof.
  intros (iterator & Hg & Hr) H. apply evals_ret_inv in H. subst s.
  exists (SkipIterator iterator n). split.
  - simpl in *. eval_steps.
  - apply SkipIterator_runs. exact Hr.
Qed.

Lemma Series_take_yields {V : Type} (self : Series V) l n s :
  Series_yields self l ->
  Series_take self n ~~> Val s ->
  Series_yields s (firstn n l).
Proof.
  intros (iterator & Hg & Hr) H. apply evals_ret_inv in H. subst s.
  exists (TakeIterator iterator n). split.
  - simpl in *. eval_steps.
  - apply TakeIterator_runs. exact Hr.
Qed.

Lemma fold_left_present {V : Type} `{Absentable V} (l : list (pair V)) acc :
  fold_left (fun pairs pair => if is_absent (snd pair) then pairs else pairs ++ [pair]) l acc
  = acc ++ present l.
Proof.
  revert acc. induction l as [|p l IH]; intros acc; simpl.
  - now rewrite app_nil_r.
  - rewrite IH. unfold present. simpl.
    destruct (is_absent (snd p)); simpl; [reflexivity|now rewrite <- app_assoc].
Qed.

Lemma fold_left_present_values {V : Type} `{Absentable V} (l : list (pair V)) acc :
  fold_left (fun values (cur : pair V) =>
               if is_absent (snd cur) then values else values ++ [snd cur]) l acc
  = acc ++ map snd (present l).
Proof.
  revert acc. induction l as [|p l IH]; intros acc; simpl.
  - now rewrite app_nil_r.
  - rewrite IH. unfold present. simpl.
    destruct (is_absent (snd p)); simpl; [reflexivity|now rewrite <- app_assoc].
Qed.

(** [Series.toPairs] keeps, in order, the pairs whose value is not absent. *)
Lemma Series_toPairs_traces {V : Type} `{Absentable V} (self : Series V) iterator l en :
  Series_getIterator self ~~> Val iterator ->
  traces iterator l en ->
  Series_toPairs self ~~> match en with Finished => Val (present l) | Raised e => Exn e end.
Proof.
  intros Hg Hr. unfold Series_toPairs.
  eval_step. eval_step. eval_step.
  pose proof (@loop_over_runs _ (list (pair V)) (list (pair V)) (machine iterator)
    (fun '(s, pairs) =>
       '(more, s') <- moveNext (machine iterator) s ;;
       if more then
         pair <- getCurrent (machine iterator) s' ;;
         ret (inl (s', if is_absent (snd pair) then pairs else pairs ++ [pair]))
       else ret (inr pairs))
    (fun pairs pair => if is_absent (snd pair) then pairs else pairs ++ [pair])
    (fun pairs => pairs)) as L.
  specialize (L ltac:(intros; eval_steps) ltac:(intros; eval_steps)
                ltac:(intros; eval_steps) ltac:(intros; eval_steps) _ _ _ Hr []).
  destruct en; [rewrite fold_left_present in L|]; exact L.
Qed.

Lemma Series_toPairs_yields {V : Type} `{Absentable V} (self : Series V) l :
  Series_yields self l -> Series_toPairs self ~~> Val (present l).
Proof.
  intros (iterator & Hg & Hr). exact (Series_toPairs_traces self Hg Hr).
Qed.

(** [Series.toValues] keeps, in order, the values that are not absent. *)
Lemma Series_toValues_traces {V : Type} `{Absentable V} (self : Series V) iterator l en :
  Series_getIterator self ~~> Val iterator ->
  traces iterator l en ->
  Series_toValues self
    ~~> match en with Finished => Val (map snd (present l)) | Raised e => Exn e end.
Proof.
  intros Hg Hr. unfold Series_toValues.
  eval_step. eval_step. eval_step.
  pose proof (@loop_over_runs _ (list V) (list V) (machine iterator)
    (fun '(s, values) =>
       '(more, s') <- moveNext (machine iterator) s ;;
       if more then
         cur <- getCurrent (machine iterator) s' ;;
         let value := snd cur in
         ret (inl (s', if is_absent value then values else values ++ [value]))
       else ret (inr values))
    (fun values cur => if is_absent (snd cur) then values else values ++ [snd cur])
    (fun values => values)) as L.
  specialize (L ltac:(intros; eval_steps) ltac:(intros; eval_steps)
                ltac:(intros; eval_steps) ltac:(intros; eval_steps) _ _ _ Hr []).
  destruct en; [rewrite fold_left_present_values in L|]; exact L.
Qed.

Lemma Series_toValues_yields {V : Type} `{Absentable V} (self : Series V) l :
  Series_yields self l -> Series_toValues self ~~> Val (map snd (present l)).
Proof.
  intros (iterator & Hg & Hr). exact (Series_toValues_traces self Hg Hr).
Qed.

(** [DataFrame.toPairs] returns every pair, in order. *)
Lemma DataFrame_toPairs_traces (self : DataFrame) iterator l en :
  DataFrame_getIterator self ~~> Val iterator ->
  traces iterator l en ->
  DataFrame_toPairs self ~~> match en with Finished => Val l | Raised e => Exn e end.
Proof.
  intros Hg Hr. unfold DataFrame_toPairs.
  eval_step. eval_step. eval_step.
  pose proof (@loop_over_runs _ (list (pair value)) (list (pair value)) (machine iterator)
    (fun '(s, pairs) =>
       '(more, s') <- moveNext (machine iterator) s ;;
       if more then
         cur <- getCurrent (machine iterator) s' ;;
         ret (inl (s', pairs ++ [cur]))
       else ret (inr pairs))
    (fun pairs cur => pairs ++ [cur])
    (fun pairs => pairs)) as L.
  specialize (L ltac:(intros; eval_steps) ltac:(intros; eval_steps)
                ltac:(intros; eval_steps) ltac:(intros; eval_steps) _ _ _ Hr []).
  destruct en; [rewrite fold_left_snoc in L|]; exact L.
Qed.

Lemma DataFrame_toPairs_yields (self : DataFrame) l :
  DataFrame_yields self l -> DataFrame_toPairs self ~~> Val l.
Proof.
  intros (iterator & Hg & Hr). exact (DataFrame_toPairs_traces self Hg Hr).
Qed.

(** ** Materialisation *)

(** C2, as the code has it. [Series.toPairs] returns the pairs of the
    pipeline in source order without those whose value is absent, and
    [Series.toValues] the values that are not absent; [DataFrame.toPairs]
    returns every pair of the pipeline in source order and removes nothing. *)
Theorem toPairs_Series_drops_absent_DataFrame_keeps_all :
  forall (V : Type) (absent : Absentable V) (self : Series V) (l : list (pair V))
         (frame : DataFrame) (rows : list (pair value)),
    Series_yields self l ->
    DataFrame_yields frame rows ->
    Series_toPairs self ~~> Val (present l) /\
    Series_toValues self ~~> Val (map snd (present l)) /\
    DataFrame_toPairs frame ~~> Val rows.
Proof.
  intros V absent self l frame rows Hs Hf. repeat split.
  - now apply Series_toPairs_yields.
  - now apply Series_toValues_yields.
  - now apply DataFrame_toPairs_yields.
Qed.

(** [new DataFrame({ rows: rows })] for an array of rows. *)
Lemma DataFrame_of_rows_yields (rows : list value) frame :
  DataFrame_new (Some {| config_df_iterable := None;
                         config_columnNames := None;
                         config_considerAllRows := false;
                         config_rows := Some (RowsArray rows);
                         config_columns := None;
                         config_df_index := None;
                         config_debug := false;
                         config_df_values := None |}) ~~> Val frame ->
  DataFrame_yields frame (indexed_from 0 rows).
Proof.
  intros H. exists (PairIterator CountIterator (ArrayIterator rows)). split.
  - destruct rows as [|first rest]; simpl in H.
    + apply evals_ret_inv in H. subst frame. simpl. eval_steps.
    + destruct first; simpl in H;
        try (pose proof (evals_det H (evals_throw _)) as E; discriminate E).
      apply evals_ret_inv in H. subst frame. simpl. eval_steps.
  - apply (CountIterator_PairIterator_runs (ArrayIterator_runs rows) 0).
Qed.

(** A Series and a DataFrame over explicit pairs, for the witnesses. *)
Lemma example_Series_yields :
  Series_yields {| __iterable := ArrayIterable [(VNum 0, VStr "a"); (VNum 1, VUndefined)] |}
                [(VNum 0, VStr "a"); (VNum 1, VUndefined)].
Proof.
  exists (ArrayIterator [(VNum 0, VStr "a"); (VNum 1, VUndefined)]). split.
  - simpl. apply evals_ret.
  - apply ArrayIterator_runs.
Qed.

Lemma example_DataFrame_yields :
  DataFrame_yields {| _columnNames := ["a"];
                      DataFrame_getIterator :=
                        ret (ArrayIterator [(VNum 0, VObj [("a", VNum 1)])]) |}
                   [(VNum 0, VObj [("a", VNum 1)])].
Proof.
  eexists. split.
  - simpl. apply evals_ret.
  - apply ArrayIterator_runs.
Qed.

Lemma toPairs_Series_drops_absent_DataFrame_keeps_all_witness :
  Series_toPairs {| __iterable := ArrayIterable [(VNum 0, VStr "a"); (VNum 1, VUndefined)] |}
    ~~> Val [(VNum 0, VStr "a")] /\
  Series_toValues {| __iterable := ArrayIterable [(VNum 0, VStr "a"); (VNum 1, VUndefined)] |}
    ~~> Val [VStr "a"] /\
  DataFrame_toPairs {| _columnNames := ["a"];
                       DataFrame_getIterator :=
                         ret (ArrayIterator [(VNum 0, VObj [("a", VNum 1)])]) |}
    ~~> Val [(VNum 0, VObj [("a", VNum 1)])].
Proof.
  exact (toPairs_Series_drops_absent_DataFrame_keeps_all (V := value) _
           example_Series_yields example_DataFrame_yields).
Defined.

(** C2 as stated fails for DataFrame: the frame
    [new DataFrame({ rows: [{ a: 1 }, undefined] })] has a pair whose value is
    absent, and [toPairs] returns it. *)
Lemma DataFrame_toPairs_keeps_absent_pair :
  exists frame,
    DataFrame_new (Some {| config_df_iterable := None;
                           config_columnNames := None;
                           config_considerAllRows := false;
                           config_rows := Some (RowsArray [VObj [("a", VNum 1)]; VUndefined]);
                           config_columns := None;
                           config_df_index := None;
                           config_debug := false;
                           config_df_values := None |}) ~~> Val frame /\
    DataFrame_toPairs frame ~~> Val [(VNum 0, VObj [("a", VNum 1)]); (VNum 1, VUndefined)] /\
    ~ DataFrame_toPairs frame ~~> Val (present [(VNum 0, VObj [("a", VNum 1)]); (VNum 1, VUndefined)]).
Proof.
  eexists. split; [simpl; eval_steps|].
  match goal with |- ?P /\ _ => assert (Hp : P) end.
  { apply DataFrame_toPairs_yields.
    apply (@DataFrame_of_rows_yields [VObj [("a", VNum 1)]; VUndefined]).
    simpl. eval_steps. }
  split; [exact Hp|].
  intros Hq. pose proof (evals_det Hp Hq) as E. discriminate E.
Qed.

(** ** Aggregation of an empty Series *)

Lemma traces_nil_moveNext {A : Type} (iterator : Cursor A) :
  traces iterator [] Finished ->
  exists s', moveNext (machine iterator) (pos iterator) ~~> Val (false, s').
Proof.
  intros Hr. inversion Hr as [s s' Hm| | |]; subst. now exists s'.
Qed.

Lemma Series_first_empty {V : Type} (self : Series V) :
  Series_yields self [] -> Series_first self ~~> Exn (Error "No values in Series.").
Proof.
  intros (iterator & Hg & Hr). destruct (traces_nil_moveNext Hr) as [s' Hm].
  unfold Series_first. simpl in Hg. eval_steps.
Qed.

Lemma Series_aggregate_empty {V : Type} (self : Series V) selector :
  Series_yields self [] ->
  Series_aggregate self selector ~~> Exn (Error "No values in Series.").
Proof.
  intros Hy. unfold Series_aggregate.
  eapply evals_bind; [apply evals_ret|]. cbn beta.
  apply evals_bind_exn. now apply Series_first_empty.
Qed.

(** C5. On a Series that yields no pair: [sum] returns 0, [average] returns 0,
    and [min], [max], [first], [last], [firstPair], [lastPair] each raise
    the error "No values in Series.". *)
Theorem Series_empty_aggregates :
  forall (js_add js_div Math_min Math_max : value -> value -> value)
         (self : Series value),
    Series_yields self [] ->
    Series_sum js_add self ~~> Val (VNum 0) /\
    Series_average js_add js_div self ~~> Val (VNum 0) /\
    Series_min Math_min self ~~> Exn (Error "No values in Series.") /\
    Series_max Math_max self ~~> Exn (Error "No values in Series.") /\
    Series_first self ~~> Exn (Error "No values in Series.") /\
    Series_last self ~~> Exn (Error "No values in Series.") /\
    Series_firstPair self ~~> Exn (Error "No values in Series.") /\
    Series_lastPair self ~~> Exn (Error "No values in Series.").
Proof.
  intros js_add js_div Math_min Math_max self Hy.
  pose proof Hy as (iterator & Hg & Hr).
  destruct (traces_nil_moveNext Hr) as [s' Hm]. simpl in Hg.
  repeat split.
  - unfold Series_sum, Series_none. eval_steps.
  - unfold Series_average, Series_count.
    eapply evals_bind.
    + eval_step. apply evals_loop_return. eval_steps.
    + cbn. apply evals_ret.
  - now apply Series_aggregate_empty.
  - now apply Series_aggregate_empty.
  - now apply Series_first_empty.
  - unfold Series_last. eval_steps.
  - unfold Series_firstPair. eval_steps.
  - unfold Series_lastPair. eval_steps.
Qed.

Lemma Series_new_empty_yields (V : Type) s :
  @Series_new V None ~~> Val s -> Series_yields s [].
Proof.
  intros H. apply evals_ret_inv in H. subst s.
  exists (EmptyIterator (pair V)). split.
  - simpl. apply evals_ret.
  - apply EmptyIterator_runs.
Qed.

(** The witness: [new Series()], with host operations that answer
    [undefined]. *)
Lemma Series_empty_aggregates_witness :
  let self := {| __iterable := EmptyIterable (pair value) |} in
  let op := fun _ _ : value => VUndefined in
  Series_sum op self ~~> Val (VNum 0) /\
  Series_average op op self ~~> Val (VNum 0) /\
  Series_min op self ~~> Exn (Error "No values in Series.") /\
  Series_max op self ~~> Exn (Error "No values in Series.") /\
  Series_first self ~~> Exn (Error "No values in Series.") /\
  Series_last self ~~> Exn (Error "No values in Series.") /\
  Series_firstPair self ~~> Exn (Error "No values in Series.") /\
  Series_lastPair self ~~> Exn (Error "No values in Series.").
Proof.
  intros self op.
  apply (Series_empty_aggregates op op op op (self := self)).
  apply (@Series_new_empty_yields value). apply evals_ret.
Defined.

(** ** Column lookup *)

Lemma DataFrame_getColumnIndex_from_missing columnNames columnName i :
  ~ In columnName columnNames ->
  DataFrame_getColumnIndex_from columnNames columnName i = (-1)%Z.
Proof.
  revert i. induction columnNames as [|name rest IH]; intros i Hnot; simpl.
  - reflexivity.
  - destruct (String.eqb_spec columnName name) as [->|Hne].
    + exfalso. apply Hnot. now left.
    + apply IH. intros Hin. apply Hnot. now right.
Qed.

(** On a declared name the scan answers the first position that holds it. *)
Lemma DataFrame_getColumnIndex_from_first columnNames columnName i :
  In columnName columnNames ->
  exists k,
    DataFrame_getColumnIndex_from columnNames columnName i = (i + Z.of_nat k)%Z /\
    nth_error columnNames k = Some columnName /\
    forall j, j < k -> nth_error columnNames j <> Some columnName.
Proof.
  revert i. induction columnNames as [|name rest IH]; intros i Hin; simpl.
  - destruct Hin.
  - destruct (String.eqb_spec columnName name) as [->|Hne].
    + exists 0. repeat split; [lia|]. intros j Hj. lia.
    + destruct Hin as [->|Hin]; [congruence|].
      destruct (IH (i + 1)%Z Hin) as (k & Hk & Hnth & Hfirst).
      exists (Datatypes.S k). repeat split.
      * rewrite Hk. lia.
      * exact Hnth.
      * intros [|j] Hj; simpl; [congruence|]. apply Hfirst. lia.
Qed.

Lemma NoDup_nth_error_first {A : Type} (l : list A) j k a :
  NoDup l -> nth_error l j = Some a -> nth_error l k = Some a -> j = k.
Proof.
  intros Hnd Hj Hk.
  apply (proj1 (NoDup_nth_error l) Hnd).
  - apply nth_error_Some. congruence.
  - congruence.
Qed.

Lemma DataFrame_getColumnName_at (self : DataFrame) k name :
  nth_error (_columnNames self) k = Some name ->
  DataFrame_getColumnName self (VNum (Z.of_nat k)) ~~> Val (VStr name).
Proof.
  intros Hnth. unfold DataFrame_getColumnName, DataFrame_getColumnNames. simpl.
  assert (Hlt : k < List.length (_columnNames self)) by (apply nth_error_Some; congruence).
  replace (Z.of_nat k <? 0)%Z with false by (symmetry; apply Z.ltb_ge; lia).
  replace (Z.of_nat k >=? Z.of_nat (List.length (_columnNames self)))%Z with false
    by (symmetry; rewrite Z.geb_leb; apply Z.leb_gt; lia).
  simpl. rewrite Nat2Z.id, Hnth. apply evals_ret.
Qed.

(** C10, as the code has it. Neither lookup throws on a missing column:
    [getColumnIndex] returns -1 for a string that is not a column name, and
    [getColumnName] returns undefined for a number outside
    [0, number of columns) (and for a number that is not an integer). The
    index of a declared name leads back to the name. The name at an index in
    range leads back to the first index that holds this name: an index that
    is not greater, at which [getColumnName] returns the same name, and the
    index itself when the column names of the frame are unique. *)
Theorem DataFrame_column_lookup_total_and_inverse :
  forall (self : DataFrame),
    (forall name, ~ In name (DataFrame_getColumnNames self) ->
       DataFrame_getColumnIndex self (VStr name) ~~> Val (VNum (-1))) /\
    (forall z, (z < 0 \/ Z.of_nat (List.length (DataFrame_getColumnNames self)) <= z)%Z ->
       DataFrame_getColumnName self (VNum z) ~~> Val VUndefined) /\
    (forall repr, DataFrame_getColumnName self (VOther "number" repr) ~~> Val VUndefined) /\
    (forall name, In name (DataFrame_getColumnNames self) ->
       exists k,
         (0 <= k < Z.of_nat (List.length (DataFrame_getColumnNames self)))%Z /\
         DataFrame_getColumnIndex self (VStr name) ~~> Val (VNum k) /\
         DataFrame_getColumnName self (VNum k) ~~> Val (VStr name)) /\
    (forall name k,
       DataFrame_getColumnIndex self (VStr name) ~~> Val (VNum k) -> k <> (-1)%Z ->
       DataFrame_getColumnName self (VNum k) ~~> Val (VStr name)) /\
    (forall k,
       (0 <= k < Z.of_nat (List.length (DataFrame_getColumnNames self)))%Z ->
       exists name j,
         DataFrame_getColumnName self (VNum k) ~~> Val (VStr name) /\
         DataFrame_getColumnIndex self (VStr name) ~~> Val (VNum j) /\
         (0 <= j <= k)%Z /\
         DataFrame_getColumnName self (VNum j) ~~> Val (VStr name) /\
         (NoDup (DataFrame_getColumnNames self) -> j = k)).
Proof.
  intros self. unfold DataFrame_getColumnNames.
  assert (Hin : forall name, In name (_columnNames self) ->
            exists k,
              (0 <= k < Z.of_nat (List.length (_columnNames self)))%Z /\
              DataFrame_getColumnIndex self (VStr name) ~~> Val (VNum k) /\
              DataFrame_getColumnName self (VNum k) ~~> Val (VStr name)).
  { intros name Hname.
    destruct (DataFrame_getColumnIndex_from_first (_columnNames self) name 0 Hname)
      as (k & Hk & Hnth & _).
    exists (Z.of_nat k). repeat split.
    - lia.
    - apply Nat2Z.inj_lt, nth_error_Some. congruence.
    - unfold DataFrame_getColumnIndex, DataFrame_getColumnNames. rewrite Hk. apply evals_ret.
    - now apply DataFrame_getColumnName_at. }
  split; [|split; [|split; [|split; [|split]]]].
  - intros name Hnot. unfold DataFrame_getColumnIndex, DataFrame_getColumnNames.
    rewrite DataFrame_getColumnIndex_from_missing by assumption. apply evals_ret.
  - intros z Hz. unfold DataFrame_getColumnName, DataFrame_getColumnNames. simpl.
    replace ((z <? 0) || (z >=? Z.of_nat (List.length (_columnNames self))))%Z with true.
    + apply evals_ret.
    + symmetry. apply orb_true_iff. destruct Hz as [Hz|Hz].
      * left. now apply Z.ltb_lt.
      * right. rewrite Z.geb_leb. apply Z.leb_le. exact Hz.
  - intros repr. apply evals_ret.
  - exact Hin.
  - intros name k Hidx Hk.
    destruct (in_dec string_dec name (_columnNames self)) as [Hname|Hnot].
    + destruct (Hin name Hname) as (k' & _ & Hidx' & Hname').
      pose proof (evals_det Hidx Hidx') as E. injection E as ->. exact Hname'.
    + exfalso. apply Hk.
      assert (Hm : DataFrame_getColumnIndex self (VStr name) ~~> Val (VNum (-1))).
      { unfold DataFrame_getColumnIndex, DataFrame_getColumnNames.
        rewrite DataFrame_getColumnIndex_from_missing by assumption. apply evals_ret. }
      pose proof (evals_det Hidx Hm) as E. now injection E.
  - intros k Hk.
    destruct (nth_error (_columnNames self) (Z.to_nat k)) as [name|] eqn:Hnth;
      [|apply nth_error_None in Hnth; lia].
    assert (Hname_in : In name (_columnNames self)) by (eapply nth_error_In; eauto).
    destruct (DataFrame_getColumnIndex_from_first (_columnNames self) name 0 Hname_in)
      as (j & Hj & Hjnth & Hfirst).
    assert (Hjk : j <= Z.to_nat k).
    { destruct (le_lt_dec j (Z.to_nat k)) as [Hle|Hlt]; [exact Hle|].
      exfalso. exact (Hfirst _ Hlt Hnth). }
    exists name, (Z.of_nat j).
    split; [|split; [|split; [|split]]].
    + pose proof (DataFrame_getColumnName_at self (Z.to_nat k) Hnth) as H'.
      rewrite Z2Nat.id in H' by lia. exact H'.
    + unfold DataFrame_getColumnIndex, DataFrame_getColumnNames. rewrite Hj. apply evals_ret.
    + lia.
    + now apply DataFrame_getColumnName_at.
    + intros Hnd. pose proof (NoDup_nth_error_first _ _ Hnd Hjnth Hnth) as ->. lia.
Qed.

(** C10 as stated fails on a frame with a repeated column name, which the
    constructor accepts: in
    [new DataFrame({ columnNames: ["a", "b", "a"], rows: [] })] the name at
    index 2 is "a" and the index of "a" is 0, so the two lookups are not
    inverse of each other at the declared column 2. *)
Lemma DataFrame_column_lookup_not_inverse_on_repeated_name :
  exists frame,
    DataFrame_new (Some {| config_df_iterable := None;
                           config_columnNames := Some ["a"; "b"; "a"];
                           config_considerAllRows := false;
                           config_rows := Some (RowsArray []);
                           config_columns := None;
                           config_df_index := None;
                           config_debug := false;
                           config_df_values := None |}) ~~> Val frame /\
    DataFrame_getColumnNames frame = ["a"; "b"; "a"] /\
    DataFrame_getColumnName frame (VNum 2) ~~> Val (VStr "a") /\
    DataFrame_getColumnIndex frame (VStr "a") ~~> Val (VNum 0) /\
    ~ DataFrame_getColumnIndex frame (VStr "a") ~~> Val (VNum 2).
Proof.
  eexists. split; [simpl; eval_steps|].
  split; [reflexivity|]. split; [apply evals_ret|].
  match goal with |- ?P /\ _ => assert (Hp : P) by apply evals_ret end.
  split; [exact Hp|].
  intros Hq. pose proof (evals_det Hp Hq) as E. discriminate E.
Qed.

(** ** Reverse *)

Lemma Series_reverse_yields {V : Type} (self : Series V) l r :
  Series_yields self l ->
  Series_reverse self ~~> Val r ->
  Series_yields r (rev l).
Proof.
  intros (iterator & Hg & Hr) H. apply evals_ret_inv in H. subst r.
  pose proof (collect_runs Hr) as Hc. simpl in Hc, Hg.
  exists (ArrayIterator (rev l)). split.
  - simpl. eval_steps.
  - apply ArrayIterator_runs.
Qed.

Lemma DataFrame_reverse_yields (self : DataFrame) rows :
  DataFrame_yields self rows ->
  exists r, DataFrame_reverse self ~~> Val r /\
            DataFrame_yields r (rev rows) /\
            DataFrame_getColumnNames r = DataFrame_getColumnNames self.
Proof.
  intros (iterator & Hg & Hr).
  pose proof (collect_runs Hr) as Hc. simpl in Hc.
  eexists. split; [|split].
  - unfold DataFrame_reverse, DataFrame_of_iterable. simpl. eval_steps.
  - exists (ArrayIterator (rev rows)). split.
    + simpl. eval_steps.
    + apply ArrayIterator_runs.
  - reflexivity.
Qed.

(** C8. Reversing twice gives back the pairs of the pipeline, in the same
    order: for a Series that yields [l], [self.reverse()] yields [rev l] and
    [self.reverse().reverse()] yields [l]; the same for a DataFrame, whose
    column names are kept as well. *)
Theorem reverse_involution :
  forall (V : Type) (self : Series V) (l : list (pair V))
         (frame : DataFrame) (rows : list (pair value)),
    Series_yields self l ->
    DataFrame_yields frame rows ->
    (exists r rr,
       Series_reverse self ~~> Val r /\ Series_reverse r ~~> Val rr /\
       Series_yields r (rev l) /\ Series_yields rr l) /\
    (exists r rr,
       DataFrame_reverse frame ~~> Val r /\ DataFrame_reverse r ~~> Val rr /\
       DataFrame_yields r (rev rows) /\ DataFrame_yields rr rows /\
       DataFrame_getColumnNames rr = DataFrame_getColumnNames frame).
Proof.
  intros V self l frame rows Hs Hf. split.
  - eexists. eexists.
    assert (H1 : Series_reverse self ~~> Val _) by apply evals_ret.
    assert (H2 : forall r : Series V, Series_reverse r ~~> Val _) by (intros r; apply evals_ret).
    split; [exact H1|]. split; [apply H2|].
    pose proof (Series_reverse_yields Hs H1) as Hr.
    split; [exact Hr|].
    rewrite <- (rev_involutive l). exact (Series_reverse_yields Hr (H2 _)).
  - destruct (DataFrame_reverse_yields Hf) as (r & H1 & Hr & Hc).
    destruct (DataFrame_reverse_yields Hr) as (rr & H2 & Hrr & Hcc).
    exists r, rr. rewrite rev_involutive in Hrr.
    repeat split; auto. congruence.
Qed.

Lemma reverse_involution_witness :
  let self := {| __iterable := ArrayIterable [(VNum 0, VStr "a"); (VNum 1, VUndefined)] |} in
  let frame := {| _columnNames := ["a"];
                  DataFrame_getIterator :=
                    ret (ArrayIterator [(VNum 0, VObj [("a", VNum 1)])]) |} in
  (exists r rr,
     Series_reverse self ~~> Val r /\ Series_reverse r ~~> Val rr /\
     Series_yields r (rev [(VNum 0, VStr "a"); (VNum 1, VUndefined)]) /\
     Series_yields rr [(VNum 0, VStr "a"); (VNum 1, VUndefined)]) /\
  (exists r rr,
     DataFrame_reverse frame ~~> Val r /\ DataFrame_reverse r ~~> Val rr /\
     DataFrame_yields r (rev [(VNum 0, VObj [("a", VNum 1)])]) /\
     DataFrame_yields rr [(VNum 0, VObj [("a", VNum 1)])] /\
     DataFrame_getColumnNames rr = DataFrame_getColumnNames frame).
Proof.
  intros self frame.
  exact (reverse_involution example_Series_yields example_DataFrame_yields).
Defined.

(** ** Element-wise selection and the parse functions *)

(** [SelectValues] maps the selector over the values and keeps the indexes. *)
Lemma SelectValuesIterator_runs {V W : Type} (it : Iterator (pair V))
    (selector : V -> value -> M W) s l en :
  runs it s l en ->
  forall out,
    Forall2 (fun p q => fst q = fst p /\ selector (snd p) (fst p) ~~> Val (snd q)) l out ->
    runs (SelectValuesIterator_machine it selector) s out en.
Proof.
  induction 1 as [s s' Hm|s e Hm|s s' e Hm Hc|s s' a l en Hm Hc Hr IH]; intros out Hout.
  - inversion Hout; subst. eapply runs_finished. simpl. eassumption.
  - inversion Hout; subst. eapply runs_raised_moving. simpl. eassumption.
  - inversion Hout; subst. eapply runs_raised_reading; simpl; [eassumption|].
    eval_steps.
  - inversion Hout as [|p q l' out' [Hi Hq] Hrest]; subst.
    eapply runs_more; simpl; [eassumption| |apply IH; assumption].
    eval_steps. destruct q as [qi qv]. simpl in *. subst qi. apply evals_ret.
Qed.

(** [SelectValues] raises what the selector raises, at the first pair where it
    does, after the pairs before it. *)
Lemma SelectValuesIterator_raises {V W : Type} (it : Iterator (pair V))
    (selector : V -> value -> M W) l1 :
  forall s p l2 en e out,
    runs it s (l1 ++ p :: l2) en ->
    Forall2 (fun p q => fst q = fst p /\ selector (snd p) (fst p) ~~> Val (snd q)) l1 out ->
    selector (snd p) (fst p) ~~> Exn e ->
    runs (SelectValuesIterator_machine it selector) s out (Raised e).
Proof.
  induction l1 as [|a l1 IH]; intros s p l2 en e out Hr Hout He.
  - inversion Hout; subst. simpl in Hr.
    inversion Hr as [| | |t t' a' l' en' Hm Hc Hr']; subst.
    eapply runs_raised_reading; simpl; [eassumption|]. eval_steps.
  - inversion Hout as [|a' q l' out' [Hi Hq] Hrest]; subst. simpl in Hr.
    inversion Hr as [| | |t t' a'' l'' en' Hm Hc Hr']; subst.
    eapply runs_more; simpl; [eassumption| |eapply IH; eassumption].
    eval_steps. destruct q as [qi qv]. simpl in *. subst qi. apply evals_ret.
Qed.

Section Parsing.

Variable parse : string -> value.
Variable fn : string.

Lemma parse_selector_accepts v i :
  absent_or_string v = true -> parse_selector parse fn v i ~~> Val (parsed_value parse v).
Proof.
  unfold parse_selector, absent_or_string.
  destruct v; simpl; try discriminate; intros _; try apply evals_ret.
  destruct (String.length s =? 0)%nat; apply evals_ret.
Qed.

Lemma parse_selector_rejects v i :
  absent_or_string v = false -> parse_selector parse fn v i ~~> Exn (parse_error fn v i).
Proof.
  unfold parse_selector, absent_or_string.
  destruct v; simpl; try discriminate; intros _; apply evals_throw.
Qed.

Lemma parse_selector_Forall2 l :
  Forall (fun p : pair value => absent_or_string (snd p) = true) l ->
  Forall2 (fun p q : pair value =>
             fst q = fst p /\ parse_selector parse fn (snd p) (fst p) ~~> Val (snd q))
          l (map (fun p => (fst p, parsed_value parse (snd p))) l).
Proof.
  induction 1 as [|p l Hp Hl IH]; simpl; constructor; auto.
  split; [reflexivity|]. simpl. now apply parse_selector_accepts.
Qed.

(** A Series of accepted values parses element by element. *)
Lemma parse_select_yields (self : Series value) l parsed :
  Series_select self (parse_selector parse fn) ~~> Val parsed ->
  Series_yields self l ->
  Forall (fun p : pair value => absent_or_string (snd p) = true) l ->
  Series_yields parsed (map (fun p => (fst p, parsed_value parse (snd p))) l).
Proof.
  intros H (iterator & Hg & Hr) Hl. apply evals_ret_inv in H. subst parsed.
  eexists. split.
  - simpl in *. eval_steps.
  - unfold traces. simpl. eapply SelectValuesIterator_runs; [exact Hr|].
    now apply parse_selector_Forall2.
Qed.

(** At the first value that is neither absent nor a string, the parsed Series
    raises, after the parsed pairs before it. *)
Lemma parse_select_raises (self : Series value) l1 i v l2 parsed :
  Series_select self (parse_selector parse fn) ~~> Val parsed ->
  Series_yields self (l1 ++ (i, v) :: l2) ->
  Forall (fun p : pair value => absent_or_string (snd p) = true) l1 ->
  absent_or_string v = false ->
  Series_raises parsed (map (fun p => (fst p, parsed_value parse (snd p))) l1)
                (parse_error fn v i).
Proof.
  intros H (iterator & Hg & Hr) Hl Hv. apply evals_ret_inv in H. subst parsed.
  eexists. split.
  - simpl in *. eval_steps.
  - unfold traces. simpl. eapply SelectValuesIterator_raises; [exact Hr| |].
    + now apply parse_selector_Forall2.
    + simpl. now apply parse_selector_rejects.
Qed.

End Parsing.

Lemma Series_toValues_raises {V : Type} `{Absentable V} (self : Series V) l e :
  Series_raises self l e -> Series_toValues self ~~> Exn e.
Proof.
  intros (iterator & Hg & Hr). exact (Series_toValues_traces self Hg Hr).
Qed.

Lemma parsed_value_cases (parse : string -> value) :
  parsed_value parse VUndefined = VUndefined /\
  parsed_value parse (VStr "") = VUndefined /\
  forall s, s <> "" -> parsed_value parse (VStr s) = parse s.
Proof.
  repeat split. intros s Hs. destruct s; [congruence|reflexivity].
Qed.

(** C6. [parseInts] and [parseFloats] never fail when they are called: each
    returns a new Series. That Series is element-wise: over accepted values
    it keeps every index, leaves an absent value absent, turns the empty
    string into absent and any other string into its parsed number. A value
    that is neither absent nor a string makes it raise when it is evaluated:
    its cursor gives the parsed pairs before that value and then raises, and
    so does [toValues]. *)
Theorem parse_elementwise_raising_on_evaluation :
  forall (parseInt parseFloat : string -> value) (self : Series value),
  exists ints floats,
    Series_parseInts parseInt self ~~> Val ints /\
    Series_parseFloats parseFloat self ~~> Val floats /\
    (forall parse, parsed_value parse VUndefined = VUndefined /\
                   parsed_value parse (VStr "") = VUndefined /\
                   forall s, s <> "" -> parsed_value parse (VStr s) = parse s) /\
    (forall l,
       Series_yields self l ->
       Forall (fun p : pair value => absent_or_string (snd p) = true) l ->
       Series_yields ints (map (fun p => (fst p, parsed_value parseInt (snd p))) l) /\
       Series_yields floats (map (fun p => (fst p, parsed_value parseFloat (snd p))) l)) /\
    (forall l1 i v l2,
       Series_yields self (l1 ++ (i, v) :: l2) ->
       Forall (fun p : pair value => absent_or_string (snd p) = true) l1 ->
       absent_or_string v = false ->
       Series_raises ints (map (fun p => (fst p, parsed_value parseInt (snd p))) l1)
                     (parse_error "parseInts" v i) /\
       Series_toValues ints ~~> Exn (parse_error "parseInts" v i) /\
       Series_raises floats (map (fun p => (fst p, parsed_value parseFloat (snd p))) l1)
                     (parse_error "parseFloats" v i) /\
       Series_toValues floats ~~> Exn (parse_error "parseFloats" v i)).
Proof.
  intros parseInt parseFloat self.
  assert (Hi : Series_parseInts parseInt self
               = Series_select self (parse_selector parseInt "parseInts")) by reflexivity.
  assert (Hf : Series_parseFloats parseFloat self
               = Series_select self (parse_selector parseFloat "parseFloats")) by reflexivity.
  destruct (ex_intro (fun s => Series_parseInts parseInt self ~~> Val s) _ (evals_ret _))
    as [ints Ei].
  destruct (ex_intro (fun s => Series_parseFloats parseFloat self ~~> Val s) _ (evals_ret _))
    as [floats Ef].
  exists ints, floats.
  split; [exact Ei|]. split; [exact Ef|].
  rewrite Hi in Ei. rewrite Hf in Ef.
  split; [exact parsed_value_cases|]. split.
  - intros l Hy Hl. split.
    + exact (parse_select_yields Ei Hy Hl).
    + exact (parse_select_yields Ef Hy Hl).
  - intros l1 i v l2 Hy Hl Hv.
    assert (Ri : Series_raises ints (map (fun p => (fst p, parsed_value parseInt (snd p))) l1)
                   (parse_error "parseInts" v i))
      by (eapply parse_select_raises; eassumption).
    assert (Rf : Series_raises floats (map (fun p => (fst p, parsed_value parseFloat (snd p))) l1)
                   (parse_error "parseFloats" v i))
      by (eapply parse_select_raises; eassumption).
    split; [exact Ri|]. split; [exact (Series_toValues_raises Ri)|].
    split; [exact Rf|]. exact (Series_toValues_raises Rf).
Qed.

(** ** DataFrame.select *)

(** [Select] maps the function over the elements. *)
Lemma SelectIterator_runs {A B : Type} (it : Iterator A) (f : A -> value -> M B) s l en :
  runs it s l en ->
  forall out i,
    Forall2 (fun a b => forall i, f a i ~~> Val b) l out ->
    runs (SelectIterator_machine it f) (s, i) out en.
Proof.
  induction 1 as [s s' Hm|s e Hm|s s' e Hm Hc|s s' a l en Hm Hc Hr IH]; intros out i Hout.
  - inversion Hout; subst. eapply runs_finished. simpl. eval_steps.
  - inversion Hout; subst. eapply runs_raised_moving. simpl. eval_steps.
  - inversion Hout; subst. eapply runs_raised_reading; simpl; eval_steps.
  - inversion Hout as [|a' b l' out' Hb Hrest]; subst.
    eapply runs_more; simpl.
    + eval_steps.
    + eval_steps. apply Hb.
    + apply IH. assumption.
Qed.

(** [Select] raises what the function raises, at the first element where it
    does. *)
Lemma SelectIterator_raises {A B : Type} (it : Iterator A) (f : A -> value -> M B) l1 :
  forall s i a l2 en e out,
    runs it s (l1 ++ a :: l2) en ->
    Forall2 (fun a b => forall i, f a i ~~> Val b) l1 out ->
    (forall i, f a i ~~> Exn e) ->
    runs (SelectIterator_machine it f) (s, i) out (Raised e).
Proof.
  induction l1 as [|a1 l1 IH]; intros s i a l2 en e out Hr Hout He.
  - inversion Hout; subst. simpl in Hr.
    inversion Hr as [| | |t t' a' l' en' Hm Hc Hr']; subst.
    eapply runs_raised_reading; simpl; eval_steps. apply He.
  - inversion Hout as [|a' b l' out' Hb Hrest]; subst. simpl in Hr.
    inversion Hr as [| | |t t' a'' l'' en' Hm Hc Hr']; subst.
    eapply runs_more; simpl.
    + eval_steps.
    + eval_steps. apply Hb.
    + eapply IH; eassumption.
Qed.

Section Select.

Variable selector : value -> value -> M value.

Let select_row := DataFrame_select_row selector.

Lemma select_row_selects l out :
  Forall2 (selects selector) l out ->
  Forall2 (fun a b => forall i : value, select_row a i ~~> Val b) l out.
Proof.
  induction 1 as [|p q l out (Hi & Hs & Ho) Hrest IH]; constructor; auto.
  intros j. unfold select_row, DataFrame_select_row. eval_steps. rewrite Ho. simpl.
  destruct q as [qi qv]. simpl in *. subst qi. apply evals_ret.
Qed.

Lemma select_row_rejects (i row bad : value) :
  selector row i ~~> Val bad -> is_object bad = false ->
  forall j : value, select_row (i, row) j ~~> Exn select_error.
Proof.
  intros Hs Hb j. unfold select_row, DataFrame_select_row. simpl. eval_steps.
  rewrite Hb. simpl. apply evals_throw.
Qed.

(** The selection of a frame all of whose rows select to objects. *)
Lemma DataFrame_select_yields (self : DataFrame) rows out :
  DataFrame_yields self rows ->
  Forall2 (selects selector) rows out ->
  exists sel, DataFrame_select self selector ~~> Val sel /\ DataFrame_yields sel out.
Proof.
  intros (iterator & Hg & Hr) Hout.
  pose proof (select_row_selects Hout) as Hmap.
  pose proof (SelectIterator_runs select_row Hr (-1)%Z Hmap) as Hsel.
  unfold DataFrame_select, DataFrame_of_iterable, determineColumnNamesFromPairsIterable.
  destruct Hout as [|p q rows out (Hi & Hs & Ho) Hrest].
  - inversion Hr as [s s' Hm| | |]; subst.
    eexists. split.
    + simpl. eval_steps.
    + eexists. split; [eval_steps|]. exact Hsel.
  - inversion Hr as [| | |s s' a l en Hm Hc Hr']; subst.
    inversion Hmap as [|p' q' l' out' Hq Hrest']; subst.
    specialize (Hq (VNum (-1 + 1))).
    destruct q as [qi qv]. simpl in Ho. destruct qv; try discriminate Ho.
    eexists. split.
    + eval_simpl.
    + eexists. split; [eval_steps|]. exact Hsel.
Qed.

(** A frame whose first row selects to something that is not an object: the
    selection cannot be constructed. *)
Lemma DataFrame_select_first_row_rejected (self : DataFrame) i row rest bad :
  DataFrame_yields self ((i, row) :: rest) ->
  selector row i ~~> Val bad ->
  is_object bad = false ->
  DataFrame_select self selector ~~> Exn select_error.
Proof.
  intros (iterator & Hg & Hr) Hs Hb.
  pose proof (select_row_rejects Hs Hb (VNum (-1 + 1))) as Hrej.
  inversion Hr as [| | |s s' a l en Hm Hc Hr']; subst.
  unfold DataFrame_select, DataFrame_of_iterable, determineColumnNamesFromPairsIterable.
  eval_simpl. rewrite Hb. eval_simpl.
Qed.

(** A frame whose first row selects to an object and a later one does not:
    the selection is constructed, and raises at that row when driven. *)
Lemma DataFrame_select_later_row_rejected (self : DataFrame) p l1 i row l2 out bad :
  DataFrame_yields self (p :: l1 ++ (i, row) :: l2) ->
  Forall2 (selects selector) (p :: l1) out ->
  selector row i ~~> Val bad ->
  is_object bad = false ->
  exists sel,
    DataFrame_select self selector ~~> Val sel /\
    DataFrame_raises sel out select_error /\
    DataFrame_toPairs sel ~~> Exn select_error.
Proof.
  intros (iterator & Hg & Hr) Hout Hs Hb.
  pose proof (select_row_selects Hout) as Hmap.
  pose proof (@SelectIterator_raises _ _ (machine iterator) select_row (p :: l1) (pos iterator)
                (-1)%Z (i, row) l2 Finished select_error out Hr Hmap
                (select_row_rejects Hs Hb)) as Hsel.
  inversion Hout as [|p' q l' out' (Hi & Hq & Ho) Hrest]; subst.
  inversion Hmap as [|p' q' l' out'' Hq' Hrest']; subst.
  specialize (Hq' (VNum (-1 + 1))).
  simpl in Hr. inversion Hr as [| | |s s' a l en Hm Hc Hr']; subst.
  destruct q as [qi qv]. simpl in Ho. destruct qv; try discriminate Ho.
  assert (Hraises : DataFrame_raises
            {| _columnNames := map fst fields;
               DataFrame_getIterator :=
                 iterator <- DataFrame_getIterator self ;;
                 ret (SelectIterator iterator (DataFrame_select_row selector)) |}
            ((qi, VObj fields) :: out') select_error).
  { eexists. split; [simpl; eval_steps|]. exact Hsel. }
  eexists. split; [|split].
  - unfold DataFrame_select, DataFrame_of_iterable, determineColumnNamesFromPairsIterable.
    eval_simpl.
  - exact Hraises.
  - destruct Hraises as (it' & Hg' & Hr'').
    exact (DataFrame_toPairs_traces _ Hg' Hr'').
Qed.

End Select.

(** C9, as the code has it. Building the selection reads the first row, to
    infer the column names: when the frame has a first row and the selector's
    result for it is not an object, [select] itself raises. Otherwise
    [select] returns the selection and the check of the later rows is
    deferred: the selection gives, for the rows before the first one whose
    selector result is not an object, the pairs of the input index and the
    selector's result, and raises at that row when it is driven. *)
Theorem DataFrame_select_checks_first_row_at_construction :
  forall (self : DataFrame) (selector : value -> value -> M value),
    (forall rows out,
       DataFrame_yields self rows ->
       Forall2 (selects selector) rows out ->
       exists sel, DataFrame_select self selector ~~> Val sel /\ DataFrame_yields sel out) /\
    (forall i row rest bad,
       DataFrame_yields self ((i, row) :: rest) ->
       selector row i ~~> Val bad ->
       is_object bad = false ->
       DataFrame_select self selector ~~> Exn select_error) /\
    (forall p l1 i row l2 out bad,
       DataFrame_yields self (p :: l1 ++ (i, row) :: l2) ->
       Forall2 (selects selector) (p :: l1) out ->
       selector row i ~~> Val bad ->
       is_object bad = false ->
       exists sel,
         DataFrame_select self selector ~~> Val sel /\
         DataFrame_raises sel out select_error /\
         DataFrame_toPairs sel ~~> Exn select_error).
Proof.
  intros self selector. split; [|split].
  - intros rows out. apply DataFrame_select_yields.
  - intros i row rest bad. apply DataFrame_select_first_row_rejected.
  - intros p l1 i row l2 out bad. apply DataFrame_select_later_row_rejected.
Qed.

(** C9 as stated fails: on the frame [new DataFrame({ rows: [{ a: 1 }] })],
    [select] with a selector that returns the number 5 raises when it is
    called. *)
Lemma DataFrame_select_raises_at_construction :
  exists frame,
    DataFrame_new (Some {| config_df_iterable := None;
                           config_columnNames := None;
                           config_considerAllRows := false;
                           config_rows := Some (RowsArray [VObj [("a", VNum 1)]]);
                           config_columns := None;
                           config_df_index := None;
                           config_debug := false;
                           config_df_values := None |}) ~~> Val frame /\
    DataFrame_select frame (fun _ _ => ret (VNum 5)) ~~> Exn select_error.
Proof.
  eexists. split; [simpl; eval_steps|].
  eapply DataFrame_select_first_row_rejected with (bad := VNum 5).
  - apply (@DataFrame_of_rows_yields [VObj [("a", VNum 1)]]). simpl. eval_steps.
  - apply evals_ret.
  - reflexivity.
Qed.

(** The deferred case on a concrete frame: rows [{ a: 1 }] and [{ a: 2 }], and
    a selector that returns the row when [a] is 1 and the number 5 otherwise.
    The selection is built; driving it raises at the second row. *)
Example DataFrame_select_raises_when_driven :
  exists frame sel,
    DataFrame_new (Some {| config_df_iterable := None;
                           config_columnNames := None;
                           config_considerAllRows := false;
                           config_rows := Some (RowsArray [VObj [("a", VNum 1)];
                                                           VObj [("a", VNum 2)]]);
                           config_columns := None;
                           config_df_index := None;
                           config_debug := false;
                           config_df_values := None |}) ~~> Val frame /\
    DataFrame_select frame
      (fun row _ => match row with
                    | VObj [(_, VNum 1)] => ret row
                    | _ => ret (VNum 5)
                    end) ~~> Val sel /\
    DataFrame_raises sel [(VNum 0, VObj [("a", VNum 1)])] select_error /\
    DataFrame_toPairs sel ~~> Exn select_error.
Proof.
  eexists.
  match goal with
  | |- exists sel, ?P /\ _ => assert (Hf : P) by (simpl; eval_steps)
  end.
  pose proof (DataFrame_of_rows_yields Hf) as Hy. simpl in Hy.
  edestruct (@DataFrame_select_later_row_rejected
               (fun row _ => match row with
                             | VObj [(_, VNum 1)] => ret row
                             | _ => ret (VNum 5)
                             end)
               _ (VNum 0, VObj [("a", VNum 1)]) [] (VNum 1) (VObj [("a", VNum 2)]) []
               [(VNum 0, VObj [("a", VNum 1)])] (VNum 5) Hy) as (sel & Hsel & Hraise & Hpairs).
  - repeat constructor. simpl. apply evals_ret.
  - apply evals_ret.
  - reflexivity.
  - exists sel. auto.
Qed.

(** ** Join *)

(** What [Series.join] computes and what it returns: the joined records are
    the nested-loop matches of the present pairs, and the frame built from
    [{ values: joined }] has no column and no row, because the constructor
    reads none of them from [values]. *)
Lemma Series_join_returns_empty_frame {V W : Type} `{Absentable V} `{Absentable W}
    (key_equal : value -> value -> bool) (outer : Series V) (inner : Series W)
    outerKeySelector innerKeySelector resultSelector lo li :
  Series_yields outer lo ->
  Series_yields inner li ->
  exists frame,
    Series_join key_equal outer inner outerKeySelector innerKeySelector resultSelector
      ~~> Val frame /\
    DataFrame_getColumnNames frame = [] /\
    DataFrame_yields frame [] /\
    DataFrame_toPairs frame ~~> Val [].
Proof.
  intros Ho Hi.
  pose proof (Series_toPairs_yields Ho) as Po.
  pose proof (Series_toPairs_yields Hi) as Pi.
  assert (Hy : DataFrame_yields
                 {| _columnNames := [];
                    DataFrame_getIterator := ret (EmptyIterator (pair value)) |} []).
  { eexists. split; [apply evals_ret|]. apply EmptyIterator_runs. }
  eexists. split; [|split; [|split]].
  - unfold Series_join. eval_steps.
  - reflexivity.
  - exact Hy.
  - exact (DataFrame_toPairs_yields Hy).
Qed.

(** C1 fails on the code. Joining the Series of values [1, 2] with the Series
    of values [2, 2] on the values themselves has two matching pairs, so the
    claim promises two records; the DataFrame that [join] returns has no
    row and no column. *)
Theorem Series_join_loses_the_joined_records :
  exists outer inner frame,
    Series_of_values [VNum 1; VNum 2] ~~> Val outer /\
    Series_of_values [VNum 2; VNum 2] ~~> Val inner /\
    linq_join number_equal [(VNum 0, VNum 1); (VNum 1, VNum 2)]
                           [(VNum 0, VNum 2); (VNum 1, VNum 2)]
              (fun outerPair : pair value => snd outerPair)
              (fun innerPair : pair value => snd innerPair)
              (fun outerPair innerPair =>
                 VObj [("outer", snd outerPair); ("inner", snd innerPair)])
      = [VObj [("outer", VNum 2); ("inner", VNum 2)];
         VObj [("outer", VNum 2); ("inner", VNum 2)]] /\
    Series_join number_equal outer inner (fun v _ => v) (fun v _ => v)
                (fun a b => VObj [("outer", a); ("inner", b)]) ~~> Val frame /\
    DataFrame_getColumnNames frame = [] /\
    DataFrame_toPairs frame ~~> Val [].
Proof.
  destruct (ex_intro (fun s => Series_of_values [VNum 1; VNum 2] ~~> Val s) _ (evals_ret _))
    as [outer Eo].
  destruct (ex_intro (fun s => Series_of_values [VNum 2; VNum 2] ~~> Val s) _ (evals_ret _))
    as [inner Ei].
  destruct (@Series_join_returns_empty_frame value value _ _ number_equal outer inner
              (fun v _ => v) (fun v _ => v)
              (fun a b => VObj [("outer", a); ("inner", b)]) _ _
              (Series_of_values_yields Eo) (Series_of_values_yields Ei))
    as (frame & Hj & Hc & _ & Hp).
  exists outer, inner, frame. repeat split; assumption.
Qed.

(** ** Windows *)

Lemma window_at_yields {V : Type} (self : Series V) l period k :
  Series_yields self l ->
  Series_yields (window_at self period k) (segment period k l).
Proof.
  intros Hy. unfold segment.
  eapply Series_take_yields; [|apply evals_ret].
  eapply Series_skip_yields; [exact Hy|apply evals_ret].
Qed.

(** [none] with the predicate that always holds tells whether there is no pair. *)
Lemma Series_none_always {V : Type} (self : Series V) l :
  Series_yields self l ->
  Series_none self (Some (fun _ => ret true))
    ~~> Val (match l with [] => true | _ :: _ => false end).
Proof.
  intros (iterator & Hg & Hr). unfold Series_none. simpl in Hg.
  inversion Hr as [s s' Hm| | |s s' a l' en Hm Hc Hr']; subst.
  - eval_steps. apply evals_loop_return. eval_steps.
  - eval_steps. apply evals_loop_return. eval_steps.
Qed.

Lemma Series_window_moveNext {V : Type} (self : Series V) l period curOutput k :
  Series_yields self l ->
  moveNext (Series_window_machine self period) (curOutput, k)
    ~~> Val (match segment period k l with
             | [] => (false, (curOutput, k))
             | _ :: _ =>
                 (true, (Some (VNum (Z.of_nat k), window_at self period k), Datatypes.S k))
             end).
Proof.
  intros Hy.
  pose proof (Series_none_always (window_at_yields period k Hy)) as Hn.
  simpl. eapply evals_bind; [apply evals_ret|]. cbn beta.
  eapply evals_bind; [apply evals_ret|]. cbn beta.
  eapply evals_bind; [exact Hn|]. cbn beta.
  destruct (segment period k l); apply evals_ret.
Qed.

Lemma Series_window_runs {V : Type} (self : Series V) l period :
  Series_yields self l ->
  forall m k curOutput,
    (forall j, k <= j < k + m -> segment period j l <> []) ->
    segment period (k + m) l = [] ->
    runs (Series_window_machine self period) (curOutput, k)
         (indexed_from (Z.of_nat k) (map (window_at self period) (seq k m))) Finished.
Proof.
  intros Hy. induction m as [|m IH]; intros k curOutput Hmore Hdone.
  - simpl. eapply runs_finished.
    pose proof (Series_window_moveNext period curOutput k Hy) as Hm.
    rewrite Nat.add_0_r in Hdone. rewrite Hdone in Hm. exact Hm.
  - simpl.
    pose proof (Series_window_moveNext period curOutput k Hy) as Hm.
    destruct (segment period k l) as [|a rest] eqn:Es.
    + exfalso. apply (Hmore k); [lia|exact Es].
    + eapply runs_more; [exact Hm|simpl; apply evals_ret|].
      replace (Z.of_nat k + 1)%Z with (Z.of_nat (Datatypes.S k)) by lia.
      apply IH.
      * intros j Hj. apply Hmore. lia.
      * replace (Datatypes.S k + m) with (k + Datatypes.S m) by lia. exact Hdone.
Qed.

(** Arithmetic of segments. *)
Lemma segment_length {A : Type} (period k : nat) (l : list A) :
  List.length (segment period k l) = Nat.min period (List.length l - k * period).
Proof. unfold segment. now rewrite length_firstn, length_skipn. Qed.

Lemma window_count_spec n period k :
  0 < period -> (k < window_count n period <-> k * period < n).
Proof.
  intros Hp. unfold window_count. split.
  - intros Hk.
    assert (H : period * Datatypes.S k <= n + period - 1).
    { etransitivity; [|apply (Nat.Div0.mul_div_le _ period)].
      apply Nat.mul_le_mono_l. lia. }
    nia.
  - intros Hk.
    apply Nat.lt_le_trans with (m := Datatypes.S k); [lia|].
    apply Nat.div_le_lower_bound; [lia|]. nia.
Qed.

Lemma firstn_add_skipn {A : Type} (a b : nat) (l : list A) :
  firstn (a + b) l = firstn a l ++ firstn b (skipn a l).
Proof.
  revert l. induction a as [|a IH]; intros l; simpl.
  - reflexivity.
  - destruct l as [|x l]; simpl.
    + now rewrite firstn_nil.
    + now rewrite IH.
Qed.

Lemma concat_segments {A : Type} (period c : nat) (l : list A) :
  List.concat (map (fun k => segment period k l) (seq 0 c)) = firstn (c * period) l.
Proof.
  induction c as [|c IH].
  - reflexivity.
  - rewrite seq_S, map_app, concat_app, IH. simpl.
    rewrite app_nil_r. unfold segment.
    replace (period + c * period) with (c * period + period) by lia.
    now rewrite firstn_add_skipn.
Qed.

(** [window_count n p] is the ceiling of n/p. *)
Lemma window_count_ceiling n period :
  0 < period ->
  n <= window_count n period * period < n + period.
Proof.
  intros Hp. split.
  - destruct (Nat.le_gt_cases n (window_count n period * period)) as [H|H]; [exact H|].
    apply window_count_spec in H; [lia|exact Hp].
  - destruct (window_count n period) as [|c] eqn:Ec; [simpl; lia|].
    assert (H : c < window_count n period) by lia.
    apply window_count_spec in H; [|exact Hp]. simpl. lia.
Qed.

(** C4. For a Series that yields the [n > 0] pairs [l] and a period [p > 0],
    [window(p)] yields ceil(n/p) windows, the [k]-th under the index [k]. The
    [k]-th window yields the [k]-th segment of [l]: the segments follow one
    another without overlap and make up [l], every segment but the last has
    exactly [p] pairs, and the last has the remaining ones, at least one and
    at most [p]. *)
Theorem Series_window_segments :
  forall (V : Type) (self : Series V) (l : list (pair V)) (p : nat),
    Series_yields self l ->
    l <> [] ->
    0 < p ->
    exists w windows,
      Series_window self p None ~~> Val w /\
      Series_yields w (indexed_from 0 windows) /\
      List.length windows = window_count (List.length l) p /\
      Forall2 (fun k window => Series_yields window (segment p k l))
              (seq 0 (List.length windows)) windows /\
      List.concat (map (fun k => segment p k l) (seq 0 (List.length windows))) = l /\
      (forall k, Datatypes.S k < List.length windows -> List.length (segment p k l) = p) /\
      0 < List.length (segment p (List.length windows - 1) l) <= p.
Proof.
  intros V self l p Hy Hl Hp.
  set (c := window_count (List.length l) p).
  assert (Hn : 0 < List.length l) by (destruct l; [congruence|simpl; lia]).
  assert (Hc : 0 < c) by (apply window_count_spec; lia).
  assert (Hcover : List.length l <= c * p).
  { destruct (Nat.le_gt_cases (List.length l) (c * p)) as [H|H]; [exact H|].
    apply window_count_spec in H; [|exact Hp]. fold c in H. lia. }
  assert (Hlen : List.length (map (window_at self p) (seq 0 c)) = c)
    by now rewrite length_map, length_seq.
  eexists. exists (map (window_at self p) (seq 0 c)).
  split; [apply evals_ret|]. rewrite Hlen.
  split; [|split; [reflexivity|split; [|split; [|split]]]].
  - eexists. split; [simpl; apply evals_ret|].
    apply (@Series_window_runs V self l p Hy c 0 None).
    + intros j Hj Hs.
      assert (Hj' : j * p < List.length l) by (apply window_count_spec; [exact Hp|fold c; lia]).
      pose proof (segment_length p j l) as Hsl. rewrite Hs in Hsl. simpl in Hsl. lia.
    + apply length_zero_iff_nil. rewrite segment_length. simpl. lia.
  - clear Hlen. generalize 0 as k.
    induction c as [|c' IH] in |- *; intros k; simpl; constructor.
    + now apply window_at_yields.
    + apply IH.
  - rewrite concat_segments. apply firstn_all2. exact Hcover.
  - intros k Hk. rewrite segment_length.
    assert (Hk' : Datatypes.S k * p < List.length l)
      by (apply window_count_spec; [exact Hp|fold c; lia]).
    simpl in Hk'. lia.
  - rewrite segment_length.
    assert (Hk' : (c - 1) * p < List.length l)
      by (apply window_count_spec; [exact Hp|fold c; lia]).
    lia.
Qed.

(** The five values 1..5 in windows of two: three windows, the last one short. *)
Lemma Series_window_segments_witness :
  let self := {| __iterable :=
                   PairsIterable CountIterable
                     (ArrayIterable [VNum 1; VNum 2; VNum 3; VNum 4; VNum 5]) |} in
  let l := indexed_from 0 [VNum 1; VNum 2; VNum 3; VNum 4; VNum 5] in
  exists w windows,
    Series_window self 2 None ~~> Val w /\
    Series_yields w (indexed_from 0 windows) /\
    List.length windows = window_count (List.length l) 2 /\
    Forall2 (fun k window => Series_yields window (segment 2 k l))
            (seq 0 (List.length windows)) windows /\
    List.concat (map (fun k => segment 2 k l) (seq 0 (List.length windows))) = l /\
    (forall k, Datatypes.S k < List.length windows -> List.length (segment 2 k l) = 2) /\
    0 < List.length (segment 2 (List.length windows - 1) l) <= 2.
Proof.
  intros self l.
  apply (@Series_window_segments value self l 2).
  - apply (@Series_of_values_yields value [VNum 1; VNum 2; VNum 3; VNum 4; VNum 5]).
    apply evals_ret.
  - discriminate.
  - lia.
Defined.

(** ** The scenarios of the specification, run *)

(** [Series(values=[100,300,200,5], index=[0,1,2,3]).skip(2).toPairs()]. *)
Example scenario_skip :
  (s <- Series_of_index_values [VNum 0; VNum 1; VNum 2; VNum 3]
                               [VNum 100; VNum 300; VNum 200; VNum 5] ;;
   skipped <- Series_skip s 2 ;;
   Series_toPairs skipped) 10
  = Val [(VNum 2, VNum 200); (VNum 3, VNum 5)].
Proof. reflexivity. Qed.

(** [Series(values=[1,2,3,4]).window(2)]: the pairs of each window. *)
Example scenario_window :
  (s <- Series_of_values [VNum 1; VNum 2; VNum 3; VNum 4] ;;
   windowed <- Series_window s 2 None ;;
   windows <- Series_toPairs windowed ;;
   mapM (fun w => pairs <- Series_toPairs (snd w) ;; ret (fst w, pairs)) windows) 20
  = Val [(VNum 0, [(VNum 0, VNum 1); (VNum 1, VNum 2)]);
         (VNum 1, [(VNum 2, VNum 3); (VNum 3, VNum 4)])].
Proof. reflexivity. Qed.

(** [Series(values=["1","100","5"]).parseInts().toValues()]. *)
Example scenario_parseInts :
  (s <- Series_of_values [VStr "1"; VStr "100"; VStr "5"] ;;
   parsed <- Series_parseInts parseInt_decimal s ;;
   Series_toValues parsed) 10
  = Val [VNum 1; VNum 100; VNum 5].
Proof. reflexivity. Qed.

(** An empty string and an absent value parse to absent, which [toValues]
    drops but the pairs of the pipeline show. *)
Example scenario_parseInts_absent :
  (s <- Series_of_values [VStr ""; VUndefined; VStr "7"] ;;
   parsed <- Series_parseInts parseInt_decimal s ;;
   values <- Series_toValues parsed ;;
   iterator <- Series_getIterator parsed ;;
   pairs <- collect (machine iterator) (pos iterator) ;;
   ret (values, pairs)) 10
  = Val ([VNum 7], [(VNum 0, VUndefined); (VNum 1, VUndefined); (VNum 2, VNum 7)]).
Proof. reflexivity. Qed.

(** Parsing a number: building the Series succeeds, evaluating it raises. *)
Example scenario_parseInts_not_a_string :
  (s <- Series_of_values [VNum 5] ;;
   parsed <- Series_parseInts parseInt_decimal s ;;
   Series_toValues parsed) 10
  = Exn (parse_error "parseInts" (VNum 5) (VNum 0)).
Proof. reflexivity. Qed.

(** [skipWhile] on [true, true, false, true]. *)
Example scenario_skipWhile :
  (s <- Series_of_values [VBool true; VBool true; VBool false; VBool true] ;;
   skipped <- Series_skipWhile s (fun v => match v with
                                           | VBool b => ret b
                                           | _ => ret false
                                           end) ;;
   Series_toPairs skipped) 10
  = Val [(VNum 2, VBool false); (VNum 3, VBool true)].
Proof. reflexivity. Qed.

(** [reverse] on the values A, B, C. *)
Example scenario_reverse :
  (s <- Series_of_values [VStr "A"; VStr "B"; VStr "C"] ;;
   reversed <- Series_reverse s ;;
   Series_toPairs reversed) 10
  = Val [(VNum 2, VStr "C"); (VNum 1, VStr "B"); (VNum 0, VStr "A")].
Proof. reflexivity. Qed.

(** Column lookup on a frame with the columns a and b. *)
Example scenario_columns :
  let frame := {| _columnNames := ["a"; "b"];
                  DataFrame_getIterator := ret (EmptyIterator (pair value)) |} in
  DataFrame_getColumnIndex frame (VStr "b") 0 = Val (VNum 1) /\
  DataFrame_getColumnIndex frame (VStr "z") 0 = Val (VNum (-1)) /\
  DataFrame_getColumnName frame (VNum 1) 0 = Val (VStr "b") /\
  DataFrame_getColumnName frame (VNum 2) 0 = Val VUndefined /\
  DataFrame_getColumnName frame (VNum (-1)) 0 = Val VUndefined.
Proof. repeat split. Qed.

(** With a repeated column name, [getColumnIndex] answers its first position. *)
Example scenario_repeated_column :
  let frame := {| _columnNames := ["a"; "a"];
                  DataFrame_getIterator := ret (EmptyIterator (pair value)) |} in
  DataFrame_getColumnName frame (VNum 1) 0 = Val (VStr "a") /\
  DataFrame_getColumnIndex frame (VStr "a") 0 = Val (VNum 0).
Proof. repeat split. Qed.

(* ================================================================== *)
(** * Further properties of Series *)

(** ** More on driving a cursor *)

(** The first step of a trace that has a first element. *)
Lemma traces_cons_inv {A : Type} (iterator : Cursor A) a l en :
  traces iterator (a :: l) en ->
  exists s', moveNext (machine iterator) (pos iterator) ~~> Val (true, s') /\
             getCurrent (machine iterator) s' ~~> Val a /\
             runs (machine iterator) s' l en.
Proof.
  intros Hr. inversion Hr as [| | |s s' a' l' en' Hm Hc Hr']; subst.
  exists s'. auto.
Qed.

(** [Extract] maps the slot over the trace. *)
Lemma ExtractIterator_runs {A B : Type} (it : Iterator A) (slot : A -> B) s l en :
  runs it s l en -> runs (ExtractIterator_machine it slot) s (map slot l) en.
Proof.
  induction 1 as [s s' Hm|s e Hm|s s' e Hm Hc|s s' a l en Hm Hc Hr IH]; simpl.
  - eapply runs_finished. simpl. eassumption.
  - eapply runs_raised_moving. simpl. eassumption.
  - eapply runs_raised_reading; simpl; [eassumption|]. eval_steps.
  - eapply runs_more; simpl; [eassumption| |exact IH]. eval_steps.
Qed.

(** The slot of every pair of a Series. *)
Lemma ExtractIterable_yields {V B : Type} (self : Series V) (slot : pair V -> B) l :
  Series_yields self l ->
  yields (ExtractIterable (Series_iterable self) slot) (map slot l).
Proof.
  intros (iterator & Hg & Hr).
  exists {| machine := ExtractIterator_machine (machine iterator) slot; pos := pos iterator |}.
  split.
  - simpl in *. eval_steps.
  - apply ExtractIterator_runs. exact Hr.
Qed.

(** The counting loop of [count] over a cursor that finishes. *)
Lemma count_loop_runs {A : Type} (it : Iterator A) s l :
  runs it s l Finished ->
  forall total,
    loop (fun '(s, total) =>
            '(more, s') <- moveNext it s ;;
            if more then ret (inl (s', Datatypes.S total))
            else ret (inr total))
         (s, total)
      ~~> Val (total + List.length l).
Proof.
  intros Hr. remember Finished as en eqn:Een.
  induction Hr as [s s' Hm|s e Hm|s s' e Hm Hc|s s' a l en Hm Hc Hr IH]; intros total;
    try discriminate Een.
  - simpl. rewrite Nat.add_0_r. apply evals_loop_return. eval_steps.
  - eapply evals_loop_continue; [eval_steps|].
    simpl List.length. replace (total + Datatypes.S (List.length l))
      with (Datatypes.S total + List.length l) by lia.
    apply IH. exact Een.
Qed.

Lemma Series_count_yields {V : Type} (self : Series V) l :
  Series_yields self l -> Series_count self ~~> Val (List.length l).
Proof.
  intros (iterator & Hg & Hr). unfold Series_count. simpl in Hg.
  eval_step. exact (count_loop_runs Hr 0).
Qed.

Lemma present_length {V : Type} `{Absentable V} (l : list (pair V)) :
  List.length (present l) <= List.length l.
Proof.
  induction l as [|p l IH]; simpl; [lia|].
  destruct (is_absent (snd p)); simpl; lia.
Qed.

Lemma present_length_absent {V : Type} `{Absentable V} (l : list (pair V)) p :
  In p l -> is_absent (snd p) = true -> List.length (present l) < List.length l.
Proof.
  induction l as [|q l IH]; simpl; [intros []|].
  intros [->|Hin] Hp.
  - rewrite Hp. simpl. pose proof (present_length l). lia.
  - specialize (IH Hin Hp). destruct (is_absent (snd q)); simpl; lia.
Qed.

(** ** Counting *)

(** X1. [count] returns the number of pairs of the pipeline, whatever their
    values: a pair whose value is absent is counted, though [toValues] leaves
    it out. So the count is at least the number of values that [toValues]
    returns, and greater as soon as one value is absent. *)
Theorem Series_count_counts_every_pair :
  forall (V : Type) (absent : Absentable V) (self : Series V) (l : list (pair V)),
    Series_yields self l ->
    exists values,
      Series_count self ~~> Val (List.length l) /\
      Series_toValues self ~~> Val values /\
      List.length values <= List.length l /\
      ((exists p, In p l /\ is_absent (snd p) = true) ->
       List.length values < List.length l).
Proof.
  intros V absent self l Hy. exists (map snd (present l)).
  split; [now apply Series_count_yields|].
  split; [now apply Series_toValues_yields|].
  rewrite length_map. split.
  - apply present_length.
  - intros (p & Hin & Hp). eapply present_length_absent; eauto.
Qed.

(** The Series of the values "a" and undefined: two pairs, one value. *)
Lemma Series_count_counts_every_pair_witness :
  exists values,
    Series_count {| __iterable := ArrayIterable [(VNum 0, VStr "a"); (VNum 1, VUndefined)] |}
      ~~> Val 2 /\
    Series_toValues {| __iterable := ArrayIterable [(VNum 0, VStr "a"); (VNum 1, VUndefined)] |}
      ~~> Val values /\
    List.length values <= 2 /\
    ((exists p, In p [(VNum 0, VStr "a"); (VNum 1, VUndefined)] /\ is_absent (snd p) = true) ->
     List.length values < 2).
Proof.
  exact (Series_count_counts_every_pair (V := value) _ example_Series_yields).
Defined.

(** ** The first pair *)

(** X2. On a pipeline that has a first pair [(i, v)], [first] returns [v],
    [firstPair] returns [(i, v)] and [firstIndex] returns [i]. Only the first
    pair is read: the rest of the pipeline may raise when driven further.
    The value is returned as it is, also when it is absent. *)
Theorem Series_first_of_nonempty :
  forall (V : Type) (self : Series V) (iterator : Cursor (pair V))
         (i : value) (v : V) (rest : list (pair V)) (en : ending),
    Series_getIterator self ~~> Val iterator ->
    traces iterator ((i, v) :: rest) en ->
    Series_first self ~~> Val v /\
    Series_firstPair self ~~> Val (i, v) /\
    Series_firstIndex self ~~> Val i.
Proof.
  intros V self iterator i v rest en Hg Hr.
  destruct (traces_cons_inv Hr) as (s' & Hm & Hc & _).
  repeat split.
  - unfold Series_first. eval_simpl.
  - unfold Series_firstPair. eval_simpl. exact Hc.
  - unfold Series_firstIndex. eval_simpl.
Qed.

(** A Series whose first value is undefined and whose second value cannot be
    parsed: [first] returns undefined. *)
Lemma Series_first_of_nonempty_witness :
  let self := {| __iterable :=
                   SelectValuesIterable (ArrayIterable [(VNum 7, VUndefined); (VNum 8, VNum 5)])
                     (parse_selector parseInt_decimal "parseInts") |} in
  Series_first self ~~> Val VUndefined /\
  Series_firstPair self ~~> Val (VNum 7, VUndefined) /\
  Series_firstIndex self ~~> Val (VNum 7).
Proof.
  intros self.
  apply (@Series_first_of_nonempty value self
           {| machine := SelectValuesIterator_machine
                           (ArrayIterator_machine [(VNum 7, VUndefined); (VNum 8, VNum 5)])
                           (parse_selector parseInt_decimal "parseInts");
              pos := (-1)%Z |}
           (VNum 7) VUndefined [] (Raised (parse_error "parseInts" (VNum 5) (VNum 8)))).
  - simpl. eval_steps.
  - unfold traces. simpl.
    apply (@SelectValuesIterator_raises value value
             (ArrayIterator_machine [(VNum 7, VUndefined); (VNum 8, VNum 5)])
             (parse_selector parseInt_decimal "parseInts")
             [(VNum 7, VUndefined)] (-1)%Z (VNum 8, VNum 5) [] Finished).
    + apply (ArrayIterator_runs [(VNum 7, VUndefined); (VNum 8, VNum 5)]).
    + constructor; [|constructor]. split; [reflexivity|]. simpl. apply evals_ret.
    + simpl. apply evals_throw.
Defined.

(** ** all, any, none, contains *)

(** The loop of [all] with a predicate that answers as [f] does. *)
Lemma Series_all_loop {V : Type} (it : Iterator (pair V)) (predicate : V -> M bool)
    (f : V -> bool) s l :
  runs it s l Finished ->
  (forall p, In p l -> predicate (snd p) ~~> Val (f (snd p))) ->
  forall count,
    loop (fun '(s, count) =>
            '(more, s') <- moveNext it s ;;
            if more then
              pair <- getCurrent it s' ;;
              p <- predicate (snd pair) ;;
              if negb p then ret (inr false)
              else ret (inl (s', Datatypes.S count))
            else ret (inr (0 <? count)%nat))
         (s, count)
      ~~> Val (forallb f (map snd l) && (0 <? count + List.length l)%nat).
Proof.
  intros Hr. remember Finished as en eqn:Een.
  induction Hr as [s s' Hm|s e Hm|s s' e Hm Hc|s s' a l en Hm Hc Hr IH]; intros Hp count;
    try discriminate Een.
  - simpl. rewrite Nat.add_0_r. apply evals_loop_return. eval_steps.
  - assert (Ha : predicate (snd a) ~~> Val (f (snd a))) by (apply Hp; now left).
    simpl. destruct (f (snd a)) eqn:Ef; simpl.
    + eapply evals_loop_continue; [eval_simpl|].
      replace (count + Datatypes.S (List.length l))
        with (Datatypes.S count + List.length l) by lia.
      apply IH; [exact Een|]. intros p Hin. apply Hp. now right.
    + apply evals_loop_return. eval_simpl.
Qed.

(** The loop of [all] stops at the first value that fails the predicate. *)
Lemma Series_all_loop_false {V : Type} (it : Iterator (pair V)) (predicate : V -> M bool) l1 :
  forall s x l2 en count,
    runs it s (l1 ++ x :: l2) en ->
    (forall p, In p l1 -> predicate (snd p) ~~> Val true) ->
    predicate (snd x) ~~> Val false ->
    loop (fun '(s, count) =>
            '(more, s') <- moveNext it s ;;
            if more then
              pair <- getCurrent it s' ;;
              p <- predicate (snd pair) ;;
              if negb p then ret (inr false)
              else ret (inl (s', Datatypes.S count))
            else ret (inr (0 <? count)%nat))
         (s, count)
      ~~> Val false.
Proof.
  induction l1 as [|a l1 IH]; intros s x l2 en count Hr Htrue Hfalse; simpl in Hr;
    inversion Hr as [| | |t t' a' l' en' Hm Hc Hr']; subst.
  - apply evals_loop_return. eval_simpl.
  - assert (Ha : predicate (snd a) ~~> Val true) by (apply Htrue; now left).
    eapply evals_loop_continue; [eval_simpl|].
    eapply IH; eauto using in_cons.
Qed.

(** X3. [all] with a predicate [f] that always answers: it returns true when
    the pipeline has at least one pair and [f] holds of every value, and
    false otherwise, so false on an empty Series. It stops at the first
    value on which the predicate is false: what follows is neither read nor
    tested, and may raise. *)
Theorem Series_all_spec :
  forall (V : Type) (self : Series V) (iterator : Cursor (pair V))
         (l : list (pair V)) (en : ending),
    Series_getIterator self ~~> Val iterator ->
    traces iterator l en ->
    (en = Finished ->
     forall f : V -> bool,
       Series_all self (fun v => ret (f v))
         ~~> Val (forallb f (map snd l) && negb (List.length l =? 0)%nat)) /\
    (forall (predicate : V -> M bool) l1 x l2,
       l = l1 ++ x :: l2 ->
       (forall p, In p l1 -> predicate (snd p) ~~> Val true) ->
       predicate (snd x) ~~> Val false ->
       Series_all self predicate ~~> Val false).
Proof.
  intros V self iterator l en Hg Hr. split.
  - intros -> f. unfold Series_all. eval_step. eval_step. eval_step.
    pose proof (@Series_all_loop V (machine iterator) (fun v => ret (f v)) f _ _ Hr
                  (fun p _ => evals_ret _) 0) as L.
    simpl in L.
    replace (negb (List.length l =? 0)%nat) with (0 <? List.length l)%nat; [exact L|].
    destruct l; reflexivity.
  - intros predicate l1 x l2 -> Htrue Hfalse. unfold Series_all.
    eval_step. eval_step. eval_step.
    eapply Series_all_loop_false; eauto.
Qed.

(** On the strings "a", "b" and then a number, [all(isString)] is false, and
    it is false as well when the predicate raises on anything after the
    number. *)
Lemma Series_all_spec_witness :
  let self := {| __iterable :=
                   ArrayIterable [(VNum 0, VStr "a"); (VNum 1, VNum 5); (VNum 2, VNull)] |} in
  Series_all self (fun v => ret (is_string v)) ~~> Val false /\
  Series_all self (fun v => match v with
                            | VStr _ => ret true
                            | VNum _ => ret false
                            | _ => throw (Error "predicate called")
                            end) ~~> Val false.
Proof.
  intros self.
  pose proof (@Series_all_spec value self
                (ArrayIterator [(VNum 0, VStr "a"); (VNum 1, VNum 5); (VNum 2, VNull)])
                _ Finished (evals_ret _)
                (ArrayIterator_runs [(VNum 0, VStr "a"); (VNum 1, VNum 5); (VNum 2, VNull)]))
    as [Hpure Hshort].
  split.
  - exact (Hpure eq_refl is_string).
  - apply (Hshort _ [(VNum 0, VStr "a")] (VNum 1, VNum 5) [(VNum 2, VNull)] eq_refl).
    + intros p [<-|[]]. apply evals_ret.
    + apply evals_ret.
Defined.

(** The loop of [any] with a predicate that answers as [f] does. *)
Lemma Series_any_loop {V : Type} (it : Iterator (pair V)) (predicate : V -> M bool)
    (f : V -> bool) s l :
  runs it s l Finished ->
  (forall p, In p l -> predicate (snd p) ~~> Val (f (snd p))) ->
  loop (fun s =>
          '(more, s') <- moveNext it s ;;
          if more then
            pair <- getCurrent it s' ;;
            p <- predicate (snd pair) ;;
            if p then ret (inr true) else ret (inl s')
          else ret (inr false))
       s
    ~~> Val (existsb f (map snd l)).
Proof.
  intros Hr. remember Finished as en eqn:Een.
  induction Hr as [s s' Hm|s e Hm|s s' e Hm Hc|s s' a l en Hm Hc Hr IH]; intros Hp;
    try discriminate Een.
  - simpl. apply evals_loop_return. eval_steps.
  - assert (Ha : predicate (snd a) ~~> Val (f (snd a))) by (apply Hp; now left).
    simpl. destruct (f (snd a)) eqn:Ef; simpl.
    + apply evals_loop_return. eval_simpl.
    + eapply evals_loop_continue; [eval_simpl|].
      apply IH; [exact Een|]. intros p Hin. apply Hp. now right.
Qed.

(** The loop of [none] with a predicate that answers as [f] does. *)
Lemma Series_none_loop {V : Type} (it : Iterator (pair V)) (predicate : V -> M bool)
    (f : V -> bool) s l :
  runs it s l Finished ->
  (forall p, In p l -> predicate (snd p) ~~> Val (f (snd p))) ->
  loop (fun s =>
          '(more, s') <- moveNext it s ;;
          if more then
            pair <- getCurrent it s' ;;
            p <- predicate (snd pair) ;;
            if p then ret (inr false) else ret (inl s')
          else ret (inr true))
       s
    ~~> Val (negb (existsb f (map snd l))).
Proof.
  intros Hr. remember Finished as en eqn:Een.
  induction Hr as [s s' Hm|s e Hm|s s' e Hm Hc|s s' a l en Hm Hc Hr IH]; intros Hp;
    try discriminate Een.
  - simpl. apply evals_loop_return. eval_steps.
  - assert (Ha : predicate (snd a) ~~> Val (f (snd a))) by (apply Hp; now left).
    simpl. destruct (f (snd a)) eqn:Ef; simpl.
    + apply evals_loop_return. eval_simpl.
    + eapply evals_loop_continue; [eval_simpl|].
      apply IH; [exact Een|]. intros p Hin. apply Hp. now right.
Qed.

(** Without a predicate, [any] and [none] ask for the first pair only. *)
Lemma Series_any_none_no_predicate {V : Type} (self : Series V) l :
  Series_yields self l ->
  Series_any self None ~~> Val (negb (List.length l =? 0)%nat) /\
  Series_none self None ~~> Val (List.length l =? 0)%nat.
Proof.
  intros (iterator & Hg & Hr). simpl in Hg. unfold Series_any, Series_none.
  inversion Hr as [s s' Hm| | |s s' a l' en Hm Hc Hr']; subst; split; eval_simpl.
Qed.

(** The loops of [any] and [none] stop at the first value that satisfies the
    predicate. *)
Lemma Series_any_none_loop_stop {V : Type} (it : Iterator (pair V)) (predicate : V -> M bool)
    (found : bool) l1 :
  forall s x l2 en,
    runs it s (l1 ++ x :: l2) en ->
    (forall p, In p l1 -> predicate (snd p) ~~> Val false) ->
    predicate (snd x) ~~> Val true ->
    loop (fun s =>
            '(more, s') <- moveNext it s ;;
            if more then
              pair <- getCurrent it s' ;;
              p <- predicate (snd pair) ;;
              if p then ret (inr found) else ret (inl s')
            else ret (inr (negb found)))
         s
      ~~> Val found.
Proof.
  induction l1 as [|a l1 IH]; intros s x l2 en Hr Hno Hyes; simpl in Hr;
    inversion Hr as [| | |t t' a' l' en' Hm Hc Hr']; subst.
  - apply evals_loop_return. eval_simpl.
  - assert (Ha : predicate (snd a) ~~> Val false) by (apply Hno; now left).
    eapply evals_loop_continue; [eval_simpl|].
    eapply IH; eauto using in_cons.
Qed.

(** X4. [any], [none] and [contains]. With a predicate [f] that always
    answers, on a pipeline that finishes with the pairs [l]: [any(f)] tells
    whether [f] holds of some value, [none(f)] is its negation, and
    [contains(v)] tells whether some value is [===] to [v]; without a
    predicate, [any()] tells whether there is a pair and [none()] whether
    there is none. With any predicate, both stop at the first value that
    satisfies it: when the predicate is false on the values before [x] and
    true on [x], [any] returns true and [none] returns false whatever
    follows [x]; the pipeline may raise there, and the predicate is not
    asked again. *)
Theorem Series_any_none_contains_spec :
  forall (V : Type) (self : Series V) (iterator : Cursor (pair V))
         (l : list (pair V)) (en : ending),
    Series_getIterator self ~~> Val iterator ->
    traces iterator l en ->
    (en = Finished ->
     (forall f : V -> bool,
        Series_any self (Some (fun v => ret (f v))) ~~> Val (existsb f (map snd l)) /\
        Series_none self (Some (fun v => ret (f v))) ~~> Val (negb (existsb f (map snd l)))) /\
     Series_any self None ~~> Val (negb (List.length l =? 0)%nat) /\
     Series_none self None ~~> Val (List.length l =? 0)%nat /\
     (forall (strict_equal : V -> V -> bool) (v : V),
        Series_contains strict_equal self v
          ~~> Val (existsb (fun searchValue => strict_equal searchValue v) (map snd l)))) /\
    (forall (predicate : V -> M bool) l1 x l2,
       l = l1 ++ x :: l2 ->
       (forall p, In p l1 -> predicate (snd p) ~~> Val false) ->
       predicate (snd x) ~~> Val true ->
       Series_any self (Some predicate) ~~> Val true /\
       Series_none self (Some predicate) ~~> Val false).
Proof.
  intros V self iterator l en Hg Hr. split.
  - intros ->.
    assert (Hy : Series_yields self l) by (exists iterator; auto).
    destruct (Series_any_none_no_predicate Hy) as [Hany Hnone].
    simpl in Hg.
    split; [|split; [exact Hany|split; [exact Hnone|]]].
    + intros f. split.
      * unfold Series_any. eval_step. eval_step. eval_step.
        exact (@Series_any_loop V (machine iterator) (fun v => ret (f v)) f _ _ Hr
                 (fun p _ => evals_ret _)).
      * unfold Series_none. eval_step. eval_step. eval_step.
        exact (@Series_none_loop V (machine iterator) (fun v => ret (f v)) f _ _ Hr
                 (fun p _ => evals_ret _)).
    + intros strict_equal v. unfold Series_contains, Series_any.
      eval_step. eval_step. eval_step.
      exact (@Series_any_loop V (machine iterator)
               (fun searchValue => ret (strict_equal searchValue v))
               (fun searchValue => strict_equal searchValue v) _ _ Hr
               (fun p _ => evals_ret _)).
  - intros predicate l1 x l2 -> Hno Hyes. simpl in Hg. split.
    + unfold Series_any. eval_step. eval_step. eval_step.
      exact (@Series_any_none_loop_stop V (machine iterator) predicate true l1 _ x l2 en
               Hr Hno Hyes).
    + unfold Series_none. eval_step. eval_step. eval_step.
      exact (@Series_any_none_loop_stop V (machine iterator) predicate false l1 _ x l2 en
               Hr Hno Hyes).
Qed.

(** On the values "a", 5, null: some value is a string, 7 is not among them,
    and a predicate that raises on anything after the number is not asked
    there. *)
Lemma Series_any_none_contains_spec_witness :
  let self := {| __iterable :=
                   ArrayIterable [(VNum 0, VStr "a"); (VNum 1, VNum 5); (VNum 2, VNull)] |} in
  let predicate := fun v => match v with
                            | VStr _ => ret false
                            | VNum _ => ret true
                            | _ => throw (Error "predicate called")
                            end in
  Series_any self (Some (fun v => ret (is_string v))) ~~> Val true /\
  Series_none self (Some (fun v => ret (is_string v))) ~~> Val false /\
  Series_any self None ~~> Val true /\
  Series_none self None ~~> Val false /\
  Series_contains number_equal self (VNum 7) ~~> Val false /\
  Series_any self (Some predicate) ~~> Val true /\
  Series_none self (Some predicate) ~~> Val false.
Proof.
  intros self predicate.
  destruct (@Series_any_none_contains_spec value self
              (ArrayIterator [(VNum 0, VStr "a"); (VNum 1, VNum 5); (VNum 2, VNull)])
              _ Finished (evals_ret _)
              (ArrayIterator_runs [(VNum 0, VStr "a"); (VNum 1, VNum 5); (VNum 2, VNull)]))
    as [Hfin Hstop].
  destruct (Hfin eq_refl) as (Hf & Hany & Hnone & Hc).
  destruct (Hf is_string) as [Ha Hn].
  destruct (Hstop predicate [(VNum 0, VStr "a")] (VNum 1, VNum 5) [(VNum 2, VNull)] eq_refl)
    as [Hsa Hsn].
  - intros p [<-|[]]. apply evals_ret.
  - apply evals_ret.
  - split; [exact Ha|]. split; [exact Hn|]. split; [exact Hany|]. split; [exact Hnone|].
    split; [exact (Hc number_equal (VNum 7))|]. split; [exact Hsa|exact Hsn].
Defined.

(** ** head and tail *)

(** X5. For a pipeline that yields [l] and a number [n] of rows that is at
    most the number of pairs: [head(n)] yields the first [n] pairs of [l] and
    [tail(n)] the last [n] pairs, each exactly [n] pairs, in source order and
    with their indexes. *)
Theorem Series_head_tail_yield_the_ends :
  forall (V : Type) (self : Series V) (l : list (pair V)) (n : nat),
    Series_yields self l ->
    n <= List.length l ->
    exists h t,
      Series_head self n ~~> Val h /\
      Series_tail self n ~~> Val t /\
      Series_yields h (firstn n l) /\
      Series_yields t (skipn (List.length l - n) l) /\
      List.length (firstn n l) = n /\
      List.length (skipn (List.length l - n) l) = n.
Proof.
  intros V self l n Hy Hn.
  pose proof (Series_count_yields Hy) as Hc.
  eexists. eexists.
  assert (Hh : Series_head self n ~~> Val _) by (unfold Series_head; apply evals_ret).
  assert (Ht : Series_tail self n ~~> Val _)
    by (unfold Series_tail; eval_step; apply evals_ret).
  split; [exact Hh|]. split; [exact Ht|]. split; [|split; [|split]].
  - eapply Series_take_yields; [exact Hy|apply evals_ret].
  - replace (List.length l - n)
      with (Z.to_nat (Z.of_nat (List.length l) - Z.of_nat n)) by lia.
    eapply Series_skip_yields; [exact Hy|apply evals_ret].
  - rewrite length_firstn. lia.
  - rewrite length_skipn. lia.
Qed.

(** The values 1..5: the first two and the last two. *)
Lemma Series_head_tail_yield_the_ends_witness :
  exists source h t,
    Series_of_values [VNum 1; VNum 2; VNum 3; VNum 4; VNum 5] ~~> Val source /\
    Series_head source 2 ~~> Val h /\
    Series_tail source 2 ~~> Val t /\
    Series_yields h [(VNum 0, VNum 1); (VNum 1, VNum 2)] /\
    Series_yields t [(VNum 3, VNum 4); (VNum 4, VNum 5)].
Proof.
  destruct (ex_intro (fun s => Series_of_values [VNum 1; VNum 2; VNum 3; VNum 4; VNum 5]
                                 ~~> Val s) _ (evals_ret _)) as [source E0].
  destruct (@Series_head_tail_yield_the_ends value source _ 2
              (Series_of_values_yields E0) ltac:(simpl; lia))
    as (h & t & Hh & Ht & Yh & Yt & _).
  exists source, h, t. repeat split; assumption.
Defined.

(** ** The index *)

Lemma present_indexed_values {V : Type} `{Absentable V} (l : list (pair V)) k :
  map snd (present (indexed_from k (map snd l))) = map snd (present l).
Proof.
  revert k. induction l as [|p l IH]; intros k; simpl; [reflexivity|].
  unfold present in *. simpl.
  destruct (is_absent (snd p)); simpl; now rewrite IH.
Qed.

(** X6. The index of a Series. For a pipeline that yields [l]: [getIndex]
    yields the index of each pair of [l] as a value, in order, numbered from
    0. [resetIndex] keeps the values, absent ones included, and numbers them
    from 0, so [toValues] returns what it returns on the original.
    [withIndex] pairs the values with the new index, given as an array or as
    the values of another Series, position by position; the result ends
    where the shorter of the two does. *)
Theorem Series_getIndex_resetIndex_withIndex :
  forall (V : Type) (absent : Absentable V) (self : Series V) (l : list (pair V)),
    Series_yields self l ->
    (exists index,
       Series_getIndex self ~~> Val index /\
       Series_yields index (indexed_from 0 (map fst l))) /\
    (exists r,
       Series_resetIndex self ~~> Val r /\
       Series_yields r (indexed_from 0 (map snd l)) /\
       Series_toValues r ~~> Val (map snd (present l)) /\
       Series_toValues self ~~> Val (map snd (present l))) /\
    (forall newIndex : list value,
       exists r,
         Series_withIndex self (NewIndexArray newIndex) ~~> Val r /\
         Series_yields r (combine newIndex (map snd l)) /\
         List.length (combine newIndex (map snd l))
           = Nat.min (List.length newIndex) (List.length l)) /\
    (forall (other : Series value) (lo : list (pair value)),
       Series_yields other lo ->
       exists r,
         Series_withIndex self (NewIndexPairs (Series_iterable other)) ~~> Val r /\
         Series_yields r (combine (map snd lo) (map snd l))).
Proof.
  intros V absent self l Hy.
  destruct (ExtractIterable_yields (@fst value V) Hy) as (it0 & Hg0 & Hr0).
  destruct (ExtractIterable_yields (@snd value V) Hy) as (it2 & Hg2 & Hr2).
  split; [|split; [|split]].
  - eexists. split; [apply evals_ret|].
    exists (PairIterator CountIterator it0). split.
    + simpl in *. eval_steps.
    + apply (CountIterator_PairIterator_runs Hr0 0).
  - assert (Hr : Series_yields
                   {| __iterable :=
                        PairsIterable CountIterable
                          (ExtractIterable (Series_iterable self) snd) |}
                   (indexed_from 0 (map snd l))).
    { exists (PairIterator CountIterator it2). split.
      - simpl in *. eval_steps.
      - apply (CountIterator_PairIterator_runs Hr2 0). }
    eexists. split; [apply evals_ret|]. split; [exact Hr|]. split.
    + rewrite <- (present_indexed_values l 0). now apply Series_toValues_yields.
    + now apply Series_toValues_yields.
  - intros newIndex. eexists. split; [apply evals_ret|]. split.
    + exists (PairIterator (ArrayIterator newIndex) it2). split.
      * simpl in *. eval_steps.
      * apply (PairIterator_runs (ArrayIterator_runs newIndex) Hr2).
    + now rewrite length_combine, length_map.
  - intros other lo Ho.
    destruct (ExtractIterable_yields (@snd value value) Ho) as (it1 & Hg1 & Hr1).
    eexists. split; [apply evals_ret|].
    exists (PairIterator it1 it2). split.
    + simpl in *. eval_steps.
    + apply (PairIterator_runs Hr1 Hr2).
Qed.

(** The Series of "a" and undefined under the index 5, 6: its index, and the
    Series under a reset index and under the index "x", "y", "z". *)
Lemma Series_getIndex_resetIndex_withIndex_witness :
  let self := {| __iterable := ArrayIterable [(VNum 5, VStr "a"); (VNum 6, VUndefined)] |} in
  (exists index,
     Series_getIndex self ~~> Val index /\
     Series_yields index [(VNum 0, VNum 5); (VNum 1, VNum 6)]) /\
  (exists r,
     Series_resetIndex self ~~> Val r /\
     Series_yields r [(VNum 0, VStr "a"); (VNum 1, VUndefined)] /\
     Series_toValues r ~~> Val [VStr "a"] /\
     Series_toValues self ~~> Val [VStr "a"]) /\
  (exists r,
     Series_withIndex self (NewIndexArray [VStr "x"; VStr "y"; VStr "z"]) ~~> Val r /\
     Series_yields r [(VStr "x", VStr "a"); (VStr "y", VUndefined)] /\
     List.length [(VStr "x", VStr "a"); (VStr "y", VUndefined)] = 2).
Proof.
  intros self.
  assert (Hy : Series_yields self [(VNum 5, VStr "a"); (VNum 6, VUndefined)])
    by (eexists; split; [simpl; apply evals_ret|apply ArrayIterator_runs]).
  destruct (@Series_getIndex_resetIndex_withIndex value _ self _ Hy)
    as (Hindex & Hreset & Harray & _).
  split; [exact Hindex|]. split; [exact Hreset|].
  exact (Harray [VStr "x"; VStr "y"; VStr "z"]).
Defined.

(** ** where, takeWhile, skipWhile *)

(** [Where] keeps the elements on which the predicate answers true. *)
Lemma WhereIterator_runs {A : Type} (it : Iterator A) (predicate : A -> M bool)
    (f : A -> bool) s l :
  runs it s l Finished ->
  (forall a, In a l -> predicate a ~~> Val (f a)) ->
  runs (WhereIterator_machine it predicate) s (filter f l) Finished.
Proof.
  intros Hr. remember Finished as en eqn:Een.
  induction Hr as [s s' Hm|s e Hm|s s' e Hm Hc|s s' a l en Hm Hc Hr IH]; intros Hp;
    try discriminate Een.
  - simpl. apply (@runs_finished _ (WhereIterator_machine it predicate) s s').
    simpl. apply evals_loop_return. eval_steps.
  - subst en.
    assert (Ha : predicate a ~~> Val (f a)) by (apply Hp; now left).
    assert (IH' : runs (WhereIterator_machine it predicate) s' (filter f l) Finished)
      by (apply IH; [reflexivity|intros b Hb; apply Hp; now right]).
    simpl. destruct (f a) eqn:Ef.
    + apply (@runs_more _ (WhereIterator_machine it predicate) s s').
      * simpl. apply evals_loop_return. eval_simpl.
      * simpl. exact Hc.
      * exact IH'.
    + eapply runs_moveNext_like; [|exact IH'].
      intros r Hmv. simpl in *.
      eapply evals_loop_continue; [|exact Hmv]. eval_simpl.
Qed.

(** [TakeWhile] keeps the longest prefix on which the predicate answers
    true. *)
Lemma TakeWhileIterator_runs {A : Type} (it : Iterator A) (predicate : A -> M bool)
    (f : A -> bool) s l :
  runs it s l Finished ->
  (forall a, In a l -> predicate a ~~> Val (f a)) ->
  runs (TakeWhileIterator_machine it predicate) (s, false) (take_while f l) Finished.
Proof.
  intros Hr. remember Finished as en eqn:Een.
  induction Hr as [s s' Hm|s e Hm|s s' e Hm Hc|s s' a l en Hm Hc Hr IH]; intros Hp;
    try discriminate Een.
  - simpl. apply runs_finished with (s' := (s', true)). simpl. eval_steps.
  - subst en.
    assert (Ha : predicate a ~~> Val (f a)) by (apply Hp; now left).
    simpl. destruct (f a) eqn:Ef.
    + apply runs_more with (s' := (s', false)).
      * simpl. eval_simpl.
      * simpl. exact Hc.
      * apply IH; [reflexivity|intros b Hb; apply Hp; now right].
    + apply runs_finished with (s' := (s', true)). simpl. eval_simpl.
Qed.

(** [SkipWhile] drops the longest prefix on which the predicate answers
    true. *)
Lemma SkipWhileIterator_runs {A : Type} (it : Iterator A) (predicate : A -> M bool)
    (f : A -> bool) s l :
  runs it s l Finished ->
  (forall a, In a l -> predicate a ~~> Val (f a)) ->
  runs (SkipWhileIterator_machine it predicate) (s, false) (drop_while f l) Finished.
Proof.
  intros Hr. remember Finished as en eqn:Een.
  induction Hr as [s s' Hm|s e Hm|s s' e Hm Hc|s s' a l en Hm Hc Hr IH]; intros Hp;
    try discriminate Een.
  - simpl. apply runs_finished with (s' := (s', false)). simpl.
    apply evals_loop_return. eval_steps.
  - subst en.
    assert (Ha : predicate a ~~> Val (f a)) by (apply Hp; now left).
    simpl. destruct (f a) eqn:Ef.
    + eapply runs_moveNext_like;
        [|apply IH; [reflexivity|intros b Hb; apply Hp; now right]].
      intros r Hmv. simpl in *.
      eapply evals_loop_continue; [|exact Hmv]. eval_simpl.
    + apply runs_more with (s' := (s', true)).
      * simpl. apply evals_loop_return. eval_simpl.
      * simpl. exact Hc.
      * now apply SkipWhileIterator_runs_skipped.
Qed.

Lemma take_while_drop_while {A : Type} (f : A -> bool) (l : list A) :
  take_while f l ++ drop_while f l = l.
Proof.
  induction l as [|a l IH]; simpl; [reflexivity|].
  destruct (f a); simpl; [now rewrite IH|reflexivity].
Qed.

(** X7. With a predicate [f] that always answers, on a pipeline that yields
    [l]: [takeWhile(f)] yields the longest prefix of [l] whose values satisfy
    [f], [skipWhile(f)] yields the rest, and the two together are [l];
    [takeUntil(f)] and [skipUntil(f)] do the same with the negation of [f].
    A value that satisfies [f] after the first one that does not is not
    taken by [takeWhile] and not dropped by [skipWhile]. *)
Theorem Series_takeWhile_skipWhile_partition :
  forall (V : Type) (self : Series V) (l : list (pair V)) (f : V -> bool),
    Series_yields self l ->
    exists taken skipped takenUntil skippedUntil,
      Series_takeWhile self (fun v => ret (f v)) ~~> Val taken /\
      Series_skipWhile self (fun v => ret (f v)) ~~> Val skipped /\
      Series_takeUntil self (fun v => ret (f v)) ~~> Val takenUntil /\
      Series_skipUntil self (fun v => ret (f v)) ~~> Val skippedUntil /\
      Series_yields taken (take_while (fun p => f (snd p)) l) /\
      Series_yields skipped (drop_while (fun p => f (snd p)) l) /\
      Series_yields takenUntil (take_while (fun p => negb (f (snd p))) l) /\
      Series_yields skippedUntil (drop_while (fun p => negb (f (snd p))) l) /\
      take_while (fun p => f (snd p)) l ++ drop_while (fun p => f (snd p)) l = l /\
      take_while (fun p => negb (f (snd p))) l ++ drop_while (fun p => negb (f (snd p))) l = l.
Proof.
  intros V self l f (iterator & Hg & Hr). simpl in Hg.
  do 4 eexists.
  split; [apply evals_ret|]. split; [apply evals_ret|].
  split; [apply evals_ret|]. split; [apply evals_ret|].
  split; [|split; [|split; [|split; [|split]]]].
  - eexists. split; [simpl; eval_steps|].
    apply (@TakeWhileIterator_runs _ (machine iterator) _ (fun p => f (snd p)) _ _ Hr).
    intros a _. apply evals_ret.
  - eexists. split; [simpl; eval_steps|].
    apply (@SkipWhileIterator_runs _ (machine iterator) _ (fun p => f (snd p)) _ _ Hr).
    intros a _. apply evals_ret.
  - eexists. split; [simpl; eval_steps|].
    apply (@TakeWhileIterator_runs _ (machine iterator) _ (fun p => negb (f (snd p))) _ _ Hr).
    intros a _. eval_steps.
  - eexists. split; [simpl; eval_steps|].
    apply (@SkipWhileIterator_runs _ (machine iterator) _ (fun p => negb (f (snd p))) _ _ Hr).
    intros a _. eval_steps.
  - apply take_while_drop_while.
  - apply take_while_drop_while.
Qed.

(** The values "a", 5, "b" and the predicate "is a string". *)
Lemma Series_takeWhile_skipWhile_partition_witness :
  exists source taken skipped takenUntil skippedUntil,
    Series_of_values [VStr "a"; VNum 5; VStr "b"] ~~> Val source /\
    Series_takeWhile source (fun v => ret (is_string v)) ~~> Val taken /\
    Series_skipWhile source (fun v => ret (is_string v)) ~~> Val skipped /\
    Series_takeUntil source (fun v => ret (is_string v)) ~~> Val takenUntil /\
    Series_skipUntil source (fun v => ret (is_string v)) ~~> Val skippedUntil /\
    Series_yields taken [(VNum 0, VStr "a")] /\
    Series_yields skipped [(VNum 1, VNum 5); (VNum 2, VStr "b")] /\
    Series_yields takenUntil [] /\
    Series_yields skippedUntil [(VNum 0, VStr "a"); (VNum 1, VNum 5); (VNum 2, VStr "b")].
Proof.
  destruct (ex_intro (fun s => Series_of_values [VStr "a"; VNum 5; VStr "b"] ~~> Val s) _
              (evals_ret _)) as [source E0].
  destruct (@Series_takeWhile_skipWhile_partition value source _ is_string
              (Series_of_values_yields E0))
    as (taken & skipped & takenUntil & skippedUntil & H1 & H2 & H3 & H4 & Y1 & Y2 & Y3 & Y4 & _).
  exists source, taken, skipped, takenUntil, skippedUntil. repeat split; assumption.
Defined.

(** X8. [where] keeps exactly the pairs whose value satisfies the
    predicate, in source order and under their indexes; the predicate may
    run code, as long as it answers on the values of the pipeline. *)
Theorem Series_where_filters :
  forall (V : Type) (self : Series V) (l : list (pair V))
         (predicate : V -> M bool) (f : V -> bool),
    Series_yields self l ->
    (forall p, In p l -> predicate (snd p) ~~> Val (f (snd p))) ->
    exists kept,
      Series_where self predicate ~~> Val kept /\
      Series_yields kept (filter (fun p => f (snd p)) l) /\
      Series_count kept ~~> Val (List.length (filter (fun p => f (snd p)) l)) /\
      List.length (filter (fun p => f (snd p)) l) <= List.length l.
Proof.
  intros V self l predicate f (iterator & Hg & Hr) Hp. simpl in Hg.
  assert (Hy : Series_yields
                 {| __iterable :=
                      WhereIterable (Series_iterable self) (fun pair => predicate (snd pair)) |}
                 (filter (fun p => f (snd p)) l)).
  { eexists. split; [simpl; eval_steps|].
    exact (@WhereIterator_runs _ (machine iterator) _ (fun p => f (snd p)) _ _ Hr Hp). }
  eexists. split; [apply evals_ret|]. split; [exact Hy|]. split.
  - exact (Series_count_yields Hy).
  - apply filter_length_le.
Qed.

(** The strings among "a", 5, "b". *)
Lemma Series_where_filters_witness :
  exists source kept,
    Series_of_values [VStr "a"; VNum 5; VStr "b"] ~~> Val source /\
    Series_where source (fun v => ret (is_string v)) ~~> Val kept /\
    Series_yields kept [(VNum 0, VStr "a"); (VNum 2, VStr "b")] /\
    Series_count kept ~~> Val 2.
Proof.
  destruct (ex_intro (fun s => Series_of_values [VStr "a"; VNum 5; VStr "b"] ~~> Val s) _
              (evals_ret _)) as [source E0].
  destruct (@Series_where_filters value source _ (fun v => ret (is_string v)) is_string
              (Series_of_values_yields E0) (fun p _ => evals_ret _))
    as (kept & Hk & Yk & Ck & _).
  exists source, kept. repeat split; assumption.
Defined.

(** ** select *)

Lemma Forall2_selected {V W : Type} (selector : V -> value -> M W) (g : V -> value -> W)
    (l : list (pair V)) :
  (forall p, In p l -> selector (snd p) (fst p) ~~> Val (g (snd p) (fst p))) ->
  Forall2 (fun p q => fst q = fst p /\ selector (snd p) (fst p) ~~> Val (snd q))
          l (map (fun p => (fst p, g (snd p) (fst p))) l).
Proof.
  induction l as [|p l IH]; intros Hs; simpl; constructor.
  - split; [reflexivity|]. simpl. apply Hs. now left.
  - apply IH. intros q Hq. apply Hs. now right.
Qed.

(** The pipeline that [select] builds. *)
Lemma Series_select_yields {V W : Type} (self : Series V) l
    (selector : V -> value -> M W) (g : V -> value -> W) :
  Series_yields self l ->
  (forall p, In p l -> selector (snd p) (fst p) ~~> Val (g (snd p) (fst p))) ->
  Series_yields {| __iterable := SelectValuesIterable (Series_iterable self) selector |}
                (map (fun p => (fst p, g (snd p) (fst p))) l).
Proof.
  intros (iterator & Hg & Hr) Hs. simpl in Hg.
  eexists. split; [simpl; eval_steps|].
  unfold traces. simpl.
  eapply SelectValuesIterator_runs; [exact Hr|]. now apply Forall2_selected.
Qed.

(** X9. [select] replaces each value [v] under the index [i] by what the
    selector returns on [(v, i)] and keeps the index, the order and the
    number of pairs; two selections in a row yield what one selection with
    the composed function yields. *)
Theorem Series_select_maps_values :
  forall (V W X : Type) (self : Series V) (l : list (pair V))
         (g : V -> value -> W) (h : W -> value -> X),
    Series_yields self l ->
    exists s1 s2 s12,
      Series_select self (fun v i => ret (g v i)) ~~> Val s1 /\
      Series_select s1 (fun w i => ret (h w i)) ~~> Val s2 /\
      Series_select self (fun v i => ret (h (g v i) i)) ~~> Val s12 /\
      Series_yields s1 (map (fun p => (fst p, g (snd p) (fst p))) l) /\
      Series_yields s2 (map (fun p => (fst p, h (g (snd p) (fst p)) (fst p))) l) /\
      Series_yields s12 (map (fun p => (fst p, h (g (snd p) (fst p)) (fst p))) l) /\
      Series_count s1 ~~> Val (List.length l).
Proof.
  intros V W X self l g h Hy.
  pose proof (@Series_select_yields V W self l (fun v i => ret (g v i)) g Hy
                (fun p _ => evals_ret _)) as Y1.
  pose proof (@Series_select_yields W X _ _ (fun w i => ret (h w i)) h Y1
                (fun p _ => evals_ret _)) as Y2.
  pose proof (@Series_select_yields V X self l (fun v i => ret (h (g v i) i))
                (fun v i => h (g v i) i) Hy (fun p _ => evals_ret _)) as Y12.
  rewrite map_map in Y2. simpl in Y2.
  do 3 eexists.
  split; [apply evals_ret|]. split; [apply evals_ret|]. split; [apply evals_ret|].
  split; [exact Y1|]. split; [exact Y2|]. split; [exact Y12|].
  pose proof (Series_count_yields Y1) as C. now rewrite length_map in C.
Qed.

(** Wrapping the values 1, 2 in an array together with their index, then
    taking the type of the result. *)
Lemma Series_select_maps_values_witness :
  exists source s1 s2 s12,
    Series_of_values [VNum 1; VNum 2] ~~> Val source /\
    Series_select source (fun v i => ret (VArr [i; v])) ~~> Val s1 /\
    Series_select s1 (fun w _ => ret (VStr (js_typeof w))) ~~> Val s2 /\
    Series_select source (fun v i => ret (VStr (js_typeof (VArr [i; v])))) ~~> Val s12 /\
    Series_yields s1 [(VNum 0, VArr [VNum 0; VNum 1]); (VNum 1, VArr [VNum 1; VNum 2])] /\
    Series_yields s2 [(VNum 0, VStr "object"); (VNum 1, VStr "object")] /\
    Series_yields s12 [(VNum 0, VStr "object"); (VNum 1, VStr "object")].
Proof.
  destruct (ex_intro (fun s => Series_of_values [VNum 1; VNum 2] ~~> Val s) _
              (evals_ret _)) as [source E0].
  destruct (@Series_select_maps_values value value value source _
              (fun v i => VArr [i; v]) (fun w _ => VStr (js_typeof w))
              (Series_of_values_yields E0))
    as (s1 & s2 & s12 & H1 & H2 & H12 & Y1 & Y2 & Y12 & _).
  exists source, s1, s2, s12. repeat split; assumption.
Defined.

(** ** Aggregation *)

Lemma fold_left_map_snd {V W : Type} (g : W -> V -> W) (l : list (pair V)) (seed : W) :
  fold_left (fun working (cur : pair V) => g working (snd cur)) l seed
  = fold_left g (map snd l) seed.
Proof.
  revert seed. induction l as [|p l IH]; intros seed; simpl; [reflexivity|apply IH].
Qed.

(** [aggregate] with a seed folds the selector over the values. *)
Lemma Series_aggregate_seeded_yields {V W : Type} (self : Series V) l (seed : W)
    (selector : W -> V -> M W) (g : W -> V -> W) :
  Series_yields self l ->
  (forall w v, selector w v ~~> Val (g w v)) ->
  Series_aggregate_seeded self seed selector ~~> Val (fold_left g (map snd l) seed).
Proof.
  intros (iterator & Hg & Hr) Hs. simpl in Hg. unfold Series_aggregate_seeded.
  eval_step.
  pose proof (@loop_over_runs _ W W (machine iterator)
    (fun '(s, working) =>
       '(more, s') <- moveNext (machine iterator) s ;;
       if more then
         cur <- getCurrent (machine iterator) s' ;;
         let curValue := snd cur in
         working' <- selector working curValue ;;
         ret (inl (s', working'))
       else ret (inr working))
    (fun working cur => g working (snd cur))
    (fun working => working)) as L.
  specialize (L ltac:(intros; eval_steps)
                ltac:(intros s s' a acc ? ?; pose proof (Hs acc (snd a)); eval_steps)
                ltac:(intros; eval_steps) ltac:(intros; eval_steps) _ _ _ Hr seed).
  simpl in L. rewrite fold_left_map_snd in L. exact L.
Qed.

(** [aggregate] without a seed starts from the first value. *)
Lemma Series_aggregate_yields {V : Type} (self : Series V) i v rest
    (selector : V -> V -> M V) (g : V -> V -> V) :
  Series_yields self ((i, v) :: rest) ->
  (forall a b, selector a b ~~> Val (g a b)) ->
  Series_aggregate self selector ~~> Val (fold_left g (map snd rest) v).
Proof.
  intros Hy Hs.
  assert (Hrest : Series_yields {| __iterable := SkipIterable (Series_iterable self) 1 |} rest)
    by (eapply (@Series_skip_yields V self ((i, v) :: rest) 1); [exact Hy|apply evals_ret]).
  pose proof (@Series_aggregate_seeded_yields V V _ rest v selector g Hrest Hs) as Ha.
  destruct Hy as (iterator & Hg & Hr).
  destruct (traces_cons_inv Hr) as (s' & Hm & Hc & _). simpl in Hg.
  unfold Series_aggregate.
  eapply evals_bind; [apply evals_ret|]. cbn beta.
  eapply evals_bind; [|exact Ha].
  unfold Series_first. eval_simpl.
Qed.

(** X10. [aggregate] folds the selector over the values of the pipeline from
    left to right. With a seed it starts from the seed, and returns the seed
    on an empty Series; without a seed it starts from the first value and
    folds over the values after it. Every value takes part, absent ones
    too. *)
Theorem Series_aggregate_folds :
  forall (V W : Type) (self : Series V) (l : list (pair V))
         (seed : W) (h : W -> V -> W) (g : V -> V -> V),
    Series_yields self l ->
    Series_aggregate_seeded self seed (fun w v => ret (h w v))
      ~~> Val (fold_left h (map snd l) seed) /\
    (l = [] -> Series_aggregate_seeded self seed (fun w v => ret (h w v)) ~~> Val seed) /\
    (forall i v rest,
       l = (i, v) :: rest ->
       Series_aggregate self (fun a b => ret (g a b)) ~~> Val (fold_left g (map snd rest) v)).
Proof.
  intros V W self l seed h g Hy.
  assert (Hs : Series_aggregate_seeded self seed (fun w v => ret (h w v))
                 ~~> Val (fold_left h (map snd l) seed))
    by (apply Series_aggregate_seeded_yields; [exact Hy|intros; apply evals_ret]).
  split; [exact Hs|]. split.
  - intros ->. exact Hs.
  - intros i v rest ->.
    eapply Series_aggregate_yields; [exact Hy|intros; apply evals_ret].
Qed.

(** Collecting the values "a", undefined into an array, and keeping the last
    of them. *)
Lemma Series_aggregate_folds_witness :
  let self := {| __iterable := ArrayIterable [(VNum 0, VStr "a"); (VNum 1, VUndefined)] |} in
  Series_aggregate_seeded self [] (fun w v => ret (w ++ [v])) ~~> Val [VStr "a"; VUndefined] /\
  Series_aggregate self (fun a b => ret b) ~~> Val VUndefined.
Proof.
  intros self.
  destruct (@Series_aggregate_folds value (list value) self _ []
              (fun w v => w ++ [v]) (fun a b => b) example_Series_yields)
    as (Hseeded & _ & Hfirst).
  split; [exact Hseeded|].
  exact (Hfirst (VNum 0) (VStr "a") [(VNum 1, VUndefined)] eq_refl).
Defined.

(** X11. On a Series with at least one pair, [sum] is the host's [+] folded
    over the values from the first one on, [average] is that sum divided by
    the number of pairs, and [min] and [max] are [Math.min] and [Math.max]
    folded the same way. Absent values are not left out: they enter the
    fold, and they are counted in the divisor. *)
Theorem Series_sum_average_min_max_fold :
  forall (js_add js_div Math_min Math_max : value -> value -> value)
         (self : Series value) (i v : value) (rest : list (pair value)),
    Series_yields self ((i, v) :: rest) ->
    Series_sum js_add self ~~> Val (fold_left js_add (map snd rest) v) /\
    Series_average js_add js_div self
      ~~> Val (js_div (fold_left js_add (map snd rest) v)
                      (VNum (Z.of_nat (Datatypes.S (List.length rest))))) /\
    Series_min Math_min self ~~> Val (fold_left Math_min (map snd rest) v) /\
    Series_max Math_max self ~~> Val (fold_left Math_max (map snd rest) v).
Proof.
  intros js_add js_div Math_min Math_max self i v rest Hy.
  destruct (Series_any_none_no_predicate Hy) as [_ Hnone]. simpl in Hnone.
  assert (Hsum : Series_sum js_add self ~~> Val (fold_left js_add (map snd rest) v)).
  { unfold Series_sum. eapply evals_bind; [exact Hnone|]. cbn beta iota.
    eapply Series_aggregate_yields; [exact Hy|intros; apply evals_ret]. }
  split; [exact Hsum|]. split; [|split].
  - unfold Series_average.
    eapply evals_bind; [exact (Series_count_yields Hy)|]. simpl.
    eapply evals_bind; [exact Hsum|]. apply evals_ret.
  - unfold Series_min. eapply Series_aggregate_yields; [exact Hy|intros; apply evals_ret].
  - unfold Series_max. eapply Series_aggregate_yields; [exact Hy|intros; apply evals_ret].
Qed.

(** With operations that list their operands, on the values "a" and
    undefined: the absent value is an operand, and the divisor is 2. *)
Lemma Series_sum_average_min_max_fold_witness :
  let self := {| __iterable := ArrayIterable [(VNum 0, VStr "a"); (VNum 1, VUndefined)] |} in
  let op := fun a b : value => VArr [a; b] in
  Series_sum op self ~~> Val (VArr [VStr "a"; VUndefined]) /\
  Series_average op op self ~~> Val (VArr [VArr [VStr "a"; VUndefined]; VNum 2]) /\
  Series_min op self ~~> Val (VArr [VStr "a"; VUndefined]) /\
  Series_max op self ~~> Val (VArr [VStr "a"; VUndefined]).
Proof.
  intros self op.
  exact (@Series_sum_average_min_max_fold op op op op self _ _ _ example_Series_yields).
Defined.

(** ** bake, insertPair, appendPair *)

(** X12. [bake], [insertPair] and [appendPair] read the pipeline when they
    are called. If the pipeline finishes with the pairs [l], the baked
    Series is marked as baked and yields the pairs of [l] whose value is not
    absent: a pair with an absent value is lost, so the baked Series may
    count fewer pairs than the original; baking a baked Series returns it
    unchanged. [insertPair] and [appendPair] yield the given pair, kept
    whatever its value, before, respectively after, the pairs of [l] whose
    value is not absent. If the pipeline raises when driven, the three
    functions raise the same exception. *)
Theorem Series_bake_insertPair_appendPair :
  forall (V : Type) (absent : Absentable V) (self : Series V)
         (iterator : Cursor (pair V)) (l : list (pair V)) (en : ending)
         (pair : pair V),
    Series_getIterator self ~~> Val iterator ->
    traces iterator l en ->
    match en with
    | Finished =>
        (exists baked,
           Series_bake self false ~~> Val (baked, true) /\
           Series_yields baked (present l) /\
           Series_count baked ~~> Val (List.length (present l)) /\
           Series_bake baked true ~~> Val (baked, true)) /\
        (exists inserted appended,
           Series_insertPair self pair ~~> Val inserted /\
           Series_appendPair self pair ~~> Val appended /\
           Series_yields inserted (pair :: present l) /\
           Series_yields appended (present l ++ [pair]))
    | Raised e =>
        Series_bake self false ~~> Exn e /\
        Series_insertPair self pair ~~> Exn e /\
        Series_appendPair self pair ~~> Exn e
    end.
Proof.
  intros V absent self iterator l en pair Hg Hr.
  pose proof (Series_toPairs_traces self Hg Hr) as Hp.
  destruct en as [|e].
  - split.
    + assert (Hy : Series_yields
                     {| __iterable := {| getIterator := ret (ArrayIterator (present l)) |} |}
                     (present l)).
      { eexists. split; [simpl; apply evals_ret|]. apply ArrayIterator_runs. }
      eexists. split; [|split; [exact Hy|split]].
      * unfold Series_bake. eval_simpl.
      * exact (Series_count_yields Hy).
      * apply evals_ret.
    + do 2 eexists. split; [|split; [|split]].
      * unfold Series_insertPair. eval_simpl.
      * unfold Series_appendPair. eval_simpl.
      * eexists. split; [simpl; apply evals_ret|].
        apply (ArrayIterator_runs (pair :: present l)).
      * eexists. split; [simpl; apply evals_ret|]. apply ArrayIterator_runs.
  - split; [|split].
    + unfold Series_bake. cbv beta iota. apply evals_bind_exn. exact Hp.
    + unfold Series_insertPair. apply evals_bind_exn. exact Hp.
    + unfold Series_appendPair. apply evals_bind_exn. exact Hp.
Qed.

(** Baking the Series of "a" and undefined leaves one pair; so does adding a
    pair with an absent value, which itself is kept. *)
Lemma Series_bake_insertPair_appendPair_witness :
  let self := {| __iterable := ArrayIterable [(VNum 0, VStr "a"); (VNum 1, VUndefined)] |} in
  (exists baked,
     Series_bake self false ~~> Val (baked, true) /\
     Series_yields baked [(VNum 0, VStr "a")] /\
     Series_count baked ~~> Val 1 /\
     Series_bake baked true ~~> Val (baked, true)) /\
  (exists inserted appended,
     Series_insertPair self (VNum 9, VUndefined) ~~> Val inserted /\
     Series_appendPair self (VNum 9, VUndefined) ~~> Val appended /\
     Series_yields inserted [(VNum 9, VUndefined); (VNum 0, VStr "a")] /\
     Series_yields appended [(VNum 0, VStr "a"); (VNum 9, VUndefined)]).
Proof.
  intros self.
  exact (@Series_bake_insertPair_appendPair value _ self
           (ArrayIterator [(VNum 0, VStr "a"); (VNum 1, VUndefined)]) _ Finished
           (VNum 9, VUndefined) (evals_ret _)
           (ArrayIterator_runs [(VNum 0, VStr "a"); (VNum 1, VUndefined)])).
Defined.

(** ** defaultIfEmpty *)

(** X13. [defaultIfEmpty] returns the Series itself when the pipeline has a
    pair. When it has none, it returns the default: the given Series as it
    is, or a Series over the given array that numbers its values from 0. *)
Theorem Series_defaultIfEmpty_spec :
  forall (V : Type) (self : Series V) (l : list (pair V)),
    Series_yields self l ->
    (l <> [] ->
     forall defaultSequence, Series_defaultIfEmpty self defaultSequence ~~> Val self) /\
    (l = [] ->
     (forall other : Series V,
        Series_defaultIfEmpty self (DefaultSeries other) ~~> Val other) /\
     (forall values : list V,
        exists r,
          Series_defaultIfEmpty self (DefaultArray values) ~~> Val r /\
          Series_yields r (indexed_from 0 values))).
Proof.
  intros V self l Hy.
  destruct (Series_any_none_no_predicate Hy) as [_ Hnone].
  split.
  - intros Hl defaultSequence. unfold Series_defaultIfEmpty.
    eapply evals_bind; [exact Hnone|].
    destruct l as [|p l]; [congruence|]. simpl. apply evals_ret.
  - intros ->. simpl in Hnone. split.
    + intros other. unfold Series_defaultIfEmpty.
      eapply evals_bind; [exact Hnone|]. simpl. apply evals_ret.
    + intros values. eexists. split.
      * unfold Series_defaultIfEmpty.
        eapply evals_bind; [exact Hnone|]. simpl. apply evals_ret.
      * apply (@Series_of_values_yields V values). apply evals_ret.
Qed.

(** The default of the empty Series, and of a Series that has pairs. *)
Lemma Series_defaultIfEmpty_spec_witness :
  let empty := {| __iterable := EmptyIterable (pair value) |} in
  let self := {| __iterable := ArrayIterable [(VNum 0, VStr "a"); (VNum 1, VUndefined)] |} in
  (exists r,
     Series_defaultIfEmpty empty (DefaultArray [VNum 7]) ~~> Val r /\
     Series_yields r [(VNum 0, VNum 7)]) /\
  Series_defaultIfEmpty self (DefaultArray [VNum 7]) ~~> Val self.
Proof.
  intros empty self. split.
  - destruct (@Series_defaultIfEmpty_spec value empty []
                (@Series_new_empty_yields value _ (evals_ret _))) as [_ He].
    exact (proj2 (He eq_refl) [VNum 7]).
  - destruct (@Series_defaultIfEmpty_spec value self _ example_Series_yields) as [Hs _].
    apply Hs. discriminate.
Defined.

(** ** at *)

(** The loop of [at], entered on a current pair. *)
Lemma Series_at_loop (index_equal : value -> value -> bool) (it : Iterator (pair value))
    (index : value) s l :
  runs it s l Finished ->
  forall a,
    getCurrent it s ~~> Val a ->
    loop (fun s =>
            curPair <- getCurrent it s ;;
            if index_equal (fst curPair) index then ret (inr (snd curPair))
            else
              '(more, s') <- moveNext it s ;;
              if more then ret (inl s') else ret (inr VUndefined))
         s
      ~~> Val (match find (fun p => index_equal (fst p) index) (a :: l) with
               | Some p => snd p
               | None => VUndefined
               end).
Proof.
  intros Hr. remember Finished as en eqn:Een.
  induction Hr as [s s' Hm|s e Hm|s s' e Hm Hc|s s' b l en Hm Hc Hr IH]; intros a Ha;
    try discriminate Een.
  - simpl. destruct (index_equal (fst a) index) eqn:E.
    + apply evals_loop_return. eval_step. rewrite E. apply evals_ret.
    + apply evals_loop_return. eval_step. rewrite E. eval_steps.
  - simpl find. destruct (index_equal (fst a) index) eqn:E.
    + apply evals_loop_return. eval_step. rewrite E. apply evals_ret.
    + eapply evals_loop_continue.
      * eval_step. rewrite E. eval_steps.
      * exact (IH Een b Hc).
Qed.

(** X14. [at(index)] returns the value of the first pair of the pipeline
    whose index is [===] to the given one, and undefined when there is no
    such pair, in particular on an empty Series; it does not raise on a
    missing index, and under a repeated index the first pair wins. *)
Theorem Series_at_first_match_or_undefined :
  forall (index_equal : value -> value -> bool) (self : Series value)
         (l : list (pair value)) (index : value),
    Series_yields self l ->
    Series_at index_equal self index
      ~~> Val (match find (fun p => index_equal (fst p) index) l with
               | Some p => snd p
               | None => VUndefined
               end).
Proof.
  intros index_equal self l index (iterator & Hg & Hr). simpl in Hg.
  unfold Series_at. eval_step.
  inversion Hr as [s s' Hm| | |s s' a l' en Hm Hc Hr']; subst.
  - eval_simpl.
  - eval_step. simpl. exact (Series_at_loop index_equal index Hr' Hc).
Qed.

(** Under the index 1, 2, 1: the value at 1 is the first one, and there is
    nothing at 5. *)
Lemma Series_at_first_match_or_undefined_witness :
  exists source,
    Series_of_index_values [VNum 1; VNum 2; VNum 1] [VStr "a"; VStr "b"; VStr "c"]
      ~~> Val source /\
    Series_at number_equal source (VNum 1) ~~> Val (VStr "a") /\
    Series_at number_equal source (VNum 5) ~~> Val VUndefined.
Proof.
  destruct (ex_intro (fun s => Series_of_index_values [VNum 1; VNum 2; VNum 1]
                                 [VStr "a"; VStr "b"; VStr "c"] ~~> Val s) _ (evals_ret _))
    as [source E0].
  exists source. split; [exact E0|]. split.
  - exact (@Series_at_first_match_or_undefined number_equal source _ (VNum 1)
             (Series_of_index_values_yields E0)).
  - exact (@Series_at_first_match_or_undefined number_equal source _ (VNum 5)
             (Series_of_index_values_yields E0)).
Defined.

(** ** intersection and except *)

Lemma existsb_filter_length {A : Type} (g : A -> bool) (l : list A) :
  negb (List.length (filter g l) =? 0)%nat = existsb g l.
Proof.
  induction l as [|a l IH]; simpl; [reflexivity|].
  destruct (g a); simpl; [reflexivity|exact IH].
Qed.

Lemma filter_negb_length {A : Type} (g : A -> bool) (l : list A) :
  List.length (filter g l) + List.length (filter (fun a => negb (g a)) l) = List.length l.
Proof.
  induction l as [|a l IH]; simpl; [reflexivity|].
  destruct (g a); simpl; lia.
Qed.

(** Whether [other] has a value that the comparer matches with [left]: the
    test that [intersection] and [except] run on each value. *)
Lemma Series_matching_in_other {V : Type} (other : Series V) lo
    (comparer : V -> V -> M bool) (same : V -> V -> bool) (left : V) :
  Series_yields other lo ->
  (forall a b, comparer a b ~~> Val (same a b)) ->
  (matching <- Series_where other (fun right => comparer left right) ;;
   Series_any matching None) ~~> Val (existsb (fun q => same left (snd q)) lo) /\
  (matching <- Series_where other (fun right => comparer left right) ;;
   Series_none matching None) ~~> Val (negb (existsb (fun q => same left (snd q)) lo)).
Proof.
  intros (iterator & Hg & Hr) Hc. simpl in Hg.
  assert (Hy : Series_yields
                 {| __iterable :=
                      WhereIterable (Series_iterable other)
                        (fun pair => comparer left (snd pair)) |}
                 (filter (fun q => same left (snd q)) lo)).
  { eexists. split; [simpl; eval_steps|].
    exact (@WhereIterator_runs _ (machine iterator) _ (fun q => same left (snd q)) _ _ Hr
             (fun q _ => Hc left (snd q))). }
  destruct (Series_any_none_no_predicate Hy) as [Hany Hnone].
  rewrite existsb_filter_length in Hany.
  rewrite <- (negb_involutive (_ =? 0)%nat), existsb_filter_length in Hnone.
  split.
  - eapply evals_bind; [apply evals_ret|]. exact Hany.
  - eapply evals_bind; [apply evals_ret|]. exact Hnone.
Qed.

(** X15. With a comparer that always answers ([===] when none is given),
    [intersection] yields the pairs of the pipeline whose value matches some
    value of the other Series, and [except] the pairs whose value matches
    none, both in source order and under their indexes: every pair of the
    pipeline is in exactly one of the two. *)
Theorem Series_intersection_except_partition :
  forall (V : Type) (strict_equal : V -> V -> bool)
         (comparer : option (V -> V -> M bool)) (same : V -> V -> bool)
         (self other : Series V) (l lo : list (pair V)),
    Series_yields self l ->
    Series_yields other lo ->
    (forall a b, default_comparer strict_equal comparer a b ~~> Val (same a b)) ->
    exists common rest,
      Series_intersection strict_equal self other comparer ~~> Val common /\
      Series_except strict_equal self other comparer ~~> Val rest /\
      Series_yields common (filter (fun p => existsb (fun q => same (snd p) (snd q)) lo) l) /\
      Series_yields rest
        (filter (fun p => negb (existsb (fun q => same (snd p) (snd q)) lo)) l) /\
      List.length (filter (fun p => existsb (fun q => same (snd p) (snd q)) lo) l)
        + List.length (filter (fun p => negb (existsb (fun q => same (snd p) (snd q)) lo)) l)
        = List.length l.
Proof.
  intros V strict_equal comparer same self other l lo (iterator & Hg & Hr) Ho Hc.
  simpl in Hg.
  do 2 eexists.
  split; [apply evals_ret|]. split; [apply evals_ret|]. split; [|split].
  - eexists. split; [simpl; eval_steps|].
    apply (@WhereIterator_runs _ (machine iterator) _
             (fun p => existsb (fun q => same (snd p) (snd q)) lo) _ _ Hr).
    intros p _.
    exact (proj1 (@Series_matching_in_other V other lo _ same (snd p) Ho Hc)).
  - eexists. split; [simpl; eval_steps|].
    apply (@WhereIterator_runs _ (machine iterator) _
             (fun p => negb (existsb (fun q => same (snd p) (snd q)) lo)) _ _ Hr).
    intros p _.
    exact (proj2 (@Series_matching_in_other V other lo _ same (snd p) Ho Hc)).
  - apply (filter_negb_length (fun p => existsb (fun q => same (snd p) (snd q)) lo)).
Qed.

(** The values 1, 2, 3, 2 against the values 2, 4, compared by [===]. *)
Lemma Series_intersection_except_partition_witness :
  exists self other common rest,
    Series_of_values [VNum 1; VNum 2; VNum 3; VNum 2] ~~> Val self /\
    Series_of_values [VNum 2; VNum 4] ~~> Val other /\
    Series_intersection number_equal self other None ~~> Val common /\
    Series_except number_equal self other None ~~> Val rest /\
    Series_yields common [(VNum 1, VNum 2); (VNum 3, VNum 2)] /\
    Series_yields rest [(VNum 0, VNum 1); (VNum 2, VNum 3)].
Proof.
  destruct (ex_intro (fun s => Series_of_values [VNum 1; VNum 2; VNum 3; VNum 2] ~~> Val s) _
              (evals_ret _)) as [self E0].
  destruct (ex_intro (fun s => Series_of_values [VNum 2; VNum 4] ~~> Val s) _
              (evals_ret _)) as [other E1].
  destruct (@Series_intersection_except_partition value number_equal None number_equal
              self other _ _ (Series_of_values_yields E0) (Series_of_values_yields E1)
              (fun a b => evals_ret _))
    as (common & rest & Hi & He & Yi & Ye & _).
  exists self, other, common, rest. repeat split; assumption.
Defined.

(** ** slice *)

Lemma skipn_indexed_from {V : Type} (values : list V) n k :
  skipn n (indexed_from k values) = indexed_from (k + Z.of_nat n) (skipn n values).
Proof.
  revert n k. induction values as [|v values IH]; intros n k.
  - now rewrite !skipn_nil.
  - destruct n as [|n]; simpl.
    + now rewrite Z.add_0_r.
    + rewrite IH. f_equal. lia.
Qed.

Section NumericOrder.

Variable js_less : value -> value -> bool.
Hypothesis js_less_numbers : forall x y, js_less (VNum x) (VNum y) = (x <? y)%Z.

Lemma drop_while_indexed_from {V : Type} (values : list V) k a :
  (k <= a)%Z ->
  drop_while (fun p : pair V => js_less (fst p) (VNum a)) (indexed_from k values)
  = skipn (Z.to_nat (a - k)) (indexed_from k values).
Proof.
  revert k. induction values as [|v values IH]; intros k Hk; simpl.
  - now rewrite skipn_nil.
  - rewrite js_less_numbers. destruct (Z.ltb_spec k a) as [Hlt|Hge].
    + rewrite IH by lia.
      replace (Z.to_nat (a - k)) with (Datatypes.S (Z.to_nat (a - (k + 1)))) by lia.
      reflexivity.
    + replace (Z.to_nat (a - k)) with 0 by lia. reflexivity.
Qed.

Lemma take_while_indexed_from {V : Type} (values : list V) k b :
  (k <= b)%Z ->
  take_while (fun p : pair V => js_less (fst p) (VNum b)) (indexed_from k values)
  = firstn (Z.to_nat (b - k)) (indexed_from k values).
Proof.
  revert k. induction values as [|v values IH]; intros k Hk; simpl.
  - now rewrite firstn_nil.
  - rewrite js_less_numbers. destruct (Z.ltb_spec k b) as [Hlt|Hge].
    + rewrite IH by lia.
      replace (Z.to_nat (b - k)) with (Datatypes.S (Z.to_nat (b - (k + 1)))) by lia.
      reflexivity.
    + replace (Z.to_nat (b - k)) with 0 by lia. reflexivity.
Qed.

Lemma slice_of_indexed_from {V : Type} (values : list V) (x y : nat) :
  x <= y ->
  take_while (fun p : pair V => js_less (fst p) (VNum (Z.of_nat y)))
    (drop_while (fun p : pair V => js_less (fst p) (VNum (Z.of_nat x)))
       (indexed_from 0 values))
  = firstn (y - x) (skipn x (indexed_from 0 values)).
Proof.
  intros Hxy. rewrite drop_while_indexed_from by lia.
  replace (Z.to_nat (Z.of_nat x - 0)) with x by lia.
  rewrite skipn_indexed_from. simpl.
  rewrite take_while_indexed_from by lia.
  f_equal. lia.
Qed.

End NumericOrder.

(** X16. [slice(start, end)] with two indexes and no predicate drops the
    leading pairs whose index is [<] the start and then takes pairs while
    their index is [<] the end; it stops at the first pair that is not below
    the end, whatever follows. On a Series under the default index 0, 1,
    2, ... with [start <= end], that is the pairs at the positions from
    [start] up to, not including, [end]. *)
Theorem Series_slice_by_index :
  forall (js_less : value -> value -> bool) (V : Type) (self : Series V)
         (l : list (pair V)) (a b : value),
    Series_yields self l ->
    exists sliced,
      Series_slice js_less self (BoundIndex a) (BoundIndex b) None ~~> Val sliced /\
      Series_yields sliced
        (take_while (fun p => js_less (fst p) b) (drop_while (fun p => js_less (fst p) a) l)) /\
      (forall (values : list V) (x y : nat),
         (forall u w, js_less (VNum u) (VNum w) = (u <? w)%Z) ->
         l = indexed_from 0 values ->
         a = VNum (Z.of_nat x) -> b = VNum (Z.of_nat y) -> x <= y ->
         take_while (fun p => js_less (fst p) b) (drop_while (fun p => js_less (fst p) a) l)
         = firstn (y - x) (skipn x l)).
Proof.
  intros js_less V self l a b (iterator & Hg & Hr). simpl in Hg.
  eexists. split; [apply evals_ret|]. split.
  - eexists. split; [simpl; eval_steps|].
    unfold traces. simpl.
    pose proof (@SkipWhileIterator_runs _ (machine iterator)
                  (fun pair : pair V => ret (js_less (fst pair) a))
                  (fun p => js_less (fst p) a) _ _ Hr (fun p _ => evals_ret _)) as Hs.
    exact (@TakeWhileIterator_runs _ _
             (fun pair : pair V => ret (js_less (fst pair) b))
             (fun p => js_less (fst p) b) _ _ Hs (fun p _ => evals_ret _)).
  - intros values x y Hless -> -> -> Hxy. now apply slice_of_indexed_from.
Qed.

(** The values "a".."e" from position 1 to position 3. *)
Lemma Series_slice_by_index_witness :
  let js_less := fun u w => match u, w with
                            | VNum x, VNum y => (x <? y)%Z
                            | _, _ => false
                            end in
  exists source sliced,
    Series_of_values [VStr "a"; VStr "b"; VStr "c"; VStr "d"; VStr "e"] ~~> Val source /\
    Series_slice js_less source (BoundIndex (VNum 1)) (BoundIndex (VNum 3)) None
      ~~> Val sliced /\
    Series_yields sliced [(VNum 1, VStr "b"); (VNum 2, VStr "c")].
Proof.
  intros js_less.
  destruct (ex_intro (fun s => Series_of_values
                                 [VStr "a"; VStr "b"; VStr "c"; VStr "d"; VStr "e"] ~~> Val s)
              _ (evals_ret _)) as [source E0].
  destruct (@Series_slice_by_index js_less value source _ (VNum 1) (VNum 3)
              (Series_of_values_yields E0)) as (sliced & Hs & Ys & _).
  exists source, sliced. repeat split; assumption.
Defined.

(** ** truncateStrings *)

Lemma substring_0_length (n : nat) (s : string) :
  String.length (substring 0 n s) = Nat.min n (String.length s).
Proof.
  revert n. induction s as [|c s IH]; intros n; destruct n as [|n]; simpl; auto.
Qed.

Lemma truncated_bound (maxLength : Z) (v : value) :
  (0 <= maxLength)%Z ->
  match truncated maxLength v with
  | VStr s => (Z.of_nat (String.length s) <= maxLength)%Z
  | _ => True
  end.
Proof.
  intros Hn. destruct v; simpl; auto.
  destruct (Z.gtb_spec (Z.of_nat (String.length s)) maxLength) as [Hgt|Hle].
  - rewrite substring_0_length. lia.
  - exact Hle.
Qed.

Lemma truncated_idempotent (maxLength : Z) (v : value) :
  (0 <= maxLength)%Z ->
  truncated maxLength (truncated maxLength v) = truncated maxLength v.
Proof.
  intros Hn. pose proof (truncated_bound v Hn) as Hb.
  destruct (truncated maxLength v) eqn:E; simpl; auto.
  destruct (Z.gtb_spec (Z.of_nat (String.length s)) maxLength) as [Hgt|Hle]; [lia|reflexivity].
Qed.

(** X17. [truncateStrings(maxLength)] with a maximum that is not negative
    keeps the indexes and replaces each string longer than the maximum by
    its first [maxLength] characters; shorter strings and values that are
    not strings are passed unchanged. In the result no string is longer than
    the maximum, and truncating again changes nothing. *)
Theorem Series_truncateStrings_bounds_strings :
  forall (self : Series value) (l : list (pair value)) (maxLength : Z),
    Series_yields self l ->
    (0 <= maxLength)%Z ->
    exists r,
      Series_truncateStrings self maxLength ~~> Val r /\
      Series_yields r (map (fun p => (fst p, truncated maxLength (snd p))) l) /\
      (forall p, In p (map (fun p => (fst p, truncated maxLength (snd p))) l) ->
         match snd p with
         | VStr s => (Z.of_nat (String.length s) <= maxLength)%Z
         | _ => True
         end) /\
      (forall p, In p l -> is_string (snd p) = false -> truncated maxLength (snd p) = snd p) /\
      (forall v, truncated maxLength (truncated maxLength v) = truncated maxLength v).
Proof.
  intros self l maxLength Hy Hn.
  eexists. split; [apply evals_ret|]. split; [|split; [|split]].
  - apply (@Series_select_yields value value self l _ (fun v _ => truncated maxLength v) Hy).
    intros p _. unfold truncated. destruct (snd p); try apply evals_ret.
    destruct (_ >? _)%Z; apply evals_ret.
  - intros p Hin. apply in_map_iff in Hin. destruct Hin as (q & <- & _). simpl.
    now apply truncated_bound.
  - intros p _ Hs. destruct (snd p); simpl in *; auto. discriminate.
  - intros v. now apply truncated_idempotent.
Qed.

(** Truncating "hello", 12345 and "hi" to three characters. *)
Lemma Series_truncateStrings_bounds_strings_witness :
  exists source r,
    Series_of_values [VStr "hello"; VNum 12345; VStr "hi"] ~~> Val source /\
    Series_truncateStrings source 3 ~~> Val r /\
    Series_yields r [(VNum 0, VStr "hel"); (VNum 1, VNum 12345); (VNum 2, VStr "hi")].
Proof.
  destruct (ex_intro (fun s => Series_of_values [VStr "hello"; VNum 12345; VStr "hi"]
                                 ~~> Val s) _ (evals_ret _)) as [source E0].
  destruct (@Series_truncateStrings_bounds_strings source _ 3
              (Series_of_values_yields E0) ltac:(lia)) as (r & Hr & Yr & _).
  exists source, r. repeat split; assumption.
Defined.

(** ** Rolling windows and the edges of window *)

Lemma rolling_at_yields {V : Type} (self : Series V) l period k :
  Series_yields self l ->
  Series_yields (rolling_at self period k) (firstn period (skipn k l)).
Proof.
  intros Hy.
  eapply Series_take_yields; [|apply evals_ret].
  eapply Series_skip_yields; [exact Hy|apply evals_ret].
Qed.

Lemma Series_rollingWindow_moveNext {V : Type} (self : Series V) l period curOutput k :
  Series_yields self l ->
  moveNext (Series_rollingWindow_machine self period) (curOutput, k)
    ~~> Val (if (List.length (firstn period (skipn k l)) <? period)%nat
             then (false, (curOutput, k))
             else (true, (Some (VNum (Z.of_nat k), rolling_at self period k), Datatypes.S k))).
Proof.
  intros Hy.
  pose proof (Series_count_yields (rolling_at_yields period k Hy)) as Hc.
  simpl. eapply evals_bind; [apply evals_ret|]. cbn beta.
  eapply evals_bind; [apply evals_ret|]. cbn beta.
  eapply evals_bind; [exact Hc|]. cbn beta.
  destruct (_ <? _)%nat; apply evals_ret.
Qed.

Lemma Series_rollingWindow_runs {V : Type} (self : Series V) l period :
  Series_yields self l ->
  0 < period ->
  forall m k curOutput,
    (forall j, k <= j < k + m -> j + period <= List.length l) ->
    List.length l < k + m + period ->
    runs (Series_rollingWindow_machine self period) (curOutput, k)
         (indexed_from (Z.of_nat k) (map (rolling_at self period) (seq k m))) Finished.
Proof.
  intros Hy Hp. induction m as [|m IH]; intros k curOutput Hfull Hend.
  - simpl. eapply runs_finished.
    pose proof (Series_rollingWindow_moveNext period curOutput k Hy) as Hm.
    replace (List.length (firstn period (skipn k l)) <? period)%nat with true in Hm
      by (symmetry; apply Nat.ltb_lt; rewrite length_firstn, length_skipn; lia).
    exact Hm.
  - simpl.
    pose proof (Series_rollingWindow_moveNext period curOutput k Hy) as Hm.
    assert (Hk : k + period <= List.length l) by (apply Hfull; lia).
    replace (List.length (firstn period (skipn k l)) <? period)%nat with false in Hm
      by (symmetry; apply Nat.ltb_ge; rewrite length_firstn, length_skipn; lia).
    eapply runs_more; [exact Hm|simpl; apply evals_ret|].
    replace (Z.of_nat k + 1)%Z with (Z.of_nat (Datatypes.S k)) by lia.
    apply IH.
    + intros j Hj. apply Hfull. lia.
    + lia.
Qed.

(** X18. For a pipeline that yields the [n] pairs [l] and a period [p > 0],
    [rollingWindow(p)] yields [n + 1 - p] windows (none when [p > n]), the
    [k]-th under the index [k]; the [k]-th window yields the [p] pairs of
    [l] from position [k] on, so consecutive windows overlap in [p - 1]
    pairs. *)
Theorem Series_rollingWindow_windows :
  forall (V : Type) (self : Series V) (l : list (pair V)) (p : nat),
    Series_yields self l ->
    0 < p ->
    exists w windows,
      Series_rollingWindow self p None ~~> Val w /\
      Series_yields w (indexed_from 0 windows) /\
      List.length windows = List.length l + 1 - p /\
      Forall2 (fun k window => Series_yields window (firstn p (skipn k l)))
              (seq 0 (List.length windows)) windows /\
      (forall k, k < List.length windows -> List.length (firstn p (skipn k l)) = p).
Proof.
  intros V self l p Hy Hp.
  set (c := List.length l + 1 - p).
  assert (Hlen : List.length (map (rolling_at self p) (seq 0 c)) = c)
    by now rewrite length_map, length_seq.
  eexists. exists (map (rolling_at self p) (seq 0 c)).
  split; [apply evals_ret|]. rewrite Hlen.
  split; [|split; [reflexivity|split]].
  - eexists. split; [simpl; apply evals_ret|].
    apply (@Series_rollingWindow_runs V self l p Hy Hp c 0 None).
    + intros j Hj. unfold c in Hj. lia.
    + unfold c. lia.
  - clear Hlen. generalize 0 as k.
    induction c as [|c' IH] in |- *; intros k; simpl; constructor.
    + now apply rolling_at_yields.
    + apply IH.
  - intros k Hk. rewrite length_firstn, length_skipn. unfold c in Hk. lia.
Qed.

(** The values 1..4 in rolling windows of three: two windows. *)
Lemma Series_rollingWindow_windows_witness :
  exists source w windows,
    Series_of_values [VNum 1; VNum 2; VNum 3; VNum 4] ~~> Val source /\
    Series_rollingWindow source 3 None ~~> Val w /\
    Series_yields w (indexed_from 0 windows) /\
    List.length windows = 2 /\
    Forall2 (fun k window =>
               Series_yields window
                 (firstn 3 (skipn k (indexed_from 0 [VNum 1; VNum 2; VNum 3; VNum 4]))))
            (seq 0 (List.length windows)) windows.
Proof.
  destruct (ex_intro (fun s => Series_of_values [VNum 1; VNum 2; VNum 3; VNum 4] ~~> Val s) _
              (evals_ret _)) as [source E0].
  destruct (@Series_rollingWindow_windows value source _ 3
              (Series_of_values_yields E0) ltac:(lia))
    as (w & windows & Hw & Yw & Hl & Hf & _).
  exists source, w, windows. repeat split; assumption.
Defined.

(** [window] yields no window at all when the pipeline has no pair or
    the period is 0; the resulting Series counts 0 pairs. *)
Lemma Series_window_of_nothing :
  forall (V : Type) (self : Series V) (l : list (pair V)) (p : nat),
    Series_yields self l ->
    l = [] \/ p = 0 ->
    exists w,
      Series_window self p None ~~> Val w /\
      Series_yields w [] /\
      Series_count w ~~> Val 0.
Proof.
  intros V self l p Hy Hz.
  assert (Hs : segment p 0 l = []).
  { unfold segment. destruct Hz as [->| ->]; [now rewrite skipn_nil, firstn_nil|reflexivity]. }
  assert (Hw : Series_yields
                 {| __iterable :=
                      {| getIterator :=
                           ret {| machine := Series_window_machine self p;
                                  pos := (None, O) |} |} |} []).
  { eexists. split; [simpl; apply evals_ret|].
    apply (@Series_window_runs V self l p Hy 0 0 None).
    - intros j Hj. lia.
    - exact Hs. }
  eexists. split; [apply evals_ret|]. split; [exact Hw|].
  exact (Series_count_yields Hw).
Qed.

(** Windows of period 0 over the values "a" and undefined. *)
Lemma Series_window_of_nothing_witness :
  let self := {| __iterable := ArrayIterable [(VNum 0, VStr "a"); (VNum 1, VUndefined)] |} in
  exists w,
    Series_window self 0 None ~~> Val w /\
    Series_yields w [] /\
    Series_count w ~~> Val 0.
Proof.
  intros self.
  exact (@Series_window_of_nothing value self _ 0 example_Series_yields (or_intror eq_refl)).
Defined.

(** ** distinct *)

Lemma nth_error_length_app {A : Type} (pre : list A) x suf :
  nth_error (pre ++ x :: suf) (List.length pre) = Some x.
Proof. induction pre as [|a pre IH]; simpl; auto. Qed.

Lemma firstn_length_app {A : Type} (pre suf : list A) :
  firstn (List.length pre) (pre ++ suf) = pre.
Proof. induction pre as [|a pre IH]; simpl; [reflexivity|now rewrite IH]. Qed.

Lemma skipn_S_length_app {A : Type} (pre : list A) x suf :
  skipn (Datatypes.S (List.length pre)) (pre ++ x :: suf) = suf.
Proof. induction pre as [|a pre IH]; simpl; auto. Qed.

Lemma set_considered_app {A : Type} (pre : list (A * bool)) a c suf :
  set_considered (pre ++ (a, c) :: suf) (List.length pre) = pre ++ (a, true) :: suf.
Proof.
  unfold set_considered.
  now rewrite nth_error_length_app, firstn_length_app, skipn_S_length_app.
Qed.

Section DistinctLoops.

Context {V K : Type}.
Variable strict_equal : K -> K -> bool.
Variable selector : V -> M K.
Variable f : V -> K.
Hypothesis selector_f : forall v, selector v ~~> Val (f v).

Let same (y x : pair V) : bool := strict_equal (f (snd y)) (f (snd x)).

(** The inner loop marks, from its position on, the pairs that match the
    pair under consideration. *)
Lemma Series_distinct_compare_marks (x : pair V) suf :
  forall pre,
    Series_distinct_compare strict_equal selector x (pre ++ suf, List.length pre)
      ~~> Val (pre ++ map (fun yc => (fst yc, snd yc || same (fst yc) x)) suf).
Proof.
  induction suf as [|[y c] suf IH]; intros pre.
  - simpl. rewrite !app_nil_r. unfold Series_distinct_compare. apply evals_loop_return.
    cbv beta iota. rewrite Nat.ltb_irrefl. apply evals_ret.
  - assert (Hlt : (List.length pre <? List.length (pre ++ (y, c) :: suf))%nat = true)
      by (apply Nat.ltb_lt; rewrite length_app; simpl; lia).
    assert (Hnth : nth_error (pre ++ (y, c) :: suf) (List.length pre) = Some (y, c))
      by (rewrite nth_error_app2, Nat.sub_diag by lia; reflexivity).
    specialize (IH (pre ++ [(y, c || same y x)])).
    rewrite length_app in IH. simpl in IH. rewrite <- !app_assoc in IH. simpl in IH.
    replace (List.length pre + 1) with (Datatypes.S (List.length pre)) in IH by lia.
    simpl map. unfold Series_distinct_compare in *.
    eapply evals_loop_continue; [|exact IH].
    cbv beta iota. rewrite Hlt, Hnth. cbv beta iota.
    destruct c; simpl; [apply evals_ret|].
    pose proof (selector_f (snd y)) as Hy. pose proof (selector_f (snd x)) as Hx.
    eval_step. eval_step. unfold same.
    destruct (strict_equal (f (snd y)) (f (snd x))).
    + rewrite set_considered_app. apply evals_ret.
    + apply evals_ret.
Qed.

(** The outer loop keeps the pairs that are not marked when it reaches them. *)
Lemma Series_distinct_scan_keeps rest :
  forall pre seen output,
    Series_distinct_scan strict_equal selector
      (pre ++ map (fun y => (y, existsb (same y) seen)) rest, output, List.length pre)
      ~~> Val (output ++ distinct_by same seen rest).
Proof.
  induction rest as [|x rest IH]; intros pre seen output.
  - simpl. rewrite !app_nil_r. unfold Series_distinct_scan. apply evals_loop_return.
    cbv beta iota. rewrite Nat.ltb_irrefl. apply evals_ret.
  - set (input := pre ++ map (fun y => (y, existsb (same y) seen)) (x :: rest)).
    assert (Hlt : (List.length pre <? List.length input)%nat = true)
      by (apply Nat.ltb_lt; unfold input; rewrite length_app; simpl; lia).
    assert (Hnth : nth_error input (List.length pre) = Some (x, existsb (same x) seen))
      by (unfold input; rewrite nth_error_app2, Nat.sub_diag by lia; reflexivity).
    assert (Hlen : List.length (pre ++ [(x, true)]) = Datatypes.S (List.length pre))
      by (rewrite length_app; simpl; lia).
    simpl distinct_by. unfold Series_distinct_scan in *.
    destruct (existsb (same x) seen) eqn:E.
    + specialize (IH (pre ++ [(x, true)]) seen output).
      rewrite Hlen in IH. rewrite <- !app_assoc in IH. simpl in IH.
      eapply evals_loop_continue; [|exact IH].
      cbv beta iota. rewrite Hlt, Hnth. cbv beta iota.
      unfold input. simpl. rewrite E. apply evals_ret.
    + specialize (IH (pre ++ [(x, true)]) (seen ++ [x]) (output ++ [x])).
      rewrite Hlen in IH. rewrite <- !app_assoc in IH. simpl in IH.
      eapply evals_loop_continue; [|exact IH].
      cbv beta iota. rewrite Hlt, Hnth. cbv beta iota.
      pose proof (Series_distinct_compare_marks x
                    (map (fun y => (y, existsb (same y) seen)) rest)
                    (pre ++ [(x, true)])) as Hc.
      rewrite Hlen in Hc. rewrite <- !app_assoc in Hc. simpl in Hc.
      replace (set_considered input (List.length pre))
        with (pre ++ (x, true) :: map (fun y => (y, existsb (same y) seen)) rest)
        by (unfold input; simpl; rewrite E; now rewrite set_considered_app).
      eapply evals_bind; [exact Hc|]. cbv beta.
      rewrite map_map. simpl.
      replace (map (fun y => (y, existsb (same y) seen || same y x)) rest)
        with (map (fun y => (y, existsb (same y) (seen ++ [x]))) rest).
      * apply evals_ret.
      * apply map_ext. intros y. rewrite existsb_app. simpl. now rewrite orb_false_r.
Qed.

End DistinctLoops.

(** What [distinct_by] keeps comes from the input. *)
Lemma distinct_by_incl {A : Type} (same : A -> A -> bool) (l : list A) :
  forall seen y, In y (distinct_by same seen l) -> In y l.
Proof.
  induction l as [|x l IH]; intros seen y; simpl; [auto|].
  destruct (existsb (same x) seen).
  - intros Hin. right. eapply IH; eauto.
  - intros [->|Hin]; [now left|]. right. eapply IH; eauto.
Qed.

(** No kept element matches an earlier kept element. *)
Lemma distinct_by_unmatched {A : Type} (same : A -> A -> bool) (l : list A) :
  forall seen,
    Forall (fun k => existsb (same k) seen = false) (distinct_by same seen l) /\
    ForallOrdPairs (fun earlier later => same later earlier = false) (distinct_by same seen l).
Proof.
  induction l as [|x l IH]; intros seen; simpl.
  - split; constructor.
  - destruct (existsb (same x) seen) eqn:E; [apply IH|].
    destruct (IH (seen ++ [x])) as [Hseen Hpairs].
    assert (Hboth : Forall (fun k => existsb (same k) seen = false /\ same k x = false)
                           (distinct_by same (seen ++ [x]) l)).
    { eapply Forall_impl; [|exact Hseen]. intros k Hk. simpl in Hk.
      rewrite existsb_app in Hk. simpl in Hk. rewrite orb_false_r in Hk.
      now apply orb_false_iff in Hk. }
    split.
    + constructor; [exact E|].
      eapply Forall_impl; [|exact Hboth]. now intros k [Hk _].
    + constructor; [|exact Hpairs].
      eapply Forall_impl; [|exact Hboth]. now intros k [_ Hk].
Qed.

(** Every element of the input is kept, or matches an element that is kept
    or was seen. *)
Lemma distinct_by_covers {A : Type} (same : A -> A -> bool) (l : list A) :
  forall seen y,
    In y l ->
    existsb (same y) seen = true \/
    In y (distinct_by same seen l) \/
    exists k, In k (distinct_by same seen l) /\ same y k = true.
Proof.
  induction l as [|x l IH]; intros seen y; simpl; [intros []|].
  intros [->|Hin].
  - destruct (existsb (same y) seen) eqn:E; [now left|]. right. left. now left.
  - destruct (existsb (same x) seen) eqn:E.
    + exact (IH seen y Hin).
    + destruct (IH (seen ++ [x]) y Hin) as [Hs|[Hk|(k & Hk & Hyk)]].
      * rewrite existsb_app in Hs. simpl in Hs. rewrite orb_false_r in Hs.
        apply orb_true_iff in Hs. destruct Hs as [Hs|Hs]; [now left|].
        right. right. exists x. split; [now left|exact Hs].
      * right. left. now right.
      * right. right. exists k. split; [now right|exact Hyk].
Qed.

(** X19. [distinct] with a selector that always answers reads the pipeline
    when it is called and keeps, in source order, each pair with a value that
    is not absent unless the selected value of the pair is [===] to that of a
    pair kept before it. So no kept pair matches an earlier kept pair, every
    pair it drops matches a kept one, and what it keeps are pairs of the
    pipeline; the first pair of each group of matching pairs is the one
    kept. *)
Theorem Series_distinct_keeps_first_of_each :
  forall (V K : Type) (absent : Absentable V) (strict_equal : K -> K -> bool)
         (selector : V -> M K) (f : V -> K) (self : Series V) (l : list (pair V)),
    Series_yields self l ->
    (forall v, selector v ~~> Val (f v)) ->
    let same := fun y x : pair V => strict_equal (f (snd y)) (f (snd x)) in
    exists d,
      Series_distinct strict_equal selector self ~~> Val d /\
      Series_yields d (distinct_by same [] (present l)) /\
      (forall y, In y (distinct_by same [] (present l)) -> In y (present l)) /\
      ForallOrdPairs (fun earlier later => same later earlier = false)
                     (distinct_by same [] (present l)) /\
      (forall y, In y (present l) ->
         In y (distinct_by same [] (present l)) \/
         exists k, In k (distinct_by same [] (present l)) /\ same y k = true).
Proof.
  intros V K absent strict_equal selector f self l Hy Hs same.
  pose proof (Series_toPairs_yields Hy) as Hp.
  pose proof (@Series_distinct_scan_keeps V K strict_equal selector f Hs (present l) [] [] [])
    as Hscan.
  simpl in Hscan.
  replace (map (fun y : pair V => (y, false)) (present l))
    with (map (fun pair : pair V => (pair, false)) (present l)) in Hscan by reflexivity.
  eexists. split; [|split; [|split; [|split]]].
  - unfold Series_distinct. eapply evals_bind; [exact Hp|]. cbv beta zeta.
    eapply evals_bind; [exact Hscan|]. apply evals_ret.
  - eexists. split; [simpl; apply evals_ret|]. apply ArrayIterator_runs.
  - intros y. apply distinct_by_incl.
  - apply distinct_by_unmatched.
  - intros y Hin.
    destruct (distinct_by_covers same (present l) [] y Hin) as [Hs'|H']; [discriminate|exact H'].
Qed.

(** The values 1, 2, 1, undefined, 3, 2, compared by [===]. *)
Lemma Series_distinct_keeps_first_of_each_witness :
  exists source d,
    Series_of_values [VNum 1; VNum 2; VNum 1; VUndefined; VNum 3; VNum 2] ~~> Val source /\
    Series_distinct number_equal (fun v => ret v) source ~~> Val d /\
    Series_yields d [(VNum 0, VNum 1); (VNum 1, VNum 2); (VNum 4, VNum 3)].
Proof.
  destruct (ex_intro (fun s => Series_of_values
                                 [VNum 1; VNum 2; VNum 1; VUndefined; VNum 3; VNum 2]
                                 ~~> Val s) _ (evals_ret _)) as [source E0].
  destruct (@Series_distinct_keeps_first_of_each value value _ number_equal
              (fun v => ret v) (fun v => v) source _
              (Series_of_values_yields E0) (fun v => evals_ret _))
    as (d & Hd & Yd & _).
  exists source, d. repeat split; assumption.
Defined.

(** ** variableWindow *)

Lemma skip_take_yields {V : Type} (self : Series V) l startIndex takeAmount :
  Series_yields self l ->
  Series_yields (skip_take self startIndex takeAmount)
                (firstn takeAmount (skipn startIndex l)).
Proof.
  intros Hy.
  eapply Series_take_yields; [|apply evals_ret].
  eapply Series_skip_yields; [exact Hy|apply evals_ret].
Qed.

Lemma skipn_cons_S {A : Type} (l : list A) n x rest :
  skipn n l = x :: rest -> skipn (Datatypes.S n) l = rest.
Proof.
  revert n. induction l as [|a l IH]; intros n H.
  - rewrite skipn_nil in H. discriminate.
  - destruct n as [|n]; simpl in *.
    + now injection H as _ ->.
    + now apply IH.
Qed.

Lemma firstn_S_skipn {A : Type} (l : list A) n x rest :
  skipn n l = x :: rest -> firstn (Datatypes.S n) l = firstn n l ++ [x].
Proof.
  revert n. induction l as [|a l IH]; intros n H.
  - rewrite skipn_nil in H. discriminate.
  - destruct n as [|n]; simpl in *.
    + now injection H as -> _.
    + f_equal. now apply IH.
Qed.

(** The bounds that [run_bounds] gives cut the runs of the sequence. *)
Lemma run_bounds_split_runs {A : Type} (related : A -> A -> bool) (l : list A) rest :
  forall prev start amount,
    skipn (start + amount) l = rest ->
    map (fun b => firstn (snd b) (skipn (fst b) l)) (run_bounds related prev start amount rest)
    = split_runs related prev (firstn amount (skipn start l)) rest.
Proof.
  induction rest as [|x rest IH]; intros prev start amount Hrest; simpl.
  - reflexivity.
  - assert (Hskip : skipn amount (skipn start l) = x :: rest)
      by (rewrite skipn_skipn, (Nat.add_comm amount start); exact Hrest).
    destruct (related x prev).
    + rewrite IH.
      * now rewrite (firstn_S_skipn _ _ Hskip).
      * replace (start + Datatypes.S amount) with (Datatypes.S (start + amount)) by lia.
        exact (skipn_cons_S _ _ Hrest).
    + simpl. f_equal. rewrite IH.
      * rewrite Hrest. reflexivity.
      * replace (start + amount + 1) with (Datatypes.S (start + amount)) by lia.
        exact (skipn_cons_S _ _ Hrest).
Qed.

Lemma split_runs_concat {A : Type} (related : A -> A -> bool) (rest : list A) :
  forall prev cur, List.concat (split_runs related prev cur rest) = cur ++ rest.
Proof.
  induction rest as [|x rest IH]; intros prev cur; simpl.
  - reflexivity.
  - destruct (related x prev); simpl; rewrite IH.
    + now rewrite <- app_assoc.
    + reflexivity.
Qed.

Lemma split_runs_nonempty {A : Type} (related : A -> A -> bool) (rest : list A) :
  forall prev cur, cur <> [] -> Forall (fun run => run <> []) (split_runs related prev cur rest).
Proof.
  induction rest as [|x rest IH]; intros prev cur Hcur; simpl.
  - constructor; [exact Hcur|constructor].
  - destruct (related x prev).
    + apply IH. destruct cur; discriminate.
    + constructor; [exact Hcur|]. apply IH. discriminate.
Qed.

Lemma combine_fst_snd {A B : Type} (l : list (A * B)) :
  combine (map fst l) (map snd l) = l.
Proof.
  induction l as [|[a b] l IH]; simpl; [reflexivity|now rewrite IH].
Qed.

Lemma map_snd_indexed_from {V : Type} (values : list V) k :
  map snd (indexed_from k values) = values.
Proof.
  revert k. induction values as [|v values IH]; intros k; simpl; [reflexivity|now rewrite IH].
Qed.

Lemma present_all {V : Type} `{Absentable V} (l : list (pair V)) :
  Forall (fun p => is_absent (snd p) = false) l -> present l = l.
Proof.
  induction 1 as [|p l Hp Hl IH]; simpl; [reflexivity|].
  unfold present in *. simpl. rewrite Hp. simpl. now rewrite IH.
Qed.

(** The loop of [variableWindow] flushes one window per run. *)
Lemma Series_variableWindow_loop_runs {V : Type} (self : Series V)
    (comparer : V -> V -> M bool) (related : V -> V -> bool) (input : list (pair V)) rest :
  (forall a b, comparer a b ~~> Val (related a b)) ->
  forall pre output startIndex takeAmount windowIndex prevPair,
    input = pre ++ rest ->
    List.length pre = startIndex + takeAmount ->
    0 < takeAmount ->
    Series_variableWindow_loop self comparer input
      (output, startIndex, takeAmount, windowIndex, prevPair, List.length pre)
      ~~> Val (output ++
               indexed_from (Z.of_nat windowIndex)
                 (map (fun b => skip_take self (fst b) (snd b))
                      (run_bounds (fun x prev => related (snd x) (snd prev))
                                  prevPair startIndex takeAmount rest))).
Proof.
  intros Hc. induction rest as [|x rest IH];
    intros pre output startIndex takeAmount windowIndex prevPair Hin Hlen Hpos.
  - unfold Series_variableWindow_loop. apply evals_loop_return.
    cbv beta iota. subst input. rewrite app_nil_r, Nat.ltb_irrefl.
    replace (0 <? takeAmount)%nat with true by (symmetry; apply Nat.ltb_lt; exact Hpos).
    simpl. eval_steps.
  - assert (Hlt : (List.length pre <? List.length input)%nat = true)
      by (apply Nat.ltb_lt; subst input; rewrite length_app; simpl; lia).
    assert (Hnth : nth_error input (List.length pre) = Some x)
      by (subst input; apply nth_error_length_app).
    assert (Hpre : List.length (pre ++ [x]) = Datatypes.S (List.length pre))
      by (rewrite length_app; simpl; lia).
    assert (Hin' : input = (pre ++ [x]) ++ rest)
      by (subst input; now rewrite <- app_assoc).
    pose proof (Hc (snd x) (snd prevPair)) as Hx.
    simpl run_bounds. unfold Series_variableWindow_loop in *.
    destruct (related (snd x) (snd prevPair)) eqn:E.
    + specialize (IH (pre ++ [x]) output startIndex (Datatypes.S takeAmount) windowIndex x
                     Hin' ltac:(rewrite Hpre; lia) ltac:(lia)).
      rewrite Hpre in IH.
      eapply evals_loop_continue; [|exact IH].
      cbv beta iota. rewrite Hlt, Hnth. cbv beta iota.
      eval_step. simpl. apply evals_ret.
    + specialize (IH (pre ++ [x])
                     (output ++ [(VNum (Z.of_nat windowIndex),
                                  skip_take self startIndex takeAmount)])
                     (List.length pre) 1 (Datatypes.S windowIndex) x
                     Hin' ltac:(rewrite Hpre; lia) ltac:(lia)).
      rewrite Hpre in IH. rewrite <- app_assoc in IH. cbn [app] in IH.
      replace (Z.of_nat (Datatypes.S windowIndex)) with (Z.of_nat windowIndex + 1)%Z in IH
        by lia.
      rewrite <- Hlen. cbn [map indexed_from fst snd].
      eapply evals_loop_continue; [|exact IH].
      cbv beta iota. rewrite Hlt, Hnth. cbv beta iota.
      eval_step. simpl. eval_steps.
Qed.

(** X20. [variableWindow] with a comparer that always answers, on a pipeline
    that finishes and has no absent value: it yields one window per run of
    the pipeline, where a run goes on as long as the comparer relates each
    value to the value before it. The windows are numbered from 0, each
    yields the pairs of its run, no run is empty, and the runs one after the
    other are the pairs of the pipeline. *)
Theorem Series_variableWindow_runs :
  forall (V : Type) (absent : Absentable V) (self : Series V) (l : list (pair V))
         (comparer : V -> V -> M bool) (related : V -> V -> bool),
    Series_yields self l ->
    Forall (fun p => is_absent (snd p) = false) l ->
    (forall a b, comparer a b ~~> Val (related a b)) ->
    let groups := runs_of (fun x prev : pair V => related (snd x) (snd prev)) l in
    exists w windows,
      Series_variableWindow self comparer None ~~> Val w /\
      Series_yields w (indexed_from 0 windows) /\
      Forall2 (fun group window => Series_yields window group) groups windows /\
      List.concat groups = l /\
      Forall (fun group => group <> []) groups.
Proof.
  intros V absent self l comparer related Hy Hall Hc groups.
  pose proof (Series_toPairs_yields Hy) as Hp. rewrite (present_all Hall) in Hp.
  set (rel := fun x prev : pair V => related (snd x) (snd prev)) in *.
  set (bounds := match l with
                 | [] => []
                 | first :: rest => run_bounds rel first 0 1 rest
                 end).
  set (windows := map (fun b => skip_take self (fst b) (snd b)) bounds).
  assert (Hout : match l with
                 | [] => ret []
                 | first :: _ =>
                     Series_variableWindow_loop self comparer l ([], 0, 1, 0, first, 1)
                 end ~~> Val (indexed_from 0 windows)).
  { unfold windows, bounds. destruct l as [|first rest]; [apply evals_ret|].
    exact (@Series_variableWindow_loop_runs V self comparer related (first :: rest) rest Hc
             [first] [] 0 1 0 first eq_refl eq_refl ltac:(lia)). }
  assert (Hgroups : map (fun b => firstn (snd b) (skipn (fst b) l)) bounds = groups).
  { unfold bounds, groups, runs_of. destruct l as [|first rest]; [reflexivity|].
    now rewrite (@run_bounds_split_runs _ rel (first :: rest) rest first 0 1 eq_refl). }
  exists {| __iterable :=
              PairsIterable
                (ExtractIterable
                   (Series_iterable
                      {| __iterable :=
                           PairsIterable CountIterable
                             (ArrayIterable (map fst (indexed_from 0 windows))) |})
                   snd)
                (ArrayIterable (map snd (indexed_from 0 windows))) |}, windows.
  split; [|split; [|split; [|split]]].
  - unfold Series_variableWindow.
    eapply evals_bind; [exact Hp|]. cbv beta.
    eapply evals_bind; [exact Hout|]. cbv beta.
    eapply evals_bind; [apply evals_ret|]. apply evals_ret.
  - assert (Hindex : Series_yields
                       {| __iterable :=
                            PairsIterable CountIterable
                              (ArrayIterable (map fst (indexed_from 0 windows))) |}
                       (indexed_from 0 (map fst (indexed_from 0 windows))))
      by (apply (@Series_of_values_yields value (map fst (indexed_from 0 windows)));
          apply evals_ret).
    destruct (ExtractIterable_yields (@snd value value) Hindex) as (it1 & Hg1 & Hr1).
    rewrite map_snd_indexed_from in Hr1.
    exists (PairIterator it1 (ArrayIterator (map snd (indexed_from 0 windows)))). split.
    + simpl in *. eval_steps.
    + pose proof (PairIterator_runs Hr1
                    (ArrayIterator_runs (map snd (indexed_from 0 windows)))) as Hpair.
      rewrite combine_fst_snd in Hpair. exact Hpair.
  - rewrite <- Hgroups. unfold windows. generalize bounds. clear - Hy. intros bs.
    induction bs as [|b bs IH]; simpl; constructor; [|exact IH].
    now apply skip_take_yields.
  - unfold groups, runs_of. destruct l as [|first rest]; [reflexivity|].
    exact (split_runs_concat rel rest first [first]).
  - unfold groups, runs_of. destruct l as [|first rest]; [constructor|].
    apply split_runs_nonempty. discriminate.
Qed.

(** The values 1, 1, 2, 3, 3 grouped by [===]: three windows. *)
Lemma Series_variableWindow_runs_witness :
  exists source w windows,
    Series_of_values [VNum 1; VNum 1; VNum 2; VNum 3; VNum 3] ~~> Val source /\
    Series_variableWindow source (fun a b => ret (number_equal a b)) None ~~> Val w /\
    Series_yields w (indexed_from 0 windows) /\
    Forall2 (fun group window => Series_yields window group)
            [[(VNum 0, VNum 1); (VNum 1, VNum 1)];
             [(VNum 2, VNum 2)];
             [(VNum 3, VNum 3); (VNum 4, VNum 3)]]
            windows.
Proof.
  destruct (ex_intro (fun s => Series_of_values [VNum 1; VNum 1; VNum 2; VNum 3; VNum 3]
                                 ~~> Val s) _ (evals_ret _)) as [source E0].
  destruct (@Series_variableWindow_runs value _ source _
              (fun a b => ret (number_equal a b)) number_equal
              (Series_of_values_yields E0)
              ltac:(repeat constructor)
              (fun a b => evals_ret _))
    as (w & windows & Hw & Yw & Hf & _).
  exists source, w, windows. repeat split; assumption.
Defined.

(* ================================================================== *)
(** * Further properties of DataFrame *)

(** A frame with declared column names over an iterable is built without
    reading the iterable. *)
Lemma DataFrame_of_iterable_named (columnNames : list string) iterable :
  DataFrame_of_iterable (Some columnNames) iterable
    ~~> Val {| _columnNames := columnNames; DataFrame_getIterator := iterable |}.
Proof. unfold DataFrame_of_iterable. simpl. eval_steps. Qed.

Lemma DataFrame_count_yields (self : DataFrame) rows :
  DataFrame_yields self rows -> DataFrame_count self ~~> Val (List.length rows).
Proof.
  intros (iterator & Hg & Hr). unfold DataFrame_count.
  eval_step. exact (count_loop_runs Hr 0).
Qed.

Lemma example_frame_yields : DataFrame_yields example_frame example_rows.
Proof.
  eexists. split.
  - simpl. apply evals_ret.
  - apply ArrayIterator_runs.
Qed.

(** ** skip, take, head, tail *)



(** ** where, takeWhile, skipWhile *)

(** X22. [where], [takeWhile], [skipWhile], [takeUntil] and [skipUntil] of
    a DataFrame are built without reading the rows and keep the declared
    column names; the predicate is given the row and then the index. With a
    predicate [f] that always answers, over a frame that yields [rows]:
    [where] yields the pairs that satisfy [f], [takeWhile] the longest prefix
    of pairs that satisfy it and [skipWhile] the rest; the Until forms use
    the negation of [f]. *)
Theorem DataFrame_where_takeWhile_skipWhile :
  forall (self : DataFrame) (f : value -> value -> bool),
    let predicate := fun row index => ret (f row index) in
    let holds := fun p : pair value => f (snd p) (fst p) in
    exists kept taken skipped takenUntil skippedUntil,
      DataFrame_where self predicate ~~> Val kept /\
      DataFrame_takeWhile self predicate ~~> Val taken /\
      DataFrame_skipWhile self predicate ~~> Val skipped /\
      DataFrame_takeUntil self predicate ~~> Val takenUntil /\
      DataFrame_skipUntil self predicate ~~> Val skippedUntil /\
      Forall (fun frame => DataFrame_getColumnNames frame = DataFrame_getColumnNames self)
             [kept; taken; skipped; takenUntil; skippedUntil] /\
      forall rows,
        DataFrame_yields self rows ->
        DataFrame_yields kept (filter holds rows) /\
        DataFrame_yields taken (take_while holds rows) /\
        DataFrame_yields skipped (drop_while holds rows) /\
        DataFrame_yields takenUntil (take_while (fun p => negb (holds p)) rows) /\
        DataFrame_yields skippedUntil (drop_while (fun p => negb (holds p)) rows) /\
        take_while holds rows ++ drop_while holds rows = rows.
Proof.
  intros self f predicate holds. do 5 eexists.
  split; [apply DataFrame_of_iterable_named|].
  split; [apply DataFrame_of_iterable_named|].
  split; [apply DataFrame_of_iterable_named|].
  split; [apply DataFrame_of_iterable_named|].
  split; [apply DataFrame_of_iterable_named|].
  split; [repeat constructor|].
  intros rows (iterator & Hg & Hr).
  split; [|split; [|split; [|split; [|split]]]].
  - eexists. split; [simpl; eval_steps|].
    apply (@WhereIterator_runs _ (machine iterator) _ holds _ _ Hr).
    intros p _. apply evals_ret.
  - eexists. split; [simpl; eval_steps|].
    apply (@TakeWhileIterator_runs _ (machine iterator) _ holds _ _ Hr).
    intros p _. apply evals_ret.
  - eexists. split; [simpl; eval_steps|].
    apply (@SkipWhileIterator_runs _ (machine iterator) _ holds _ _ Hr).
    intros p _. apply evals_ret.
  - eexists. split; [simpl; eval_steps|].
    apply (@TakeWhileIterator_runs _ (machine iterator) _ (fun p => negb (holds p)) _ _ Hr).
    intros p _. unfold predicate. eval_steps.
  - eexists. split; [simpl; eval_steps|].
    apply (@SkipWhileIterator_runs _ (machine iterator) _ (fun p => negb (holds p)) _ _ Hr).
    intros p _. unfold predicate. eval_steps.
  - apply take_while_drop_while.
Qed.

(** The rows under the index 0, of three rows. *)
Lemma DataFrame_where_takeWhile_skipWhile_witness :
  let predicate := fun (_ index : value) => ret (number_equal index (VNum 0)) in
  exists kept taken skipped takenUntil skippedUntil,
    DataFrame_where example_frame predicate ~~> Val kept /\
    DataFrame_takeWhile example_frame predicate ~~> Val taken /\
    DataFrame_skipWhile example_frame predicate ~~> Val skipped /\
    DataFrame_takeUntil example_frame predicate ~~> Val takenUntil /\
    DataFrame_skipUntil example_frame predicate ~~> Val skippedUntil /\
    DataFrame_yields kept [(VNum 0, VObj [("a", VNum 1)])] /\
    DataFrame_yields taken [(VNum 0, VObj [("a", VNum 1)])] /\
    DataFrame_yields skipped
      [(VNum 1, VObj [("a", VStr "x")]); (VNum 2, VObj [("a", VNum 3)])] /\
    DataFrame_yields takenUntil [] /\
    DataFrame_yields skippedUntil example_rows.
Proof.
  intros predicate.
  destruct (DataFrame_where_takeWhile_skipWhile example_frame
              (fun _ index => number_equal index (VNum 0)))
    as (kept & taken & skipped & takenUntil & skippedUntil
        & Hk & Ht & Hs & Htu & Hsu & _ & Hrows).
  destruct (Hrows _ example_frame_yields) as (Yk & Yt & Ys & Ytu & Ysu & _).
  exists kept, taken, skipped, takenUntil, skippedUntil. repeat split; assumption.
Defined.

(** ** count, toObjects, bake *)

Lemma fold_left_snoc_snd {A B : Type} (l : list (A * B)) acc :
  fold_left (fun objects (cur : A * B) => objects ++ [snd cur]) l acc = acc ++ map snd l.
Proof.
  revert acc. induction l as [|a l IH]; intros acc; simpl.
  - now rewrite app_nil_r.
  - rewrite IH. now rewrite <- app_assoc.
Qed.

Lemma DataFrame_toObjects_traces (self : DataFrame) iterator l en :
  DataFrame_getIterator self ~~> Val iterator ->
  traces iterator l en ->
  DataFrame_toObjects self
    ~~> match en with Finished => Val (map snd l) | Raised e => Exn e end.
Proof.
  intros Hg Hr. unfold DataFrame_toObjects.
  eval_step. eval_step. eval_step.
  pose proof (@loop_over_runs _ (list value) (list value) (machine iterator)
    (fun '(s, objects) =>
       '(more, s') <- moveNext (machine iterator) s ;;
       if more then
         cur <- getCurrent (machine iterator) s' ;;
         ret (inl (s', objects ++ [snd cur]))
       else ret (inr objects))
    (fun objects cur => objects ++ [snd cur])
    (fun objects => objects)) as L.
  specialize (L ltac:(intros; eval_steps) ltac:(intros; eval_steps)
                ltac:(intros; eval_steps) ltac:(intros; eval_steps) _ _ _ Hr []).
  destruct en; [|exact L].
  replace (map snd l)
    with (fold_left (fun objects (cur : pair value) => objects ++ [snd cur]) l [])
    by exact (fold_left_snoc_snd l []).
  exact L.
Qed.

(** X23. Reading a whole DataFrame. When the pipeline finishes with the
    pairs [rows]: [count] returns their number, [toObjects] the row of each
    pair in order, and [bake] a frame marked as baked that has the same
    column names and yields the same pairs, none left out even when its row
    is undefined; baking a baked frame returns it unchanged. When the
    pipeline raises, [toObjects] and [bake] raise the same exception. *)
Theorem DataFrame_count_toObjects_bake :
  forall (self : DataFrame) (iterator : Cursor (pair value))
         (rows : list (pair value)) (en : ending),
    DataFrame_getIterator self ~~> Val iterator ->
    traces iterator rows en ->
    match en with
    | Finished =>
        DataFrame_count self ~~> Val (List.length rows) /\
        DataFrame_toObjects self ~~> Val (map snd rows) /\
        exists baked,
          DataFrame_bake self false ~~> Val (baked, true) /\
          DataFrame_getColumnNames baked = DataFrame_getColumnNames self /\
          DataFrame_yields baked rows /\
          DataFrame_bake baked true ~~> Val (baked, true)
    | Raised e =>
        DataFrame_toObjects self ~~> Exn e /\
        DataFrame_bake self false ~~> Exn e
    end.
Proof.
  intros self iterator rows en Hg Hr.
  pose proof (DataFrame_toObjects_traces self Hg Hr) as Ho.
  pose proof (DataFrame_toPairs_traces self Hg Hr) as Hp.
  destruct en as [|e].
  - split; [|split; [exact Ho|]].
    + apply DataFrame_count_yields. exists iterator. auto.
    + eexists. split.
      { unfold DataFrame_bake. cbv beta iota.
        eapply evals_bind; [exact Hp|]. cbv beta.
        eapply evals_bind; [apply DataFrame_of_iterable_named|]. apply evals_ret. }
      split; [reflexivity|]. split.
      * eexists. split; [simpl; apply evals_ret|]. apply ArrayIterator_runs.
      * apply evals_ret.
  - split; [exact Ho|].
    unfold DataFrame_bake. cbv beta iota. apply evals_bind_exn. exact Hp.
Qed.

(** A frame with an undefined row: two rows are counted, returned and
    baked. *)
Lemma DataFrame_count_toObjects_bake_witness :
  let self := {| _columnNames := ["a"];
                 DataFrame_getIterator :=
                   ret (ArrayIterator [(VNum 0, VObj [("a", VNum 1)]); (VNum 1, VUndefined)]) |} in
  DataFrame_count self ~~> Val 2 /\
  DataFrame_toObjects self ~~> Val [VObj [("a", VNum 1)]; VUndefined] /\
  exists baked,
    DataFrame_bake self false ~~> Val (baked, true) /\
    DataFrame_getColumnNames baked = ["a"] /\
    DataFrame_yields baked [(VNum 0, VObj [("a", VNum 1)]); (VNum 1, VUndefined)] /\
    DataFrame_bake baked true ~~> Val (baked, true).
Proof.
  intros self.
  exact (@DataFrame_count_toObjects_bake self
           (ArrayIterator [(VNum 0, VObj [("a", VNum 1)]); (VNum 1, VUndefined)])
           _ Finished (evals_ret _)
           (ArrayIterator_runs [(VNum 0, VObj [("a", VNum 1)]); (VNum 1, VUndefined)])).
Defined.

(** ** The first and the last row *)

(** X24. On a DataFrame that yields no pair, [first], [last], [firstPair],
    [lastPair], [firstIndex] and [lastIndex] each raise the error
    "No rows in DataFrame."; on a frame whose pipeline has a first pair
    [(i, row)], [first] returns [row], [firstPair] returns [(i, row)] and
    [firstIndex] returns [i], whatever follows the first pair. *)
Theorem DataFrame_first_last_edges :
  forall (self : DataFrame) (iterator : Cursor (pair value))
         (rows : list (pair value)) (en : ending),
    DataFrame_getIterator self ~~> Val iterator ->
    traces iterator rows en ->
    match rows with
    | [] =>
        en = Finished ->
        DataFrame_first self ~~> Exn (Error "No rows in DataFrame.") /\
        DataFrame_last self ~~> Exn (Error "No rows in DataFrame.") /\
        DataFrame_firstPair self ~~> Exn (Error "No rows in DataFrame.") /\
        DataFrame_lastPair self ~~> Exn (Error "No rows in DataFrame.") /\
        DataFrame_firstIndex self ~~> Exn (Error "No rows in DataFrame.") /\
        DataFrame_lastIndex self ~~> Exn (Error "No rows in DataFrame.")
    | (i, row) :: _ =>
        DataFrame_first self ~~> Val row /\
        DataFrame_firstPair self ~~> Val (i, row) /\
        DataFrame_firstIndex self ~~> Val i
    end.
Proof.
  intros self iterator rows en Hg Hr. destruct rows as [|[i row] rest].
  - intros ->. destruct (traces_nil_moveNext Hr) as [s' Hm].
    repeat split.
    + unfold DataFrame_first. eval_simpl.
    + unfold DataFrame_last. eval_simpl.
    + unfold DataFrame_firstPair. eval_simpl.
    + unfold DataFrame_lastPair. eval_simpl.
    + unfold DataFrame_firstIndex. eval_simpl.
    + unfold DataFrame_lastIndex. eval_simpl.
  - destruct (traces_cons_inv Hr) as (s' & Hm & Hc & _).
    repeat split.
    + unfold DataFrame_first. eval_simpl.
    + unfold DataFrame_firstPair. eval_simpl. exact Hc.
    + unfold DataFrame_firstIndex. eval_simpl.
Qed.

(** The frame without rows, and a frame with one row. *)
Lemma DataFrame_first_last_edges_witness :
  let empty := {| _columnNames := ["a"];
                  DataFrame_getIterator := ret (EmptyIterator (pair value)) |} in
  let self := {| _columnNames := ["a"];
                 DataFrame_getIterator :=
                   ret (ArrayIterator [(VNum 0, VObj [("a", VNum 1)])]) |} in
  (DataFrame_first empty ~~> Exn (Error "No rows in DataFrame.") /\
   DataFrame_last empty ~~> Exn (Error "No rows in DataFrame.") /\
   DataFrame_firstPair empty ~~> Exn (Error "No rows in DataFrame.") /\
   DataFrame_lastPair empty ~~> Exn (Error "No rows in DataFrame.") /\
   DataFrame_firstIndex empty ~~> Exn (Error "No rows in DataFrame.") /\
   DataFrame_lastIndex empty ~~> Exn (Error "No rows in DataFrame.")) /\
  (DataFrame_first self ~~> Val (VObj [("a", VNum 1)]) /\
   DataFrame_firstPair self ~~> Val (VNum 0, VObj [("a", VNum 1)]) /\
   DataFrame_firstIndex self ~~> Val (VNum 0)).
Proof.
  intros empty self. split.
  - exact (@DataFrame_first_last_edges empty (EmptyIterator (pair value)) [] Finished
             (evals_ret _) (EmptyIterator_runs (pair value)) eq_refl).
  - exact (@DataFrame_first_last_edges self
             (ArrayIterator [(VNum 0, VObj [("a", VNum 1)])]) _ Finished
             (evals_ret _) (ArrayIterator_runs [(VNum 0, VObj [("a", VNum 1)])])).
Defined.

(** ** resetIndex *)

(** [Select] with the function of [resetIndex] numbers the rows by
    position. *)
Lemma SelectIterator_resetIndex_runs {V : Type} (it : Iterator (pair V)) s l :
  runs it s l Finished ->
  forall i,
    runs (SelectIterator_machine it (fun (pair : pair V) i => ret (i, snd pair))) (s, i)
         (indexed_from (i + 1) (map snd l)) Finished.
Proof.
  intros Hr. remember Finished as en eqn:Een.
  induction Hr as [s s' Hm|s e Hm|s s' e Hm Hc|s s' a l en Hm Hc Hr IH]; intros i;
    try discriminate Een.
  - eapply runs_finished. simpl. eval_steps.
  - simpl. eapply runs_more.
    + simpl. eval_steps.
    + simpl. eval_steps.
    + apply IH. exact Een.
Qed.

(** X25. [resetIndex] of a DataFrame keeps the column names; over a frame
    that yields [rows] it yields the same rows in the same order, numbered
    from 0. *)
Theorem DataFrame_resetIndex_numbers_rows :
  forall (self : DataFrame) (rows : list (pair value)),
    DataFrame_yields self rows ->
    exists r,
      DataFrame_resetIndex self ~~> Val r /\
      DataFrame_getColumnNames r = DataFrame_getColumnNames self /\
      DataFrame_yields r (indexed_from 0 (map snd rows)) /\
      DataFrame_toObjects r ~~> Val (map snd rows).
Proof.
  intros self rows (iterator & Hg & Hr).
  assert (Hy : DataFrame_yields
                 {| _columnNames := DataFrame_getColumnNames self;
                    DataFrame_getIterator :=
                      iterator <- DataFrame_getIterator self ;;
                      ret (SelectIterator iterator (fun pair i => ret (i, snd pair))) |}
                 (indexed_from 0 (map snd rows))).
  { eexists. split; [simpl; eval_steps|].
    exact (SelectIterator_resetIndex_runs Hr (-1)%Z). }
  eexists. split; [apply DataFrame_of_iterable_named|]. split; [reflexivity|].
  split; [exact Hy|].
  destruct Hy as (it' & Hg' & Hr').
  pose proof (DataFrame_toObjects_traces _ Hg' Hr') as Ho. simpl in Ho.
  now rewrite map_snd_indexed_from in Ho.
Qed.

(** A frame under the index "x", "y". *)
Lemma DataFrame_resetIndex_numbers_rows_witness :
  let self := {| _columnNames := ["a"];
                 DataFrame_getIterator :=
                   ret (ArrayIterator [(VStr "x", VObj [("a", VNum 1)]);
                                       (VStr "y", VObj [("a", VNum 2)])]) |} in
  exists r,
    DataFrame_resetIndex self ~~> Val r /\
    DataFrame_getColumnNames r = ["a"] /\
    DataFrame_yields r [(VNum 0, VObj [("a", VNum 1)]); (VNum 1, VObj [("a", VNum 2)])] /\
    DataFrame_toObjects r ~~> Val [VObj [("a", VNum 1)]; VObj [("a", VNum 2)]].
Proof.
  intros self.
  apply (@DataFrame_resetIndex_numbers_rows self
           [(VStr "x", VObj [("a", VNum 1)]); (VStr "y", VObj [("a", VNum 2)])]).
  eexists. split; [simpl; apply evals_ret|]. apply ArrayIterator_runs.
Defined.

(** ** Column names inferred from the first row *)

(** A frame over an iterable without declared column names: the constructor
    reads the first pair and takes the field names of its row. *)
Lemma DataFrame_of_iterable_inferred iterable (iterator : Cursor (pair value)) rows en :
  iterable ~~> Val iterator ->
  traces iterator rows en ->
  match rows with
  | [] =>
      en = Finished ->
      DataFrame_of_iterable None iterable
        ~~> Val {| _columnNames := []; DataFrame_getIterator := iterable |}
  | (i, row) :: _ =>
      (forall keys,
         Object_keys row ~~> Val keys ->
         DataFrame_of_iterable None iterable
           ~~> Val {| _columnNames := keys; DataFrame_getIterator := iterable |}) /\
      (forall e, Object_keys row ~~> Exn e -> DataFrame_of_iterable None iterable ~~> Exn e)
  end.
Proof.
  intros Hg Hr. destruct rows as [|[i row] rest].
  - intros ->. destruct (traces_nil_moveNext Hr) as [s' Hm].
    unfold DataFrame_of_iterable, determineColumnNamesFromPairsIterable. eval_simpl.
  - destruct (traces_cons_inv Hr) as (s' & Hm & Hc & _). split.
    + intros keys Hk.
      unfold DataFrame_of_iterable, determineColumnNamesFromPairsIterable. simpl.
      eapply evals_bind; [|apply evals_ret].
      eval_steps. simpl. eval_steps. simpl. exact Hk.
    + intros e Hk.
      unfold DataFrame_of_iterable, determineColumnNamesFromPairsIterable. simpl.
      apply evals_bind_exn.
      eval_steps. simpl. eval_steps. simpl. exact Hk.
Qed.

(** X26. [concat] reads both frames when it is built and every time the
    result is iterated. Over frames that yield [rows1] and [rows2], the
    result yields [rows1 ++ rows2]. Its column names are the field names of
    the first row of the result: the column names declared by the two frames
    play no part, the result of two frames without rows has no column, and
    when [Object.keys] raises on the first row (an undefined row), [concat]
    raises. *)
Theorem DataFrame_concat_infers_columns :
  forall (self otherDataFrame : DataFrame) (rows1 rows2 : list (pair value)),
    DataFrame_yields self rows1 ->
    DataFrame_yields otherDataFrame rows2 ->
    match rows1 ++ rows2 with
    | [] =>
        exists c,
          DataFrame_concat self otherDataFrame ~~> Val c /\
          DataFrame_getColumnNames c = [] /\
          DataFrame_yields c []
    | (i, row) :: _ =>
        (forall keys,
           Object_keys row ~~> Val keys ->
           exists c,
             DataFrame_concat self otherDataFrame ~~> Val c /\
             DataFrame_getColumnNames c = keys /\
             DataFrame_yields c (rows1 ++ rows2)) /\
        (forall e,
           Object_keys row ~~> Exn e ->
           DataFrame_concat self otherDataFrame ~~> Exn e)
    end.
Proof.
  intros self otherDataFrame rows1 rows2 H1 H2.
  pose proof (DataFrame_toPairs_yields H1) as P1.
  pose proof (DataFrame_toPairs_yields H2) as P2.
  set (iterable := pairs <- DataFrame_toPairs self ;;
                   otherPairs <- DataFrame_toPairs otherDataFrame ;;
                   ret (ArrayIterator (pairs ++ otherPairs))).
  assert (Hg : iterable ~~> Val (ArrayIterator (rows1 ++ rows2)))
    by (unfold iterable; eval_steps).
  pose proof (DataFrame_of_iterable_inferred Hg (ArrayIterator_runs (rows1 ++ rows2))) as Hc.
  assert (Hy : forall names,
            DataFrame_yields {| _columnNames := names; DataFrame_getIterator := iterable |}
                             (rows1 ++ rows2)).
  { intros names. exists (ArrayIterator (rows1 ++ rows2)). split; [exact Hg|].
    apply ArrayIterator_runs. }
  unfold DataFrame_concat. fold iterable.
  destruct (rows1 ++ rows2) as [|[i row] rest].
  - eexists. split; [exact (Hc eq_refl)|]. split; [reflexivity|apply Hy].
  - destruct Hc as [Hval Hexn]. split.
    + intros keys Hk. eexists. split; [exact (Hval keys Hk)|].
      split; [reflexivity|apply Hy].
    + exact Hexn.
Qed.

(** A frame that declares the columns "a" and "b" and has no row, followed
    by a frame with one row with the field "c": the result has the column
    "c" only. *)
Lemma DataFrame_concat_infers_columns_witness :
  let self := {| _columnNames := ["a"; "b"];
                 DataFrame_getIterator := ret (EmptyIterator (pair value)) |} in
  let other := {| _columnNames := ["c"];
                  DataFrame_getIterator :=
                    ret (ArrayIterator [(VNum 0, VObj [("c", VNum 1)])]) |} in
  exists c,
    DataFrame_concat self other ~~> Val c /\
    DataFrame_getColumnNames c = ["c"] /\
    DataFrame_yields c [(VNum 0, VObj [("c", VNum 1)])].
Proof.
  intros self other.
  assert (H1 : DataFrame_yields self [])
    by (eexists; split; [simpl; apply evals_ret|apply EmptyIterator_runs]).
  assert (H2 : DataFrame_yields other [(VNum 0, VObj [("c", VNum 1)])])
    by (eexists; split; [simpl; apply evals_ret|apply ArrayIterator_runs]).
  exact (proj1 (@DataFrame_concat_infers_columns self other _ _ H1 H2) ["c"] (evals_ret _)).
Defined.

(** X27. [insertPair] reads the frame when it is called and yields the given
    pair and then the pairs of the frame; the column names of the result are
    the field names of the row of the given pair, whatever the frame
    declares. [appendPair] yields the pairs of the frame and then the given
    pair; its column names are the field names of the first row of the
    frame, or of the given row when the frame has no row. *)
Theorem DataFrame_insertPair_appendPair_columns :
  forall (self : DataFrame) (rows : list (pair value)) (i : value)
         (fields : list (string * value)),
    DataFrame_yields self rows ->
    (exists inserted,
       DataFrame_insertPair self (i, VObj fields) ~~> Val inserted /\
       DataFrame_getColumnNames inserted = map fst fields /\
       DataFrame_yields inserted ((i, VObj fields) :: rows)) /\
    (forall keys,
       Object_keys (snd (hd (i, VObj fields) rows)) ~~> Val keys ->
       exists appended,
         DataFrame_appendPair self (i, VObj fields) ~~> Val appended /\
         DataFrame_getColumnNames appended = keys /\
         DataFrame_yields appended (rows ++ [(i, VObj fields)])).
Proof.
  intros self rows i fields Hy.
  pose proof (DataFrame_toPairs_yields Hy) as Hp. split.
  - pose proof (@DataFrame_of_iterable_inferred
                  (ret (ArrayIterator ((i, VObj fields) :: rows))) _ _ _
                  (evals_ret _) (ArrayIterator_runs ((i, VObj fields) :: rows))) as [Hval _].
    eexists. split.
    { unfold DataFrame_insertPair. eapply evals_bind; [exact Hp|]. cbv beta zeta.
      exact (Hval _ (evals_ret _)). }
    split; [reflexivity|].
    eexists. split; [simpl; apply evals_ret|].
    apply (ArrayIterator_runs ((i, VObj fields) :: rows)).
  - intros keys Hk.
    pose proof (@DataFrame_of_iterable_inferred
                  (ret (ArrayIterator (rows ++ [(i, VObj fields)]))) _ _ _
                  (evals_ret _) (ArrayIterator_runs (rows ++ [(i, VObj fields)]))) as Hc.
    exists {| _columnNames := keys;
              DataFrame_getIterator := ret (ArrayIterator (rows ++ [(i, VObj fields)])) |}.
    split.
    { unfold DataFrame_appendPair. eapply evals_bind; [exact Hp|]. cbv beta zeta.
      destruct rows as [|[j row] rest]; simpl in *; exact (proj1 Hc _ Hk). }
    split; [reflexivity|].
    eexists. split; [simpl; apply evals_ret|]. apply ArrayIterator_runs.
Qed.

(** Inserting a row with the field "z" into a frame that declares "a". *)
Lemma DataFrame_insertPair_appendPair_columns_witness :
  let self := {| _columnNames := ["a"];
                 DataFrame_getIterator :=
                   ret (ArrayIterator [(VNum 0, VObj [("a", VNum 1)])]) |} in
  (exists inserted,
     DataFrame_insertPair self (VNum 9, VObj [("z", VNum 2)]) ~~> Val inserted /\
     DataFrame_getColumnNames inserted = ["z"] /\
     DataFrame_yields inserted
       [(VNum 9, VObj [("z", VNum 2)]); (VNum 0, VObj [("a", VNum 1)])]) /\
  (exists appended,
     DataFrame_appendPair self (VNum 9, VObj [("z", VNum 2)]) ~~> Val appended /\
     DataFrame_getColumnNames appended = ["a"] /\
     DataFrame_yields appended
       [(VNum 0, VObj [("a", VNum 1)]); (VNum 9, VObj [("z", VNum 2)])]).
Proof.
  intros self.
  destruct (@DataFrame_insertPair_appendPair_columns self _ (VNum 9) [("z", VNum 2)]
              example_DataFrame_yields) as [Hi Ha].
  split; [exact Hi|]. exact (Ha ["a"] (evals_ret _)).
Defined.

(** ** Columns by name *)

(** X28. [hasSeries] tells whether the name is one of the column names of
    the frame. [expectSeries] returns the frame itself when it is, and
    otherwise raises the error that names the missing column. [getSeries],
    however, raises for every column name, present or not, and so do
    [getIndex] and [deflate]: they hand the Series constructor a
    configuration with the field [iterable], which the constructor rejects
    with an assertion failure before any row is read. *)
Theorem DataFrame_hasSeries_expectSeries_getSeries :
  forall (self : DataFrame) (columnName : string),
    (In columnName (DataFrame_getColumnNames self) ->
     DataFrame_hasSeries self columnName ~~> Val true /\
     DataFrame_expectSeries self columnName ~~> Val self) /\
    (~ In columnName (DataFrame_getColumnNames self) ->
     DataFrame_hasSeries self columnName ~~> Val false /\
     DataFrame_expectSeries self columnName
       ~~> Exn (Error ("Expected data-frame to contain series with column name: '"
                         ++ columnName ++ "'."))) /\
    (forall js_get : value -> string -> M value,
       exists msg, DataFrame_getSeries js_get self columnName ~~> Exn (AssertionError msg)) /\
    (exists msg, DataFrame_getIndex self ~~> Exn (AssertionError msg)) /\
    (forall (V : Type) (selector : value -> value -> M V),
       exists msg, DataFrame_deflate self selector ~~> Exn (AssertionError msg)).
Proof.
  intros self columnName. unfold DataFrame_getColumnNames.
  split; [|split; [|split; [|split]]].
  - intros Hin.
    destruct (DataFrame_getColumnIndex_from_first (_columnNames self) columnName 0 Hin)
      as (k & Hk & _).
    split.
    + unfold DataFrame_hasSeries, DataFrame_getColumnIndex, DataFrame_getColumnNames.
      rewrite Hk. eval_step.
      replace (0 + Z.of_nat k >=? 0)%Z with true
        by (symmetry; rewrite Z.geb_leb; apply Z.leb_le; lia).
      apply evals_ret.
    + unfold DataFrame_expectSeries, DataFrame_getColumnNames. rewrite Hk.
      replace (0 + Z.of_nat k <? 0)%Z with false by (symmetry; apply Z.ltb_ge; lia).
      apply evals_ret.
  - intros Hnot.
    pose proof (DataFrame_getColumnIndex_from_missing (_columnNames self) columnName 0 Hnot)
      as Hk.
    split.
    + unfold DataFrame_hasSeries, DataFrame_getColumnIndex, DataFrame_getColumnNames.
      rewrite Hk. eval_step.
    + unfold DataFrame_expectSeries, DataFrame_getColumnNames. rewrite Hk.
      apply evals_throw.
  - intros js_get. eexists. apply evals_throw.
  - eexists. apply evals_throw.
  - intros V selector. eexists. apply evals_throw.
Qed.

(** The frame with the one column "a": "a" is found and "b" is not, and the
    Series of "a" cannot be retrieved. *)
Lemma DataFrame_hasSeries_expectSeries_getSeries_witness :
  DataFrame_hasSeries example_frame "a" ~~> Val true /\
  DataFrame_expectSeries example_frame "a" ~~> Val example_frame /\
  DataFrame_hasSeries example_frame "b" ~~> Val false /\
  DataFrame_expectSeries example_frame "b"
    ~~> Exn (Error "Expected data-frame to contain series with column name: 'b'.") /\
  (exists msg,
     DataFrame_getSeries (fun _ _ => ret VUndefined) example_frame "a"
       ~~> Exn (AssertionError msg)).
Proof.
  destruct (DataFrame_hasSeries_expectSeries_getSeries example_frame "a")
    as (Hin & _ & Hget & _).
  destruct (DataFrame_hasSeries_expectSeries_getSeries example_frame "b")
    as (_ & Hnot & _).
  destruct (Hin (or_introl eq_refl)) as [H1 H2].
  destruct (Hnot ltac:(simpl; intros [H|[]]; discriminate)) as [H3 H4].
  split; [exact H1|]. split; [exact H2|]. split; [exact H3|]. split; [exact H4|].
  exact (Hget (fun _ _ => ret VUndefined)).
Defined.

(** ** The constructor: rows under column names *)

Lemma mapM_pure {A B : Type} (f : A -> M B) (g : A -> B) (l : list A) :
  (forall a, f a ~~> Val (g a)) -> mapM f l ~~> Val (map g l).
Proof.
  intros Hf. induction l as [|a l IH]; simpl.
  - apply evals_ret.
  - pose proof (Hf a) as Ha. eval_steps.
Qed.

(** The name that an array index stands for. *)
Lemma array_index_name key n :
  array_index key = Some n -> key = NilZero.string_of_uint (N.to_uint n).
Proof.
  unfold array_index. destruct (NilZero.uint_of_string key) as [digits|]; [|discriminate].
  cbv zeta.
  destruct (String.eqb_spec (NilZero.string_of_uint (N.to_uint (N.of_uint digits))) key)
    as [E|]; [|discriminate].
  destruct (N.of_uint digits <=? 4294967294)%N; [|discriminate].
  simpl. intros [= <-]. now symmetry.
Qed.

Lemma array_index_inj key1 key2 n :
  array_index key1 = Some n -> array_index key2 = Some n -> key1 = key2.
Proof.
  intros H1 H2. apply array_index_name in H1, H2. congruence.
Qed.

(** A new field whose name is no array index goes last. *)
Lemma obj_insert_named (fields : list (string * value)) key v :
  obj_insert fields key None v = fields ++ [(key, v)].
Proof.
  induction fields as [|[k old] rest IH]; simpl; [reflexivity|]. now rewrite IH.
Qed.

(** A new field named by an array index goes to its place among the fields
    named by an index, which stay in ascending order. *)
Lemma obj_insert_indexed (named : list (string * value)) key n v :
  array_index key = Some n ->
  Forall (fun field => is_array_index (fst field) = false) named ->
  forall indexed,
    Forall (fun field => is_array_index (fst field) = true) indexed ->
    ~ In key (map fst indexed) ->
    StronglySorted index_before indexed ->
    exists indexed',
      obj_insert (indexed ++ named) key (Some n) v = indexed' ++ named /\
      Permutation indexed' (indexed ++ [(key, v)]) /\
      StronglySorted index_before indexed'.
Proof.
  intros Hkey Hnamed indexed.
  induction indexed as [|[k old] ind IH]; intros Hind Hfresh Hsorted.
  - exists [(key, v)]. split; [|split].
    + destruct named as [|[k old] rest]; simpl; [reflexivity|].
      apply Forall_inv in Hnamed. unfold is_array_index in Hnamed. simpl in Hnamed.
      now destruct (array_index k).
    + apply Permutation_refl.
    + repeat constructor.
  - pose proof (Forall_inv Hind) as Hk. unfold is_array_index in Hk. simpl in Hk.
    destruct (array_index k) as [m|] eqn:Em; [clear Hk|discriminate].
    apply StronglySorted_inv in Hsorted. destruct Hsorted as [Hsorted Hall].
    simpl. rewrite Em. destruct (N.ltb_spec n m) as [Hlt|Hge].
    + exists ((key, v) :: (k, old) :: ind). split; [reflexivity|]. split.
      * exact (Permutation_cons_append ((k, old) :: ind) (key, v)).
      * constructor; [constructor; assumption|].
        constructor.
        -- unfold index_before. simpl. now rewrite Hkey, Em.
        -- eapply Forall_impl; [|exact Hall]. intros g Hg.
           unfold index_before in *. simpl in *. rewrite Hkey. rewrite Em in Hg.
           destruct (array_index (fst g)); [lia|exact Hg].
    + assert (Hne : m <> n).
      { intros ->. apply Hfresh. left. simpl.
        eapply array_index_inj; [exact Em|exact Hkey]. }
      destruct (IH (Forall_inv_tail Hind)
                   (fun Hin => Hfresh (or_intror Hin)) Hsorted)
        as (ind' & Hins & Hperm & Hsorted').
      exists ((k, old) :: ind'). split; [|split].
      * now rewrite Hins.
      * simpl. now apply perm_skip.
      * constructor; [exact Hsorted'|].
        apply (Permutation_Forall (Permutation_sym Hperm)).
        apply Forall_app. split; [exact Hall|].
        constructor; [|constructor].
        unfold index_before. simpl. rewrite Em, Hkey. lia.
Qed.

Lemma filter_snoc {A : Type} (f : A -> bool) (l : list A) (a : A) :
  filter f (l ++ [a]) = if f a then filter f l ++ [a] else filter f l.
Proof.
  rewrite filter_app. simpl. destruct (f a); [reflexivity|apply app_nil_r].
Qed.

(** The names of a record in own property order are those that were
    assigned. *)
Lemma own_property_order_names assigned fields key :
  own_property_order assigned fields ->
  In key (map fst fields) -> In key (map fst assigned).
Proof.
  intros (indexed & -> & Hperm & _) Hin.
  rewrite map_app in Hin. apply in_app_or in Hin.
  apply in_map_iff. destruct Hin as [Hin|Hin]; apply in_map_iff in Hin;
    destruct Hin as (field & <- & Hin); exists field; split; try reflexivity.
  - apply (Permutation_in _ Hperm) in Hin. now apply filter_In in Hin.
  - now apply filter_In in Hin.
Qed.

(** Assigning fields with distinct names, none of them [__proto__], to a
    record keeps the own property order. *)
Lemma fold_left_obj_set (todo : list (string * value)) :
  forall done acc,
    NoDup (map fst (done ++ todo)) ->
    ~ In "__proto__" (map fst todo) ->
    own_property_order done acc ->
    own_property_order (done ++ todo)
      (fold_left (fun obj column => obj_set obj (fst column) (snd column)) todo acc).
Proof.
  induction todo as [|[k v] rest IH]; intros done acc Hnd Hproto Hacc; simpl.
  - now rewrite app_nil_r.
  - replace (done ++ (k, v) :: rest) with ((done ++ [(k, v)]) ++ rest) in *
      by now rewrite <- app_assoc.
    apply IH; [exact Hnd|intros Hin; apply Hproto; now right|].
    assert (Hfresh : ~ In k (map fst acc)).
    { intros Hin. apply (@own_property_order_names done acc k Hacc) in Hin.
      rewrite !map_app in Hnd. apply NoDup_app_remove_r in Hnd.
      simpl in Hnd. apply NoDup_remove_2 in Hnd. rewrite app_nil_r in Hnd. contradiction. }
    unfold obj_set. simpl fst. simpl snd.
    replace (existsb (fun field : string * value => String.eqb (fst field) k) acc) with false.
    2:{ symmetry. apply not_true_is_false. intros Hex. apply existsb_exists in Hex.
        destruct Hex as (field & Hin & Heq). apply String.eqb_eq in Heq. subst k.
        apply Hfresh. now apply in_map. }
    destruct (String.eqb_spec k "__proto__") as [->|_];
      [exfalso; apply Hproto; now left|].
    destruct Hacc as (indexed & -> & Hperm & Hsorted).
    unfold own_property_order. rewrite !filter_snoc. simpl fst.
    destruct (array_index k) as [n|] eqn:Ek;
      [assert (Hk : is_array_index k = true) by (unfold is_array_index; now rewrite Ek)
      |assert (Hk : is_array_index k = false) by (unfold is_array_index; now rewrite Ek)];
      rewrite Hk; simpl negb; cbv iota.
    + assert (Hind : Forall (fun field => is_array_index (fst field) = true) indexed).
      { apply (Permutation_Forall (Permutation_sym Hperm)).
        apply Forall_forall. intros field Hin. now apply filter_In in Hin. }
      assert (Hnamed : Forall (fun field => is_array_index (fst field) = false)
                         (filter (fun field => negb (is_array_index (fst field))) done)).
      { apply Forall_forall. intros field Hin. apply filter_In in Hin.
        now apply negb_true_iff. }
      destruct (@obj_insert_indexed _ k n v Ek Hnamed indexed Hind) as (indexed' & E & P & S).
      * intros Hin. apply Hfresh. rewrite map_app. apply in_or_app. now left.
      * exact Hsorted.
      * exists indexed'. split; [exact E|]. split; [|exact S].
        eapply Permutation_trans; [exact P|]. now apply Permutation_app_tail.
    + exists indexed. split; [|split; assumption].
      rewrite obj_insert_named. now rewrite <- app_assoc.
Qed.

(** Without a name that is an array index, the own property order is the
    order of assignment. *)
Lemma own_property_order_named assigned fields :
  Forall (fun field => array_index (fst field) = None) assigned ->
  own_property_order assigned fields -> fields = assigned.
Proof.
  intros Hall (indexed & -> & Hperm & _).
  assert (E1 : filter (fun field => is_array_index (fst field)) assigned = []).
  { clear - Hall. induction Hall as [|field l Hf _ IH]; simpl; [reflexivity|].
    unfold is_array_index at 1. now rewrite Hf. }
  assert (E2 : filter (fun field => negb (is_array_index (fst field))) assigned = assigned).
  { clear - Hall. induction Hall as [|field l Hf _ IH]; simpl; [reflexivity|].
    unfold is_array_index at 1. rewrite Hf. simpl. now rewrite IH. }
  rewrite E1 in Hperm. apply Permutation_sym, Permutation_nil in Hperm. subst indexed.
  now rewrite E2.
Qed.

Lemma map_fst_combine {A B : Type} (l1 : list A) (l2 : list B) :
  List.length l1 <= List.length l2 -> map fst (combine l1 l2) = l1.
Proof.
  revert l2. induction l1 as [|a l1 IH]; intros l2 Hlen; simpl; [reflexivity|].
  destruct l2 as [|b l2]; simpl in *; [lia|]. f_equal. apply IH. lia.
Qed.

Lemma map_fst_row_cells (columnNames : list string) (items : list value) :
  map fst (row_cells columnNames items) = columnNames.
Proof.
  unfold row_cells. rewrite map_map. simpl.
  apply map_fst_combine. rewrite length_seq. lia.
Qed.

(** What [convertRowsToObjects] makes of an array row. *)
Lemma convertRowsToObjects_row (columnNames : list string) (items : list value) :
  (fields <- mapM (fun column => cell <- js_index (VArr items) (snd column) ;;
                                 ret (fst column, cell))
                  (combine columnNames (seq 0 (List.length columnNames))) ;;
   ret (VObj (fold_left (fun obj column => obj_set obj (fst column) (snd column)) fields [])))
    ~~> Val (row_record columnNames items).
Proof.
  eapply evals_bind.
  - apply (@mapM_pure _ _ _ (fun column : string * nat =>
                               (fst column, nth (snd column) items VUndefined))).
    intros column. simpl. eval_steps.
  - apply evals_ret.
Qed.

(** The fields of that record are in own property order. *)
Lemma row_record_order (columnNames : list string) (items : list value) :
  NoDup columnNames ->
  ~ In "__proto__" columnNames ->
  exists fields,
    row_record columnNames items = VObj fields /\
    own_property_order (row_cells columnNames items) fields.
Proof.
  intros Hnd Hproto. eexists. split; [reflexivity|].
  apply (@fold_left_obj_set (row_cells columnNames items) [] []).
  - simpl. now rewrite map_fst_row_cells.
  - now rewrite map_fst_row_cells.
  - exists []. repeat split; constructor.
Qed.

Lemma forallb_is_array (rows : list (list value)) :
  forallb is_array (map VArr rows) = true.
Proof. induction rows as [|r rows IH]; simpl; auto. Qed.

(** X29. [new DataFrame({ columnNames, rows })] with column names without
    repetition, none of them [__proto__], and rows that are arrays: the
    frame has these column names and yields, under the index 0, 1, 2, ...,
    one record per row. The fields of the record are the column names, each
    with the cell at the position of its column; a cell that the row lacks
    is undefined, and a cell past the last column is dropped. The fields
    stand in the order in which the host enumerates them: first the column
    names that are array indexes, in ascending order of the index, then the
    other column names in column order. So the fields follow the column
    order when no column name is an array index, and otherwise need not. *)
Theorem DataFrame_new_rows_under_column_names :
  forall (columnNames : list string) (rows : list (list value)) (debug : bool),
    NoDup columnNames ->
    ~ In "__proto__" columnNames ->
    exists frame,
      DataFrame_new (Some {| config_df_iterable := None;
                             config_columnNames := Some columnNames;
                             config_considerAllRows := false;
                             config_rows := Some (RowsArray (map VArr rows));
                             config_columns := None;
                             config_df_index := None;
                             config_debug := debug;
                             config_df_values := None |}) ~~> Val frame /\
      DataFrame_getColumnNames frame = columnNames /\
      DataFrame_yields frame (indexed_from 0 (map (row_record columnNames) rows)) /\
      (forall items,
         exists fields,
           row_record columnNames items = VObj fields /\
           own_property_order (row_cells columnNames items) fields) /\
      (Forall (fun name => array_index name = None) columnNames ->
       map (row_record columnNames) rows = map (row_object columnNames) rows) /\
      DataFrame_count frame ~~> Val (List.length rows).
Proof.
  intros columnNames rows debug Hnd Hproto.
  assert (Hy : DataFrame_yields
                 {| _columnNames := columnNames;
                    DataFrame_getIterator :=
                      indexIterator <- DataFrame_indexIterator None ;;
                      rowsIterator <- DataFrame_rowsIterator (RowsArray (map VArr rows)) ;;
                      ret (PairIterator indexIterator
                             (convertRowsToObjects columnNames rowsIterator)) |}
                 (indexed_from 0 (map (row_record columnNames) rows))).
  { assert (Hobjects : Forall2
                         (fun row object =>
                            forall i : value,
                              (fields <- mapM (fun column =>
                                                 cell <- js_index row (snd column) ;;
                                                 ret (fst column, cell))
                                              (combine columnNames
                                                 (seq 0 (List.length columnNames))) ;;
                               ret (VObj (fold_left
                                            (fun obj column =>
                                               obj_set obj (fst column) (snd column))
                                            fields []))) ~~> Val object)
                         (map VArr rows) (map (row_record columnNames) rows)).
    { clear. induction rows as [|items rows IH]; simpl; constructor; [|exact IH].
      intros _. apply convertRowsToObjects_row. }
    pose proof (SelectIterator_runs _ (ArrayIterator_runs (map VArr rows)) (-1)%Z Hobjects)
      as Hsel.
    eexists. split; [simpl; eval_steps|].
    exact (CountIterator_PairIterator_runs Hsel 0). }
  eexists. split.
  { simpl. rewrite forallb_is_array. rewrite andb_false_r. eval_steps. }
  split; [reflexivity|]. split; [exact Hy|]. split; [|split].
  - intros items. now apply row_record_order.
  - intros Hnamed. apply map_ext. intros items.
    destruct (@row_record_order columnNames items Hnd Hproto) as (fields & E & Hord).
    rewrite E. unfold row_object. f_equal.
    apply (@own_property_order_named (row_cells columnNames items)); [|exact Hord].
    apply Forall_forall. intros field Hin.
    apply (in_map fst) in Hin. rewrite map_fst_row_cells in Hin.
    exact (proj1 (Forall_forall _ _) Hnamed _ Hin).
  - pose proof (DataFrame_count_yields Hy) as Hc.
    rewrite <- (length_map (row_record columnNames)).
    replace (List.length (map (row_record columnNames) rows))
      with (List.length (indexed_from 0 (map (row_record columnNames) rows))); [exact Hc|].
    rewrite <- (map_snd_indexed_from (map (row_record columnNames) rows) 0) at 2.
    now rewrite length_map.
Qed.

(** Two rows under the columns "b", "1", "a", "0": a long row and a short
    row. The fields named by an array index come first. *)
Lemma DataFrame_new_rows_under_column_names_witness :
  exists frame,
    DataFrame_new (Some {| config_df_iterable := None;
                           config_columnNames := Some ["b"; "1"; "a"; "0"];
                           config_considerAllRows := false;
                           config_rows :=
                             Some (RowsArray
                                     (map VArr [[VNum 10; VNum 20; VNum 30; VNum 40; VNum 50];
                                                [VNum 1]]));
                           config_columns := None;
                           config_df_index := None;
                           config_debug := true;
                           config_df_values := None |}) ~~> Val frame /\
    DataFrame_getColumnNames frame = ["b"; "1"; "a"; "0"] /\
    DataFrame_yields frame
      [(VNum 0, VObj [("0", VNum 40); ("1", VNum 20); ("b", VNum 10); ("a", VNum 30)]);
       (VNum 1, VObj [("0", VUndefined); ("1", VUndefined); ("b", VNum 1);
                      ("a", VUndefined)])] /\
    DataFrame_count frame ~~> Val 2.
Proof.
  destruct (@DataFrame_new_rows_under_column_names ["b"; "1"; "a"; "0"]
              [[VNum 10; VNum 20; VNum 30; VNum 40; VNum 50]; [VNum 1]] true)
    as (frame & Hf & Hc & Hy & _ & _ & Hn).
  - repeat constructor; simpl; intuition discriminate.
  - simpl. intuition discriminate.
  - exists frame. split; [exact Hf|]. split; [exact Hc|]. split; [exact Hy|exact Hn].
Defined.

(** ** The constructor: column names taken from the rows *)

Lemma existsb_eqb_In (x : string) (seen : list string) :
  existsb (String.eqb x) seen = true <-> In x seen.
Proof.
  rewrite existsb_exists. split.
  - intros (y & Hy & He). apply String.eqb_eq in He. now subst.
  - intros Hin. exists x. split; [exact Hin|apply String.eqb_refl].
Qed.

Lemma distinct_In (l : list string) :
  forall seen x, In x (distinct seen l) <-> In x l /\ ~ In x seen.
Proof.
  induction l as [|y l IH]; intros seen x; simpl.
  - tauto.
  - destruct (existsb (String.eqb y) seen) eqn:E.
    + apply existsb_eqb_In in E. rewrite IH. split.
      * intros [Hin Hnot]. auto.
      * intros [[->|Hin] Hnot]; [contradiction|auto].
    + assert (Hy : ~ In y seen)
        by (intros Hin; apply existsb_eqb_In in Hin; congruence).
      simpl. rewrite IH. simpl. split.
      * intros [->|[Hin Hnot]]; [auto|]. split; [auto|]. intros Hs. apply Hnot. now right.
      * intros [[->|Hin] Hnot]; [now left|].
        destruct (string_dec y x) as [->|Hne]; [now left|].
        right. split; [exact Hin|]. intros [Heq|Hs]; [congruence|contradiction].
Qed.

Lemma distinct_NoDup (l : list string) : forall seen, NoDup (distinct seen l).
Proof.
  induction l as [|y l IH]; intros seen; simpl.
  - constructor.
  - destruct (existsb (String.eqb y) seen); [apply IH|].
    constructor; [|apply IH].
    rewrite distinct_In. intros [_ Hnot]. apply Hnot. now left.
Qed.

Lemma mapM_Object_keys (rows : list value) :
  Forall (fun row => is_object row = true) rows ->
  mapM Object_keys rows ~~> Val (map field_names rows).
Proof.
  induction 1 as [|row rows Hrow Hrows IH]; simpl.
  - apply evals_ret.
  - destruct row; try discriminate Hrow. simpl. eval_steps.
Qed.

(** X30. [new DataFrame({ rows })] over an array of records yields the rows
    under the index 0, 1, 2, .... Without [considerAllRows] its column names
    are the field names of the first row (none when there is no row), so a
    field that only later rows have is no column. With [considerAllRows]
    they are the field names of all the rows, each once, in the order of
    their first occurrence. *)
Theorem DataFrame_new_column_names_from_rows :
  forall (rows : list value) (considerAllRows : bool),
    Forall (fun row => is_object row = true) rows ->
    let columnNames :=
      if considerAllRows then distinct [] (List.concat (map field_names rows))
      else match rows with
           | first :: _ => field_names first
           | [] => []
           end in
    exists frame,
      DataFrame_new (Some {| config_df_iterable := None;
                             config_columnNames := None;
                             config_considerAllRows := considerAllRows;
                             config_rows := Some (RowsArray rows);
                             config_columns := None;
                             config_df_index := None;
                             config_debug := false;
                             config_df_values := None |}) ~~> Val frame /\
      DataFrame_getColumnNames frame = columnNames /\
      DataFrame_yields frame (indexed_from 0 rows) /\
      (considerAllRows = true ->
       NoDup columnNames /\
       forall name,
         In name columnNames <-> exists row, In row rows /\ In name (field_names row)).
Proof.
  intros rows considerAllRows Hrows columnNames.
  assert (Hnames : determineColumnNamesFromObjectRows rows considerAllRows ~~> Val columnNames).
  { unfold determineColumnNamesFromObjectRows, columnNames. destruct considerAllRows.
    - eapply evals_bind; [exact (mapM_Object_keys Hrows)|]. apply evals_ret.
    - destruct Hrows as [|row rows Hrow _]; [apply evals_ret|].
      destruct row; try discriminate Hrow. apply evals_ret. }
  eexists. split.
  { simpl. eapply evals_bind; [apply evals_ret|]. cbv beta.
    eapply evals_bind.
    - destruct Hrows as [|row rows Hrow _]; [apply evals_ret|].
      rewrite Hrow. apply evals_ret.
    - cbv beta. eapply evals_bind; [exact Hnames|]. apply evals_ret. }
  split; [reflexivity|]. split.
  - eexists. split; [simpl; eval_steps|].
    apply (CountIterator_PairIterator_runs (ArrayIterator_runs rows) 0).
  - intros ->. unfold columnNames. split; [apply distinct_NoDup|].
    intros name. rewrite distinct_In, in_concat. split.
    + intros [(keys & Hk & Hin) _]. apply in_map_iff in Hk.
      destruct Hk as (row & <- & Hrow). exists row. auto.
    + intros (row & Hrow & Hin). split; [|tauto].
      exists (field_names row). split; [now apply in_map|exact Hin].
Qed.

(** Two records, the second with a field that the first lacks. *)
Lemma DataFrame_new_column_names_from_rows_witness :
  (exists frame,
     DataFrame_new (Some {| config_df_iterable := None;
                            config_columnNames := None;
                            config_considerAllRows := false;
                            config_rows :=
                              Some (RowsArray [VObj [("a", VNum 1)];
                                               VObj [("b", VNum 2); ("a", VNum 3)]]);
                            config_columns := None;
                            config_df_index := None;
                            config_debug := false;
                            config_df_values := None |}) ~~> Val frame /\
     DataFrame_getColumnNames frame = ["a"]) /\
  (exists frame,
     DataFrame_new (Some {| config_df_iterable := None;
                            config_columnNames := None;
                            config_considerAllRows := true;
                            config_rows :=
                              Some (RowsArray [VObj [("a", VNum 1)];
                                               VObj [("b", VNum 2); ("a", VNum 3)]]);
                            config_columns := None;
                            config_df_index := None;
                            config_debug := false;
                            config_df_values := None |}) ~~> Val frame /\
     DataFrame_getColumnNames frame = ["a"; "b"]).
Proof.
  assert (Hrows : Forall (fun row => is_object row = true)
                         [VObj [("a", VNum 1)]; VObj [("b", VNum 2); ("a", VNum 3)]])
    by (repeat constructor).
  split.
  - destruct (@DataFrame_new_column_names_from_rows _ false Hrows) as (frame & Hf & Hc & _).
    exists frame. split; assumption.
  - destruct (@DataFrame_new_column_names_from_rows _ true Hrows) as (frame & Hf & Hc & _).
    exists frame. split; assumption.
Defined.

(* ================================================================== *)
(** * Iterators as objects: the restart law *)

(** ** Evaluation on a store *)



(** An outcome reached with enough fuel is the only one. *)
Lemma evalsS_det {A : Type} (m : ST A) st out1 out2 :
  m -[ st ]-> out1 -> m -[ st ]-> out2 -> out1 = out2.
Proof.
  intros [N1 H1] [N2 H2].
  rewrite <- (H1 (Nat.max N1 N2)) by lia. apply H2; lia.
Qed.








(** ** The store *)

Lemma length_update x v st : List.length (update x v st) = List.length st.
Proof.
  revert x. induction st as [|w st IH]; intros [|x]; simpl; auto.
Qed.

Lemma nth_error_update_eq x v st :
  x < List.length st -> nth_error (update x v st) x = Some v.
Proof.
  revert x. induction st as [|w st IH]; intros [|x] Hx; simpl in *; try lia; auto.
  apply IH. lia.
Qed.

Lemma nth_error_update_neq x y v st :
  x <> y -> nth_error (update x v st) y = nth_error st y.
Proof.
  revert x y. induction st as [|w st IH]; intros [|x] [|y] Hxy; simpl; auto; try congruence.
Qed.

Lemma nth_error_nth_default (st : store) x v :
  nth_error st x = Some v -> nth x st VUndefined = v.
Proof. intros H. now apply nth_error_nth. Qed.



Lemma frame_refl cells st : frame cells st st.
Proof. split; auto. Qed.

Lemma frame_trans {cells st1 st2 st3} :
  frame cells st1 st2 -> frame cells st2 st3 -> frame cells st1 st3.
Proof.
  intros [L1 H1] [L2 H2]. split; [congruence|].
  intros x Hx. rewrite H2, H1 by assumption. reflexivity.
Qed.

Lemma frame_weaken {cells cells' st st'} :
  (forall x, In x cells -> In x cells') -> frame cells st st' -> frame cells' st st'.
Proof.
  intros Hsub [L H]. split; [exact L|]. intros x Hx. apply H. auto.
Qed.

Lemma frame_update {cells x} v {st} : In x cells -> frame cells st (update x v st).
Proof.
  intros Hx. split; [apply length_update|].
  intros y Hy. apply nth_error_update_neq. intros ->. contradiction.
Qed.







(** ** Footprints *)


Lemma footprint_own {S B : Type} (R : S -> store -> Prop) cells (enc : B -> value) (x : nat) :
  footprint R cells ->
  footprint (fun (sb : S * B) st => R (fst sb) st /\ nth_error st x = Some (enc (snd sb)))
            (x :: cells).
Proof.
  intros Hfp. constructor.
  - intros sb st y [HR Hx] [<-|Hy].
    + apply nth_error_Some. congruence.
    + eapply (fp_valid Hfp); eassumption.
  - intros sb st st' [HR Hx] Hsame. split.
    + eapply (fp_local Hfp); [exact HR|]. intros y Hy. apply Hsame. now right.
    + rewrite Hsame by now left. exact Hx.
  - intros sb st st' y [HR Hx] [HR' Hx'] [<-|Hy].
    + congruence.
    + eapply (fp_det Hfp); eassumption.
Qed.



Lemma footprint_update {S : Type} {R : S -> store -> Prop} {cells s st} x v :
  footprint R cells -> ~ In x cells -> R s st -> R s (update x v st).
Proof.
  intros Hfp Hx HR. eapply (fp_local Hfp); [exact HR|].
  intros y Hy. apply nth_error_update_neq. intros ->. contradiction.
Qed.


(** ** From the cursor to the object *)




Lemma drives_det {A : Type} {o : Obj.Iterator A} {st l1 st1} :
  drives o st l1 st1 -> forall {l2 st2}, drives o st l2 st2 -> l1 = l2 /\ st1 = st2.
Proof.
  induction 1 as [st st' Hm|st sa sb a l st' Hm Hc Hd IH]; intros l2 st2 H2;
    destruct H2 as [t t' Hm2|t ta tb a2 l2 t' Hm2 Hc2 Hd2];
    pose proof (evalsS_det Hm Hm2) as E; try discriminate E.
  - injection E as ->. auto.
  - injection E as ->. pose proof (evalsS_det Hc Hc2) as E'. injection E' as -> ->.
    destruct (IH _ _ Hd2) as [-> ->]. auto.
Qed.



(** ** The restart law of fresh cursors *)


(** ** The iterator objects represent the cursors *)


Lemma EmptyIterator_represents (A : Type) :
  represents {| Obj.moveNext := retS false; Obj.getCurrent := liftM no_current |}
             (EmptyIterator_machine A) (fun _ _ => True) [].
Proof.
  constructor.
  - constructor; [intros ? ? ? _ []|auto|intros ? ? ? ? _ _ []].
  - intros fuel s st b s' _ H. simpl in H. injection H as <- <-.
    exists st. split; [reflexivity|]. split; [exact I|apply frame_refl].
  - intros fuel s st a _ H. discriminate H.
Qed.







(** A function of the host that has no side effect: on the store it does
    what a function of the first model does. *)
Lemma liftM_Val {A : Type} (m : M A) a st fuel :
  m fuel = Val a -> liftM m st fuel = Returned a st.
Proof. unfold liftM. now intros ->. Qed.

Lemma SelectIterator_at_represents {A B : Type} (o : Obj.Iterator A) it R cells x
    (selector_o : A -> value -> ST B) (selector : A -> value -> M B) :
  represents o it R cells ->
  ~ In x cells ->
  (forall a v st fuel, selector_o a v st fuel = liftM (selector a v) st fuel) ->
  represents (Obj.SelectIterator_at o selector_o x) (SelectIterator_machine it selector)
             (fun s st => R (fst s) st /\ nth_error st x = Some (VNum (snd s)))
             (x :: cells).
Proof.
  intros Rep Hx Hsel.
  assert (Hsub : forall y, In y cells -> In y (x :: cells)) by (intros; now right).
  constructor.
  - exact (footprint_own VNum x (rep_footprint Rep)).
  - intros fuel [s i] st b [t j] [HR Hi] H. cbn in H. unfold bind, ret in H.
    destruct (moveNext it s fuel) as [[more u]| |] eqn:E; try discriminate H.
    injection H as <- <- <-.
    destruct (rep_moveNext Rep fuel _ _ HR E) as (st1 & O1 & HR1 & F1).
    assert (Hi1 : nth_error st1 x = Some (VNum i)).
    { destruct F1 as [_ F1]. now rewrite F1. }
    cbn. unfold bindS, get_var. rewrite O1.
    rewrite (nth_error_nth_default _ _ Hi1). cbn.
    eexists. split; [reflexivity|].
    split; [split|].
    + exact (footprint_update x _ (rep_footprint Rep) Hx HR1).
    + apply nth_error_update_eq. apply nth_error_Some. congruence.
    + eapply frame_trans; [exact (@frame_weaken cells (x :: cells) _ _ Hsub F1)|].
      apply frame_update. now left.
  - intros fuel [s i] st b [HR Hi] H. cbn in H. unfold bind in H.
    destruct (getCurrent it s fuel) as [cur| |] eqn:E; try discriminate H.
    cbn. unfold bindS, get_var.
    rewrite (rep_getCurrent Rep fuel _ _ HR E).
    rewrite (nth_error_nth_default _ _ Hi). cbn [num_of].
    rewrite Hsel. now apply liftM_Val.
Qed.






(** ** Every request for an iterator makes fresh cursors *)
















(** ** The pipelines *)



(** An outcome that every amount of fuel computes. *)
Ltac run_on_store := exists 0; intros ? _; reflexivity.

(** Two iterators of one [getIterator] that read different sequences when
    driven one after the other refute the restart law. *)
Lemma restarts_refuted {A : Type} (g : ST (Obj.Iterator A)) st0 it1 st1 it2 st2 l1 st3 l2 st4 :
  g -[ st0 ]-> Returned it1 st1 ->
  g -[ st1 ]-> Returned it2 st2 ->
  drives it1 st2 l1 st3 ->
  drives it2 st3 l2 st4 ->
  l1 <> l2 ->
  ~ restarts g.
Proof.
  intros G1 G2 D1 D2 Hne (l & Hl).
  destruct (Hl st0) as (it1' & st1' & it2' & st2' & G1' & G2' & (st3' & st4' & D1' & D2') & _).
  pose proof (evalsS_det G1 G1') as E1. injection E1 as <- <-.
  pose proof (evalsS_det G2 G2') as E2. injection E2 as <- <-.
  destruct (drives_det D1 D1') as [<- <-].
  destruct (drives_det D2 D2') as [<- _].
  now apply Hne.
Qed.

Ltac drive_on_store :=
  repeat (eapply drives_more; [run_on_store|run_on_store|]);
  eapply drives_finished; run_on_store.


(** A single-shot generator is outside the restart law, as the spec has it:
    the first drive of the series of [single_shot_pipeline] reads the two
    pairs, the second nothing. *)
Lemma single_shot_generator_does_not_restart :
  exists self st0 it1 st1 it2 st2 st3 st4,
    single_shot_pipeline -[ [] ]-> Returned self st0 /\
    Obj.Series_getIterator self -[ st0 ]-> Returned it1 st1 /\
    Obj.Series_getIterator self -[ st1 ]-> Returned it2 st2 /\
    drives it1 st2 [(VNum 0, VStr "a"); (VNum 1, VStr "b")] st3 /\
    drives it2 st3 [] st4 /\
    ~ restarts (Obj.Series_getIterator self).
Proof.
  eexists _, _, _, _, _, _, _, _.
  match goal with
  | |- ?P0 /\ ?P1 /\ ?P2 /\ ?P3 /\ ?P4 /\ _ =>
      assert (H0 : P0) by run_on_store;
      assert (G1 : P1) by run_on_store;
      assert (G2 : P2) by run_on_store;
      assert (D1 : P3) by drive_on_store;
      assert (D2 : P4) by drive_on_store
  end.
  split; [exact H0|]. split; [exact G1|]. split; [exact G2|].
  split; [exact D1|]. split; [exact D2|].
  exact (restarts_refuted G1 G2 D1 D2 ltac:(discriminate)).
Qed.

(** ** The restart law *)


